(** * Punctuation/capitalization inference script and pinyin helper scripts

    A shallow embedding of

    - [examples/nlp/token_classification/punctuate_capitalize_infer.py]
      (the regular-expression post-processing, [decimal_repl] and [main]),
    - [examples/asr/char2pinyin.py] (manifest rewriting),
    - [eval_pypinyin.py] (label-file parsing),

    together with a model of the sliding-window core (Segmenter, Margin
    Mask, Aggregator, Batch Driver) that the scripts call into.

    Conventions.  A Python [str] is a list of characters; a character is a
    code point below 256 ([ascii]).  Python integers are [Z].  A Python
    [dict] built by [json.loads] is an association list, because
    [json.dumps] prints the keys in insertion order.  Code that can raise
    returns a [result]; loops that may run forever take fuel and return
    [None] when the fuel runs out. *)

From Stdlib Require Import ZArith Ascii String List Bool Lia.
From stdpp Require Import gmap strings list.
Import ListNotations.

Open Scope list_scope.

(** ** Python strings *)

Abbreviation str := (list ascii).

Definition py_str (s : string) : str := list_ascii_of_string s.

Definition code (c : ascii) : N := N_of_ascii c.

(** [str.isspace] on one character, for the code points below 256:
    TAB..CR, FS..US, SPACE, NEL (0x85) and NBSP (0xA0). *)
Definition is_space (c : ascii) : bool :=
  let n := code c in
  ((9 <=? n)%N && (n <=? 13)%N) || ((28 <=? n)%N && (n <=? 32)%N)
  || (n =? 133)%N || (n =? 160)%N.

Definition is_digit (c : ascii) : bool :=
  let n := code c in (48 <=? n)%N && (n <=? 57)%N.

Definition is_ascii_upper (c : ascii) : bool :=
  let n := code c in (65 <=? n)%N && (n <=? 90)%N.

Definition is_ascii_lower (c : ascii) : bool :=
  let n := code c in (97 <=? n)%N && (n <=? 122)%N.

(** The character class [[a-zA-Z]]. *)
Definition is_letter (c : ascii) : bool := is_ascii_upper c || is_ascii_lower c.

(** [c.upper()] for a character of [[a-zA-Z]] (the only place the script
    calls it); other characters are returned as they are. *)
Definition upper_char (c : ascii) : ascii :=
  if is_ascii_lower c then ascii_of_N (code c - 32) else c.

Definition eqc (a b : ascii) : bool := Ascii.eqb a b.

Fixpoint drop_while {A} (p : A -> bool) (l : list A) : list A :=
  match l with
  | [] => []
  | x :: l' => if p x then drop_while p l' else l
  end.

Fixpoint take_while {A} (p : A -> bool) (l : list A) : list A :=
  match l with
  | [] => []
  | x :: l' => if p x then x :: take_while p l' else []
  end.

Definition lstrip (s : str) : str := drop_while is_space s.
Definition rstrip (s : str) : str := rev (drop_while is_space (rev s)).

(** [s.strip()] *)
Definition strip (s : str) : str := rstrip (lstrip s).

(** [s[:-1]] *)
Definition but_last (s : str) : str := removelast s.

(** [s[-1]], when [s] is not empty *)
Definition last_char (s : str) : option ascii := head (rev s).

(** [s.split(sep)] for a one-character separator: never returns the empty
    list, [''.split('|') == ['']]. *)
Fixpoint split_on (sep : ascii) (s : str) : list str :=
  match s with
  | [] => [[]]
  | c :: s' =>
      if eqc c sep then [] :: split_on sep s'
      else match split_on sep s' with
           | h :: t => (c :: h) :: t
           | [] => [[c]]
           end
  end.

(** [s.split()]: split on runs of whitespace, no empty parts. *)
Fixpoint split_ws_go (cur : str) (s : str) : list str :=
  match s with
  | [] => match cur with [] => [] | _ => [rev cur] end
  | c :: s' =>
      if is_space c
      then match cur with
           | [] => split_ws_go [] s'
           | _ => rev cur :: split_ws_go [] s'
           end
      else split_ws_go (c :: cur) s'
  end.

Definition split_ws (s : str) : list str := split_ws_go [] s.

(** [sep.join(parts)] *)
Fixpoint join (sep : str) (parts : list str) : str :=
  match parts with
  | [] => []
  | [p] => p
  | p :: rest => p ++ sep ++ join sep rest
  end.

Fixpoint starts_with (pre s : str) : bool :=
  match pre, s with
  | [], _ => true
  | _ :: _, [] => false
  | a :: pre', b :: s' => eqc a b && starts_with pre' s'
  end.

(** [s.replace(old, new)] for a non-empty [old]: occurrences are found
    left to right and do not overlap.  [skip] counts the characters of an
    occurrence that are still to be dropped. *)
Fixpoint replace_go (old new : str) (skip : nat) (s : str) : str :=
  match s with
  | [] => []
  | c :: s' =>
      match skip with
      | S k => replace_go old new k s'
      | O =>
          if starts_with old s
          then new ++ replace_go old new (length old - 1) s'
          else c :: replace_go old new 0 s'
      end
  end.

Definition str_replace (old new : str) (s : str) : str := replace_go old new 0 s.

(** In the words of the description of char2pinyin.py: [s] "with every
    occurrence of [old] removed", that is [s] without the characters that
    lie inside some occurrence of [old] in [s].  [inside] counts the
    characters of the occurrences seen so far that are still ahead. *)
Fixpoint remove_occurrences_go (old : str) (inside : nat) (s : str) : str :=
  match s with
  | [] => []
  | c :: s' =>
      match (if starts_with old s then length old else inside) with
      | O => c :: remove_occurrences_go old 0 s'
      | S k => remove_occurrences_go old k s'
      end
  end.

Definition remove_occurrences (old s : str) : str := remove_occurrences_go old 0 s.

(** [s.replace(a, b)] for single characters. *)
Definition replace_char (a b : ascii) (s : str) : str :=
  map (fun c => if eqc c a then b else c) s.

(** ** Exceptions and results *)

Inductive exn : Type :=
| ConfigurationError
| CoverageError
| ValueError
| KeyError (key : str)
| IndexError
| TypeError
| AttributeError
| UnboundLocalError
| FileNotFoundError (path : str)
| ExternalError (msg : str).

Inductive result (A : Type) : Type :=
| Ok (a : A)
| Raise (e : exn).
Arguments Ok {A} a.
Arguments Raise {A} e.

Definition rbind {A B} (r : result A) (k : A -> result B) : result B :=
  match r with
  | Ok a => k a
  | Raise e => Raise e
  end.

Notation "'do' x <- r ; k" := (rbind r (fun x => k))
  (at level 10, x name, r at level 100, k at level 200).

Fixpoint rmap_list {A B} (f : A -> result B) (l : list A) : result (list B) :=
  match l with
  | [] => Ok []
  | x :: l' => do y <- f x; do ys <- rmap_list f l'; Ok (y :: ys)
  end.

(** ** eval_pypinyin.py: one line of the label file (lines 24-33) *)

Module EvalPypinyin.

Inductive line_result : Type :=
| Skipped
| Fields (filename : str) (label character : list str)
| Failed (e : exn).

(** The list [l] of line 28, for a line that is not skipped. *)
Definition split_fields (line : str) : list str :=
  split_on "|" (but_last (strip line)).

Definition skipped (line : str) : bool :=
  match strip line with
  | [] => true
  | c :: _ => eqc c "010" || eqc c "#"
  end.

(** [label.replace('$', '%').split('%')] followed by [strip] on each part. *)
Definition split_label (s : str) : list str :=
  map strip (split_on "%" (replace_char "$" "%" s)).

Definition parse_line (line : str) : line_result :=
  if skipped line then Skipped
  else match split_fields line with
       | [filename; label; character] =>
           Fields filename (split_label label) (split_label character)
       | _ => Failed ValueError
       end.

(** The three raw fields unpacked on line 29. *)
Definition raw_fields (line : str) : option (str * str * str) :=
  if skipped line then None
  else match split_fields line with
       | [filename; label; character] => Some (filename, label, character)
       | _ => None
       end.

End EvalPypinyin.

(** ** Regular expressions

    The fragment of Python's [re] the script uses: character classes,
    concatenation, [?], [+] and, for [re.I], case-insensitive literals.
    Anchors ([^], [$]) are handled where the two anchored patterns are
    used. *)

Inductive regex : Type :=
| Void
| Eps
| Class (p : ascii -> bool)
| Cat (r1 r2 : regex)
| Alt (r1 r2 : regex)
| Star (r : regex).

Definition Opt (r : regex) : regex := Alt r Eps.
Definition Plus (r : regex) : regex := Cat r (Star r).

Definition lower_char (c : ascii) : ascii :=
  if is_ascii_upper c then ascii_of_N (code c + 32) else c.

(** One pattern character: under [re.I] it matches both cases. *)
Definition Chr (ignore_case : bool) (c : ascii) : regex :=
  Class (fun x => if ignore_case then eqc (lower_char x) (lower_char c) else eqc x c).

Fixpoint Lit (ignore_case : bool) (s : str) : regex :=
  match s with
  | [] => Eps
  | c :: s' => Cat (Chr ignore_case c) (Lit ignore_case s')
  end.

(** The words a regular expression denotes. *)
Inductive re_match : regex -> str -> Prop :=
| MEps : re_match Eps []
| MClass p c : p c = true -> re_match (Class p) [c]
| MCat r1 r2 s1 s2 : re_match r1 s1 -> re_match r2 s2 -> re_match (Cat r1 r2) (s1 ++ s2)
| MAltL r1 r2 s : re_match r1 s -> re_match (Alt r1 r2) s
| MAltR r1 r2 s : re_match r2 s -> re_match (Alt r1 r2) s
| MStarNil r : re_match (Star r) []
| MStarApp r s1 s2 : re_match r s1 -> re_match (Star r) s2 -> re_match (Star r) (s1 ++ s2).

Fixpoint nullable (r : regex) : bool :=
  match r with
  | Void => false
  | Eps => true
  | Class _ => false
  | Cat r1 r2 => nullable r1 && nullable r2
  | Alt r1 r2 => nullable r1 || nullable r2
  | Star _ => true
  end.

(** Brzozowski derivative. *)
Fixpoint deriv (c : ascii) (r : regex) : regex :=
  match r with
  | Void => Void
  | Eps => Void
  | Class p => if p c then Eps else Void
  | Cat r1 r2 =>
      if nullable r1 then Alt (Cat (deriv c r1) r2) (deriv c r2)
      else Cat (deriv c r1) r2
  | Alt r1 r2 => Alt (deriv c r1) (deriv c r2)
  | Star r1 => Cat (deriv c r1) (Star r1)
  end.

(** [re.fullmatch]: does the whole of [s] match [r]? *)
Fixpoint matches (r : regex) (s : str) : bool :=
  match s with
  | [] => nullable r
  | c :: s' => matches (deriv c r) s'
  end.

(** Length of the longest prefix of [s] that matches [r].  For every
    pattern of the script the match Python's backtracking matcher finds
    at a position is the longest one there: no pattern has an alternation,
    every quantifier is greedy, and the character that follows a repeated
    group can never start another iteration of it. *)
Fixpoint longest_match (r : regex) (s : str) : option nat :=
  match s with
  | [] => if nullable r then Some 0 else None
  | c :: s' =>
      match longest_match (deriv c r) s' with
      | Some n => Some (S n)
      | None => if nullable r then Some 0 else None
      end
  end.

(** [pattern.sub(repl, s)] with a callable [repl], for a pattern that does
    not match the empty string (none of the script's does): scan left to
    right, replace each match, go on after it.  [skip] counts the
    characters of the current match that are still to be passed over. *)
Fixpoint re_sub_go (r : regex) (repl : str -> result str) (skip : nat) (s : str)
  : result str :=
  match s with
  | [] => Ok []
  | c :: s' =>
      match skip with
      | S k => re_sub_go r repl k s'
      | O =>
          match longest_match r s with
          | Some (S n) =>
              do out <- repl (take (S n) s);
              do rest <- re_sub_go r repl n s';
              Ok (out ++ rest)
          | _ =>
              do rest <- re_sub_go r repl 0 s';
              Ok (c :: rest)
          end
      end
  end.

Definition re_sub (r : regex) (repl : str -> result str) (s : str) : result str :=
  re_sub_go r repl 0 s.

(** ** punctuate_capitalize_infer.py: patterns (lines 28-32) *)

Definition is_punct (c : ascii) : bool := eqc c "." || eqc c "," || eqc c "?".

(** [PUNCTUATION = re.compile("[.,?]")] *)
Definition PUNCTUATION : regex := Class is_punct.

(** [DECIMAL = re.compile("[0-9]+[.,?]? point([.,?]? [0-9])+", flags=re.I)] *)
Definition DECIMAL : regex :=
  Cat (Plus (Class is_digit))
    (Cat (Opt PUNCTUATION)
       (Cat (Lit true (py_str " point"))
          (Plus (Cat (Opt PUNCTUATION) (Cat (Chr true " ") (Class is_digit)))))).

(** [SPACE_DEDUP = re.compile(r' +')] *)
Definition SPACE_DEDUP : regex := Plus (Chr false " ").

(** [LEFT_PUNCTUATION_STRIP_PATTERN.sub('', s)] with the pattern
    [^[^a-zA-Z]+]: [^] matches at position 0 only, so the one possible
    match is the leading run of non-letters. *)
Definition LEFT_PUNCTUATION_STRIP_sub (s : str) : str :=
  drop_while (fun c => negb (is_letter c)) s.

(** [RIGHT_PUNCTUATION_STRIP_PATTERN.sub('', s)] with the pattern
    [[^a-zA-Z]$]: [$] matches at the end of the string and just before a
    newline that ends it.  So a final non-letter is removed, and when that
    final character is a newline a non-letter before it is removed too. *)
Definition RIGHT_PUNCTUATION_STRIP_sub (s : str) : str :=
  match rev s with
  | [] => []
  | c :: r =>
      if is_letter c then s
      else if eqc c "010"
           then match r with
                | x :: r' => if is_letter x then rev r else rev r'
                | [] => []
                end
           else rev r
  end.

(** [decimal_repl] (lines 206-209), on the matched text [match.group(0)]. *)
Definition decimal_repl (m : str) : result str :=
  do text <- re_sub PUNCTUATION (fun _ => Ok []) m;
  let parts := split_ws text in
  match parts with
  | [] => Raise IndexError
  | p0 :: _ => Ok (p0 ++ py_str "." ++ join [] (drop 2 parts))
  end.

(** The right-hand side of line 264. *)
Definition fix_decimals_text (text : str) : result str :=
  do t <- re_sub SPACE_DEDUP (fun _ => Ok (py_str " ")) text;
  re_sub DECIMAL decimal_repl t.

(** ** JSON documents and manifests *)

Inductive jvalue : Type :=
| JStr (s : str)
| JOther (raw : str).          (* a number, list, ... kept as its text *)

(** A [dict] as [json.loads] builds it: keys in insertion order, no key
    twice. *)
Abbreviation dict := (list (str * jvalue)).

Inductive jdoc : Type :=
| JObject (d : dict)
| JNonObject (raw : str).

Definition str_eqb (a b : str) : bool := bool_decide (a = b).

(** [d[k]] *)
Fixpoint dict_get (k : str) (d : dict) : option jvalue :=
  match d with
  | [] => None
  | (k', v) :: d' => if str_eqb k' k then Some v else dict_get k d'
  end.

(** [d[k] = v]: an existing key keeps its place, a new key goes last. *)
Fixpoint dict_set (k : str) (v : jvalue) (d : dict) : dict :=
  match d with
  | [] => [(k, v)]
  | (k', v') :: d' =>
      if str_eqb k' k then (k', v) :: d' else (k', v') :: dict_set k v d'
  end.

Definition dict_keys (d : dict) : list str := map fst d.

(** [k in d] *)
Definition dict_mem (k : str) (d : dict) : bool :=
  match dict_get k d with Some _ => true | None => false end.

Definition getitem (k : str) (d : dict) : result jvalue :=
  match dict_get k d with
  | Some v => Ok v
  | None => Raise (KeyError k)
  end.

(** Subscripting a parsed line: anything but an object raises [TypeError]. *)
Definition as_object (j : jdoc) : result dict :=
  match j with
  | JObject d => Ok d
  | JNonObject _ => Raise TypeError
  end.

(** ** Python's [for i, x in enumerate(l)] over a list the body may change

    The list iterator keeps an index and stops when the index reaches the
    current length, so elements appended by the body are visited too. *)
Fixpoint for_enumerate {A} (body : nat -> A -> list A -> result (list A))
    (fuel : nat) (i : nat) (l : list A) : option (result (list A)) :=
  match fuel with
  | O => None
  | S fuel' =>
      match l !! i with
      | None => Some (Ok l)
      | Some x =>
          match body i x l with
          | Raise e => Some (Raise e)
          | Ok l' => for_enumerate body fuel' (S i) l'
          end
      end
  end.

(** ** punctuate_capitalize_infer.py: [main] (lines 212-275) *)

Module Infer.

(** The fields of [args] that [main] reads after the model is loaded. *)
Record Namespace : Type := {
  input_manifest : option str;
  input_text : option str;
  output_manifest : option str;
  output_text : option str;
  max_seq_length : Z;
  step : Z;
  margin : Z;
  batch_size : Z;
  save_labels_instead_of_text : bool;
  not_add_cls_and_sep_tokens : bool;
  make_queries_contain_intact_sentences : bool;
  no_all_upper_label : bool;
  fix_decimals : bool;
  pickled_features : option str
}.

(** Keyword arguments of [model.add_punctuation_capitalization]
    ([dataloader_kwargs] is a constant). *)
Record apc_kwargs : Type := {
  kw_batch_size : Z;
  kw_max_seq_length : Z;
  kw_step : Z;
  kw_margin : Z;
  kw_return_labels : bool;
  kw_add_cls_and_sep_tokens : bool;
  kw_pickled_features : option str
}.

Definition kwargs_of (args : Namespace) : apc_kwargs :=
  {| kw_batch_size := batch_size args;
     kw_max_seq_length := max_seq_length args;
     kw_step := step args;
     kw_margin := margin args;
     kw_return_labels := save_labels_instead_of_text args;
     kw_add_cls_and_sep_tokens := negb (not_add_cls_and_sep_tokens args);
     kw_pickled_features := pickled_features args |}.

(** What [main] does to the outside world, in order. *)
Inductive event : Type :=
| EvModelCall (texts : list jvalue) (kw : apc_kwargs)
| EvMkdirParent (path : str)
| EvOpenWrite (path : str)
| EvWrite (path : str) (data : str).

Definition is_output_event (e : event) : bool :=
  match e with
  | EvModelCall _ _ => false
  | _ => true
  end.

(** The body of the loop of lines 248-261 on one [text]: [None] is the
    [if not text] branch, [Some t] the value stored on line 261. *)
Definition intact_sentence (args : Namespace) (text : str) : option str :=
  let text := LEFT_PUNCTUATION_STRIP_sub (strip text) in
  match text with
  | [] => None
  | c :: rest =>
      let text :=
        if is_ascii_lower c      (* text[0] is in [a-zA-Z] here *)
        then if save_labels_instead_of_text args
             then if eqc c "O"
                  then (if no_all_upper_label args then "U"%char else "u"%char) :: rest
                  else text
             else upper_char c :: rest
        else text in
      let text :=
        match last_char text with
        | Some l =>
            if eqc l "." || eqc l "?" || eqc l "!" then text
            else RIGHT_PUNCTUATION_STRIP_sub text ++ py_str "."
        | None => text
        end in
      Some text
  end.

Definition intact_body (args : Namespace) (i : nat) (text : str)
    (processed_texts : list str) : result (list str) :=
  match intact_sentence args text with
  | None => Ok (processed_texts ++ [[]])            (* line 251 *)
  | Some t => Ok (<[i := t]> processed_texts)        (* line 261 *)
  end.

Definition decimals_body (i : nat) (text : str)
    (processed_texts : list str) : result (list str) :=
  do t <- fix_decimals_text text;
  Ok (<[i := t]> processed_texts).                   (* line 264 *)

(** Lines 247-264. *)
Definition postprocess (args : Namespace) (fuel : nat)
    (processed_texts : list str) : option (result (list str)) :=
  let after_intact :=
    if make_queries_contain_intact_sentences args
    then for_enumerate (intact_body args) fuel 0 processed_texts
    else Some (Ok processed_texts) in
  match after_intact with
  | None => None
  | Some (Raise e) => Some (Raise e)
  | Some (Ok processed_texts) =>
      if fix_decimals args && negb (save_labels_instead_of_text args)
      then for_enumerate decimals_body fuel 0 processed_texts
      else Some (Ok processed_texts)
  end.

Section Main.

(** The collaborators [main] is handed: the loaded model, the JSON
    codec, and the files it can read (a file is the list of its lines,
    each with its line end). *)
Variable add_punctuation_capitalization :
  list jvalue -> apc_kwargs -> result (list str).
Variable json_loads : str -> result jdoc.
Variable json_dumps : dict -> str.
Variable files : gmap str (list str).

Definition open_read (path : str) : result (list str) :=
  match files !! path with
  | Some lines => Ok lines
  | None => Raise (FileNotFoundError path)
  end.

(** [load_manifest] (lines 197-203) *)
Definition load_manifest (manifest : str) : result (list jdoc) :=
  do lines <- open_read manifest;
  rmap_list json_loads lines.

(** One round of the loop of lines 234-235: [item[text_key]].  Only an
    object can be subscripted by a string; the item is returned with the
    text, as an object, for the output step. *)
Definition read_item (text_key : str) (item : jdoc) : result (dict * jvalue) :=
  do item <- as_object item;
  do text <- getitem text_key item;
  Ok (item, text).

(** Lines 225-235: the texts, and in manifest mode the manifest with
    its [text_key].  The loop of lines 234-235 goes item by item, so it
    stops at the first item that cannot be subscripted or lacks the key.
    When [manifest[0]] is not an object, either the test of line 232
    raises [TypeError] (a number, [null], a boolean) or it answers (a
    string, an array) and the first round of the loop raises [TypeError]
    on that same item. *)
Definition read_texts (args : Namespace)
  : result (list jvalue * option (list dict * str)) :=
  match input_manifest args with
  | None =>
      match input_text args with
      | None => Raise AttributeError
      | Some path =>
          do lines <- open_read path;
          Ok (map (fun line => JStr (strip line)) lines, None)
      end
  | Some path =>
      do manifest <- load_manifest path;
      match manifest with
      | [] => Raise IndexError                     (* manifest[0] *)
      | first :: _ =>
          do first <- as_object first;
          let text_key :=
            if dict_mem (py_str "pred_text") first
            then py_str "pred_text" else py_str "text" in
          do read <- rmap_list (read_item text_key) manifest;
          Ok (map snd read, Some (map fst read, text_key))
      end
  end.

(** [zip(manifest, processed_texts)] with the body of lines 274-275. *)
Fixpoint manifest_lines (path text_key : str) (manifest : list dict)
    (processed_texts : list str) : list event :=
  match manifest, processed_texts with
  | item :: manifest', t :: processed' =>
      EvWrite path (json_dumps (dict_set text_key (JStr t) item) ++ py_str "
")
      :: manifest_lines path text_key manifest' processed'
  | _, _ => []
  end.

(** Lines 265-275. *)
Definition write_output (args : Namespace)
    (manifest : option (list dict * str)) (processed_texts : list str)
  : list event * result unit :=
  match output_manifest args with
  | None =>
      match output_text args with
      | None => ([], Raise AttributeError)
      | Some path =>
          (EvMkdirParent path :: EvOpenWrite path
             :: map (fun t => EvWrite path (t ++ py_str "
")) processed_texts,
           Ok tt)
      end
  | Some path =>
      match manifest with
      | None => ([EvMkdirParent path; EvOpenWrite path], Raise UnboundLocalError)
      | Some (items, text_key) =>
          (EvMkdirParent path :: EvOpenWrite path
             :: manifest_lines path text_key items processed_texts,
           Ok tt)
      end
  end.

(** [main] after [get_args] and model loading: the events in order and
    how the run ended; [None] when the fuel runs out inside a loop. *)
Definition main (args : Namespace) (fuel : nat)
  : option (list event * result unit) :=
  match read_texts args with
  | Raise e => Some ([], Raise e)
  | Ok (texts, manifest) =>
      let call := EvModelCall texts (kwargs_of args) in
      match add_punctuation_capitalization texts (kwargs_of args) with
      | Raise e => Some ([call], Raise e)
      | Ok processed_texts =>
          match postprocess args fuel processed_texts with
          | None => None
          | Some (Raise e) => Some ([call], Raise e)
          | Some (Ok processed_texts) =>
              let (out, r) := write_output args manifest processed_texts in
              Some (call :: out, r)
          end
      end
  end.

End Main.

End Infer.

(** ** char2pinyin.py (lines 17-32) *)

Module Char2Pinyin.

Section Script.

(** [pypinyin.pinyin(x, style=NORMAL, neutral_tone_with_five=True)]:
    for each character or phrase the list of candidate readings. *)
Variable pinyin : jvalue -> result (list (list str)).
Variable json_loads : str -> result jdoc.
Variable json_dumps : dict -> str.

(** [p[0]] *)
Definition first_reading (p : list str) : result str :=
  match p with
  | [] => Raise IndexError
  | x :: _ => Ok x
  end.

(** Lines 24-30 on the parsed line: the object handed to
    [json.dumps]. *)
Definition convert_object (line : dict) : result dict :=
  do v <- getitem (py_str "audio_filepath") line;
  do path <- match v with
             | JStr s => Ok (str_replace (py_str "/NeMo") [] s)
             | JOther _ => Raise AttributeError
             end;
  let line := dict_set (py_str "audio_filepath") (JStr path) line in
  do text <- getitem (py_str "text") line;
  do pred <- pinyin text;
  do pred <- rmap_list first_reading pred;
  let pred := join (py_str " ") pred in
  Ok (dict_set (py_str "text") (JStr pred) line).

(** One iteration of the loop: the text written, if any. *)
Definition convert_line (line : str) : result (option str) :=
  match line with
  | [] => Ok None
  | _ =>
      do j <- json_loads line;
      do d <- as_object j;
      do d' <- convert_object d;
      Ok (Some (json_dumps d' ++ py_str "
"))
  end.

(** The whole loop: what was written before the script ended, and how
    it ended. *)
Fixpoint convert_lines (lines : list str) : list str * result unit :=
  match lines with
  | [] => ([], Ok tt)
  | line :: rest =>
      match convert_line line with
      | Raise e => ([], Raise e)
      | Ok w =>
          let (out, r) := convert_lines rest in
          (match w with Some t => t :: out | None => out end, r)
      end
  end.

End Script.

End Char2Pinyin.

(** ** The sliding-window core behind [add_punctuation_capitalization]

    The model class lives in [nemo.collections.nlp.models]; the script
    only calls it.  This module follows the design document of the core:
    Segmenter, Margin Mask, Aggregator, Batch Driver and the [restore]
    entry point. *)

Module Core.

Open Scope Z_scope.

(** Modelled from the spec: a Segment of the data model, a window of a
    Query given by where it starts, how many tokens it has, and whether
    it is the first or the last window of its Query. *)
Record Segment : Type := {
  start_offset : Z;
  seg_length : Z;
  is_first : bool;
  is_last : bool
}.

(** Modelled from the spec: the Segmenter's configuration check (its
    code is not part of the scripts above).  "fails with
    ConfigurationError when max_length < 1 or step > max_length or
    step < 1". *)
Definition segmenter_config_invalid (max_length step : Z) : bool :=
  (max_length <? 1) || (step >? max_length) || (step <? 1).

(** Modelled from the spec: the start offsets [0, step, 2*step, ...] of
    the windows [[offset, offset + max_length)] that fit in a Query of
    [n] tokens. *)
Fixpoint strided_starts (fuel : nat) (n max_length step offset : Z) : list Z :=
  match fuel with
  | O => []
  | S fuel' =>
      if offset + max_length <=? n
      then offset :: strided_starts fuel' n max_length step (offset + step)
      else []
  end.

(** Modelled from the spec: all start offsets.  A Query no longer than
    [max_length] (the empty Query too) is one window clipped to the
    Query; otherwise the strided windows, and when the last of them
    stops short of the Query's end, a final window right-aligned to the
    end. *)
Definition segment_starts (n max_length step : Z) : list Z :=
  if n <=? max_length then [0]
  else
    let starts := strided_starts (Z.to_nat n) n max_length step 0 in
    if List.last starts 0 + max_length <? n
    then starts ++ [n - max_length]
    else starts.

(** Modelled from the spec: segments in Query order, the first flagged
    [is_first], the last flagged [is_last], each spanning
    [[offset, offset + max_length)] clipped to the Query length. *)
Fixpoint flag_segments (n max_length : Z) (first : bool) (starts : list Z)
  : list Segment :=
  match starts with
  | [] => []
  | o :: rest =>
      {| start_offset := o;
         seg_length := Z.min max_length (n - o);
         is_first := first;
         is_last := match rest with [] => true | _ => false end |}
      :: flag_segments n max_length false rest
  end.

(** Modelled from the spec: the Segmenter,
    [segment(query, max_length, step) -> ordered sequence of Segment]. *)
Definition segment {Token} (query : list Token) (max_length step : Z)
  : result (list Segment) :=
  if segmenter_config_invalid max_length step then Raise ConfigurationError
  else
    let n := Z.of_nat (length query) in
    Ok (flag_segments n max_length true (segment_starts n max_length step)).

(** Modelled from the spec: the Margin Mask,
    [mask(segment, margin) -> (left_margin, right_margin)]: no left
    margin on the first segment, no right margin on the last, otherwise
    the configured margin, clipped so that the two together stay below
    the segment length. *)
Definition mask (s : Segment) (margin : Z) : Z * Z :=
  let left := if is_first s then 0 else margin in
  let right := if is_last s then 0 else margin in
  let left := Z.max 0 (Z.min left (seg_length s - 1)) in
  let right := Z.max 0 (Z.min right (seg_length s - 1 - left)) in
  (left, right).

(** Modelled from the spec: token index [i] lies in the segment at a
    local position [p] that its margins [m] do not mask, neither
    [p < left_margin] nor [p >= length - right_margin]. *)
Definition contributes (s : Segment) (m : Z * Z) (i : Z) : bool :=
  let p := i - start_offset s in
  (fst m <=? p) && (p <? seg_length s - snd m).

(** Modelled from the spec: the configuration check of the whole
    pipeline, the Segmenter's conditions and
    [step <= max_length - left_margin - right_margin]. *)
Definition config_invalid (max_length step margin : Z) : bool :=
  segmenter_config_invalid max_length step
  || (step >? max_length - margin - margin).

Section Pipeline.

Variables Token PV Label : Type.
(** Elementwise product, re-normalisation and arg-max of probability
    vectors. *)
Variable pv_mul : PV -> PV -> PV.
Variable normalize : PV -> PV.
Variable argmax : PV -> Label.
(** The external boundaries. *)
Variable tokenize : str -> result (list Token).
Variable detokenize : list Token -> list Label -> str.
Variable predict : list (list Token) -> result (list (list PV)).

(** Modelled from the spec: the vectors contributed to token index
    [i], one from every segment that covers [i] unmasked. *)
Fixpoint contributions (i : Z) (outputs : list (Segment * list PV))
    (margins : list (Z * Z)) : list PV :=
  match outputs, margins with
  | (s, out) :: outputs', m :: margins' =>
      let rest := contributions i outputs' margins' in
      if contributes s m i
      then match out !! Z.to_nat (i - start_offset s) with
           | Some v => v :: rest
           | None => rest
           end
      else rest
  | _, _ => []
  end.

(** Modelled from the spec: the label of one token index;
    [CoverageError] when nothing contributes. *)
Definition aggregate_index (outputs : list (Segment * list PV))
    (margins : list (Z * Z)) (i : Z) : result Label :=
  match contributions i outputs margins with
  | [] => Raise CoverageError
  | v :: vs => Ok (argmax (normalize (fold_left pv_mul vs v)))
  end.

(** Modelled from the spec: the Aggregator,
    [aggregate(query_length, segments_with_outputs, margins)]. *)
Definition aggregate (query_length : nat)
    (outputs : list (Segment * list PV)) (margins : list (Z * Z))
  : result (list Label) :=
  rmap_list (aggregate_index outputs margins)
    (map Z.of_nat (seq 0 query_length)).

(** Modelled from the spec: batches "of at most batch_size", in order.
    [room] is what is left in the batch [cur] being filled. *)
Fixpoint chunks_go {A} (size room : nat) (cur : list A) (l : list A)
  : list (list A) :=
  match l with
  | [] => match cur with [] => [] | _ => [rev cur] end
  | x :: l' =>
      match room with
      | S r => chunks_go size r (x :: cur) l'
      | O => rev cur :: chunks_go size (size - 1) [x] l'
      end
  end.

(** Modelled from the spec: the batches of the Batch Driver; the spec
    gives them a meaning for a [batch_size] of one or more. *)
Definition chunks {A} (size : positive) (l : list A) : list (list A) :=
  chunks_go (Pos.to_nat size) (Pos.to_nat size) [] l.

(** Modelled from the spec: one model call per batch, outputs in segment
    order, a failure of the call surfaced as it is; the first component
    lists the calls made. *)
Fixpoint run_batches (batches : list (list (list Token)))
  : list (list (list Token)) * result (list (list PV)) :=
  match batches with
  | [] => ([], Ok [])
  | b :: bs =>
      match predict b with
      | Raise e => ([b], Raise e)
      | Ok outs =>
          let (calls, r) := run_batches bs in
          (b :: calls, do rest <- r; Ok (outs ++ rest))
      end
  end.

(** Modelled from the spec: the Batch Driver,
    [run(all_segments, batch_size, model)]. *)
Definition run (all_segments : list (list Token)) (batch_size : positive)
  : list (list (list Token)) * result (list (list PV)) :=
  run_batches (chunks batch_size all_segments).

(** Modelled from the spec: the tokens of one segment, a contiguous
    sub-sequence of the Query. *)
Definition window (query : list Token) (s : Segment) : list Token :=
  take (Z.to_nat (seg_length s)) (drop (Z.to_nat (start_offset s)) query).

(** Modelled from the spec: routing the outputs back, [counts] segments
    for each Query in turn. *)
Fixpoint split_by {A} (counts : list nat) (l : list A) : list (list A) :=
  match counts with
  | [] => []
  | c :: counts' => take c l :: split_by counts' (drop c l)
  end.

(** Modelled from the spec: aggregation and detokenisation of one Query
    with its segments and their outputs. *)
Definition restore_query (margin : Z)
    (q : list Token * list Segment * list (list PV)) : result str :=
  let '(query, segs, outs) := q in
  do labels <- aggregate (length query) (zip segs outs)
                 (map (fun s => mask s margin) segs);
  Ok (detokenize query labels).

(** Modelled from the spec: the exposed entry point
    [restore(texts, max_length, step, margin, batch_size)], with the
    list of model calls it made. *)
Definition restore (texts : list str) (max_length step margin : Z)
    (batch_size : positive)
  : list (list (list Token)) * result (list str) :=
  if config_invalid max_length step margin
  then ([], Raise ConfigurationError)
  else
    match rmap_list tokenize texts with
    | Raise e => ([], Raise e)
    | Ok queries =>
        match rmap_list (fun q => segment q max_length step) queries with
        | Raise e => ([], Raise e)
        | Ok segss =>
            let qs := zip queries segss in
            let all_segments :=
              concat (map (fun '(q, segs) => map (window q) segs) qs) in
            let (calls, r) := run all_segments batch_size in
            (calls,
             do outs <- r;
             rmap_list (restore_query margin)
               (zip qs (split_by (map (@length Segment) segss) outs)))
        end
    end.

End Pipeline.

End Core.

(** ** punctuate_capitalize_infer.py: [get_args] (lines 54-194) and model
    loading (lines 214-224) *)

Module InferArgs.

(** What the command line holds when [parser.parse_args()] reads it: the
    options [main] reads later (an absent option is [None], an absent
    flag [false], an absent number its default) and the three options
    that choose the model and its device. *)
Record CommandLine : Type := {
  options : Infer.Namespace;
  pretrained_name : option str;
  model_path : option str;
  device : option str
}.

(** A required mutually exclusive group: exactly one of the two. *)
Definition exactly_one {A B} (a : option A) (b : option B) : bool :=
  match a, b with
  | Some _, None | None, Some _ => true
  | _, _ => false
  end.

(** A mutually exclusive group that is not required. *)
Definition not_both {A B} (a : option A) (b : option B) : bool :=
  match a, b with
  | Some _, Some _ => false
  | _, _ => true
  end.

(** An option with [choices]. *)
Definition chosen_from (choices : list str) (v : option str) : bool :=
  match v with
  | None => true
  | Some x => existsb (str_eqb x) choices
  end.

(** [args.<name>.expanduser()] where the option is set (lines 191-193). *)
Definition expand (expanduser : str -> str) (path : option str) : option str :=
  match path with
  | Some p => Some (expanduser p)
  | None => None
  end.

Section GetArgs.

(** The names of [PunctuationCapitalizationModel.list_available_models()]
    and [Path.expanduser]. *)
Variable available_models : list str.
Variable expanduser : str -> str.

(** The checks [parse_args] makes for the groups and choices the parser
    declares (lines 68, 85, 102, 109 and 166); it exits when one fails. *)
Definition parse_args_accepts (c : CommandLine) : bool :=
  exactly_one (Infer.input_manifest (options c)) (Infer.input_text (options c))
  && exactly_one (Infer.output_manifest (options c)) (Infer.output_text (options c))
  && not_both (pretrained_name c) (model_path c)
  && chosen_from available_models (pretrained_name c)
  && chosen_from [py_str "cpu"; py_str "cuda"] (device c).

(** [get_args]: [None] when the parser exits with an error, otherwise the
    namespace returned on line 194. *)
Definition get_args (c : CommandLine) : option CommandLine :=
  if negb (parse_args_accepts c) then None
  else
    match Infer.input_manifest (options c), Infer.output_manifest (options c) with
    | None, Some _ => None                                     (* line 188 *)
    | _, _ =>
        let o := options c in
        Some
          {| options :=
               {| Infer.input_manifest := expand expanduser (Infer.input_manifest o);
                  Infer.input_text := expand expanduser (Infer.input_text o);
                  Infer.output_manifest := expand expanduser (Infer.output_manifest o);
                  Infer.output_text := expand expanduser (Infer.output_text o);
                  Infer.max_seq_length := Infer.max_seq_length o;
                  Infer.step := Infer.step o;
                  Infer.margin := Infer.margin o;
                  Infer.batch_size := Infer.batch_size o;
                  Infer.save_labels_instead_of_text :=
                    Infer.save_labels_instead_of_text o;
                  Infer.not_add_cls_and_sep_tokens :=
                    Infer.not_add_cls_and_sep_tokens o;
                  Infer.make_queries_contain_intact_sentences :=
                    Infer.make_queries_contain_intact_sentences o;
                  Infer.no_all_upper_label := Infer.no_all_upper_label o;
                  Infer.fix_decimals := Infer.fix_decimals o;
                  Infer.pickled_features :=
                    expand expanduser (Infer.pickled_features o) |};
             pretrained_name :=
               match pretrained_name c, model_path c with
               | None, None => Some (py_str "punctuation_en_bert")   (* line 190 *)
               | n, _ => n
               end;
             model_path := expand expanduser (model_path c);
             device := device c |}
    end.

End GetArgs.

(** Lines 214-217: which constructor loads the model, and with what. *)
Inductive load_call : Type :=
| RestoreFrom (model_path : option str)
| FromPretrained (name : str).

Definition load_model (args : CommandLine) : load_call :=
  match pretrained_name args with
  | None => RestoreFrom (model_path args)
  | Some name => FromPretrained name
  end.

(** Lines 218-224: where the model is put. *)
Inductive placement : Type :=
| Cuda
| Cpu
| To (device : str).

Definition place_model (cuda_is_available : bool) (args : CommandLine) : placement :=
  match device args with
  | None => if cuda_is_available then Cuda else Cpu
  | Some d => To d
  end.

End InferArgs.

(** [args] with another value of [--no_all_upper_label]. *)
Definition with_no_all_upper_label (b : bool) (args : Infer.Namespace)
  : Infer.Namespace :=
  {| Infer.input_manifest := Infer.input_manifest args;
     Infer.input_text := Infer.input_text args;
     Infer.output_manifest := Infer.output_manifest args;
     Infer.output_text := Infer.output_text args;
     Infer.max_seq_length := Infer.max_seq_length args;
     Infer.step := Infer.step args;
     Infer.margin := Infer.margin args;
     Infer.batch_size := Infer.batch_size args;
     Infer.save_labels_instead_of_text := Infer.save_labels_instead_of_text args;
     Infer.not_add_cls_and_sep_tokens := Infer.not_add_cls_and_sep_tokens args;
     Infer.make_queries_contain_intact_sentences :=
       Infer.make_queries_contain_intact_sentences args;
     Infer.no_all_upper_label := b;
     Infer.fix_decimals := Infer.fix_decimals args;
     Infer.pickled_features := Infer.pickled_features args |}.

(** Two namespaces with the same configuration: what is handed to the
    model (sequence length, step, margin, batch size, labels or text,
    and so on), the two post-processing switches and the place of the
    output.  The place of the input and [--no_all_upper_label] are left
    free. *)
Definition same_configuration (args1 args2 : Infer.Namespace) : Prop :=
  Infer.kwargs_of args1 = Infer.kwargs_of args2
  /\ Infer.make_queries_contain_intact_sentences args1
     = Infer.make_queries_contain_intact_sentences args2
  /\ Infer.fix_decimals args1 = Infer.fix_decimals args2
  /\ Infer.output_manifest args1 = Infer.output_manifest args2
  /\ Infer.output_text args1 = Infer.output_text args2.

(** The characters ['.?!'] of line 259. *)
Definition is_sentence_end (c : ascii) : bool := eqc c "." || eqc c "?" || eqc c "!".

Definition is_blank (c : ascii) : bool := eqc c " ".

(** No two blanks next to each other. *)
Fixpoint no_double_blank (s : str) : bool :=
  match s with
  | [] => true
  | c :: s' =>
      match s' with
      | d :: _ => negb (is_blank c && is_blank d) && no_double_blank s'
      | [] => true
      end
  end.

(** What one text becomes in the two loops of lines 247-264, when the
    first loop does not take its [if not text] branch. *)
Definition postprocessed (args : Infer.Namespace) (text out : str) : Prop :=
  exists t,
    (if Infer.make_queries_contain_intact_sentences args
     then Infer.intact_sentence args text = Some t
     else t = text)
    /\ (if Infer.fix_decimals args && negb (Infer.save_labels_instead_of_text args)
        then fix_decimals_text t = Ok out
        else out = t).

(** ** eval_pypinyin.py: the counters (lines 16-21 and 35-46) and the
    report (lines 48-56) *)

Module EvalStats.

Record stats : Type := {
  total_word : nat;
  correct : nat;
  error : nat;
  error_words : dict;          (* word -> message, a [str] kept as [JStr] *)
  all_words : gset str
}.

Definition initial : stats :=
  {| total_word := 0; correct := 0; error := 0; error_words := []; all_words := ∅ |}.

(** How the script ends. *)
Inductive script_end : Type :=
| Completed
| RaisedValueError            (* line 29, unpacking [l] *)
| RaisedZeroDivisionError.    (* line 56, [len(all_words)] is 0 *)

(** What the script writes and prints; a quotient that Python prints as a
    float is kept as numerator and denominator. *)
Inductive output : Type :=
| LogLine (text : str)                              (* line 50 *)
| PrintCounts (total_word correct error : nat)      (* line 52 *)
| PrintRates (correct error total_word : nat)       (* line 54 *)
| PrintDistinct (words error_words : nat).          (* line 56 *)

Section Script.

(** [pypinyin.pinyin(c, style=TONE3, neutral_tone_with_five=True)] *)
Variable pinyin : str -> list (list str).

(** Lines 35-37 for one element [c] of [character]. *)
Definition pred_of (c : str) : str :=
  join (py_str " ") (map (join (py_str " ")) (pinyin c)).

(** The message stored on line 46. *)
Definition error_message (p l : str) : str :=
  py_str "conversion=" ++ p ++ py_str ", label=" ++ l.

(** Lines 40-46 for one triple of the [zip]. *)
Definition count_word (st : stats) (c l : str) : stats :=
  let p := pred_of c in
  if str_eqb p l
  then {| total_word := S (total_word st);
          correct := S (correct st);
          error := error st;
          error_words := error_words st;
          all_words := {[ c ]} ∪ all_words st |}
  else {| total_word := S (total_word st);
          correct := correct st;
          error := S (error st);
          error_words := dict_set c (JStr (error_message p l)) (error_words st);
          all_words := {[ c ]} ∪ all_words st |}.

(** The loop of line 39: [pred] has one element per element of
    [character], so the [zip] stops with the shorter of [character] and
    [label]. *)
Fixpoint count_words (st : stats) (character label : list str) : stats :=
  match character, label with
  | c :: character', l :: label' => count_words (count_word st c l) character' label'
  | _, _ => st
  end.

(** One round of the loop of line 23. *)
Definition count_line (st : stats) (line : str) : result stats :=
  match EvalPypinyin.parse_line line with
  | EvalPypinyin.Skipped => Ok st
  | EvalPypinyin.Fields _ label character => Ok (count_words st character label)
  | EvalPypinyin.Failed e => Raise e
  end.

Fixpoint count_lines (st : stats) (lines : list str) : result stats :=
  match lines with
  | [] => Ok st
  | line :: rest => do st' <- count_line st line; count_lines st' rest
  end.

(** Lines 48-50: one line of the log per key of [error_words]. *)
Definition log_lines (error_words : dict) : list output :=
  map (fun kv =>
         LogLine (fst kv ++ py_str ": "
                    ++ match snd kv with JStr m => m | JOther m => m end
                    ++ py_str "
"))
      error_words.

(** Lines 48-56. *)
Definition report (st : stats) : list output * script_end :=
  let printed :=
    log_lines (error_words st)
    ++ [PrintCounts (total_word st) (correct st) (error st)]
    ++ (if Nat.eqb (total_word st) 0 then []
        else [PrintRates (correct st) (error st) (total_word st)]) in
  if Nat.eqb (size (all_words st)) 0
  then (printed, RaisedZeroDivisionError)
  else (printed ++ [PrintDistinct (size (all_words st)) (length (error_words st))],
        Completed).

(** The whole script on the lines of the label file. *)
Definition script (lines : list str) : list output * script_end :=
  match count_lines initial lines with
  | Raise _ => ([], RaisedValueError)
  | Ok st => report st
  end.

End Script.

End EvalStats.

(** How often a character occurs in a text. *)
Definition count_char (c : ascii) (s : str) : nat :=
  length (List.filter (fun x => eqc x c) s).

(** What the counters of eval_pypinyin.py satisfy between two lines. *)
Definition stats_ok (st : EvalStats.stats) : Prop :=
  EvalStats.total_word st = EvalStats.correct st + EvalStats.error st
  /\ length (EvalStats.error_words st) <= EvalStats.error st
  /\ size (EvalStats.all_words st) <= EvalStats.total_word st
  /\ NoDup (dict_keys (EvalStats.error_words st))
  /\ (forall w, In w (dict_keys (EvalStats.error_words st)) ->
                w ∈ EvalStats.all_words st).

(** A line of the label file that is not skipped and does not hold two
    '|' once stripped and cut by [line[:-1]]. *)
Definition bad_label_line (line : str) : Prop :=
  EvalPypinyin.skipped line = false
  /\ count_char "|" (but_last (strip line)) <> 2.

(** What char2pinyin.py writes for one line that does not fail. *)
Definition written_for (pinyin : jvalue -> result (list (list str)))
    (json_loads : str -> result jdoc) (json_dumps : dict -> str)
    (line : str) : list str :=
  match Char2Pinyin.convert_line pinyin json_loads json_dumps line with
  | Ok (Some t) => [t]
  | _ => []
  end.

(** The text of a [DECIMAL] match, part by part: the integer digits
    [ds], the optional punctuation [p], a blank and the word [w], and for
    each group its optional punctuation, a blank and a digit. *)
Definition decimal_shape (ds p w : str) (gs : list (str * ascii)) : str :=
  ds ++ p ++ " "%char :: w
     ++ concat (map (fun g => fst g ++ [" "%char; snd g]) gs).

(** ** Sample inputs *)

(** A line of the label file of eval_pypinyin.py. *)
Definition sample_label_line : str := py_str "f.wav|ni3 hao3|ab
".

(** A stand-in for the model: it ends every text with a full stop. *)
Definition dot_model (texts : list jvalue) (kw : Infer.apc_kwargs)
  : result (list str) :=
  Ok (map (fun v => match v with
                    | JStr s => s ++ py_str "."
                    | JOther raw => raw
                    end) texts).

Definition no_json_loads (line : str) : result jdoc := Raise ValueError.
Definition no_json_dumps (d : dict) : str := [].

(** [--input_text in.txt --output_text out.txt
     --make_queries_contain_intact_sentences --fix_decimals], every other
    option at its default. *)
Definition sample_args : Infer.Namespace :=
  {| Infer.input_manifest := None;
     Infer.input_text := Some (py_str "in.txt");
     Infer.output_manifest := None;
     Infer.output_text := Some (py_str "out.txt");
     Infer.max_seq_length := 64;
     Infer.step := 8;
     Infer.margin := 16;
     Infer.batch_size := 128;
     Infer.save_labels_instead_of_text := false;
     Infer.not_add_cls_and_sep_tokens := false;
     Infer.make_queries_contain_intact_sentences := true;
     Infer.no_all_upper_label := false;
     Infer.fix_decimals := true;
     Infer.pickled_features := None |}.

(** An input file whose only line has no letter. *)
Definition year_files : gmap str (list str) :=
  {[ py_str "in.txt" := [py_str "2021
"] ]}.

Definition pi_files : gmap str (list str) :=
  {[ py_str "in.txt" := [py_str "pi is 3 point 1 4
"] ]}.

(** Stand-ins for char2pinyin.py's collaborators: every character reads
    as itself, every line parses to the same object, and an object is
    printed as its keys. *)
Definition sample_pinyin (v : jvalue) : result (list (list str)) :=
  match v with
  | JStr s => Ok (map (fun c => [[c]]) s)
  | JOther _ => Raise TypeError
  end.

Definition sample_manifest_item : dict :=
  [(py_str "audio_filepath", JStr (py_str "/home/NeMo/data/a.wav"));
   (py_str "duration", JOther (py_str "1.5"));
   (py_str "text", JStr (py_str "ab"))].

Definition sample_json_loads (line : str) : result jdoc :=
  Ok (JObject sample_manifest_item).

Definition sample_json_dumps (d : dict) : str := join (py_str ",") (dict_keys d).

(** What [main] does on [pi_files] with [sample_args] and [dot_model]. *)
Definition pi_run : list Infer.event * result unit :=
  ([Infer.EvModelCall [JStr (py_str "pi is 3 point 1 4")]
      (Infer.kwargs_of sample_args);
    Infer.EvMkdirParent (py_str "out.txt");
    Infer.EvOpenWrite (py_str "out.txt");
    Infer.EvWrite (py_str "out.txt") (py_str "Pi is 3.14.
")],
   Ok tt).

(** A second setting for the run on [pi_files]: the same text in a file
    of another name beside an unrelated file, [--no_all_upper_label]
    given, and a model that answers like [dot_model] on one text and
    fails on anything else. *)
Definition moved_pi_files : gmap str (list str) :=
  {[ py_str "copy.txt" := [py_str "pi is 3 point 1 4
"];
     py_str "in.txt" := [py_str "2021
"] ]}.

Definition moved_args : Infer.Namespace :=
  {| Infer.input_manifest := None;
     Infer.input_text := Some (py_str "copy.txt");
     Infer.output_manifest := None;
     Infer.output_text := Some (py_str "out.txt");
     Infer.max_seq_length := 64;
     Infer.step := 8;
     Infer.margin := 16;
     Infer.batch_size := 128;
     Infer.save_labels_instead_of_text := false;
     Infer.not_add_cls_and_sep_tokens := false;
     Infer.make_queries_contain_intact_sentences := true;
     Infer.no_all_upper_label := true;
     Infer.fix_decimals := true;
     Infer.pickled_features := None |}.

Definition one_text_model (texts : list jvalue) (kw : Infer.apc_kwargs)
  : result (list str) :=
  match texts with
  | [_] => dot_model texts kw
  | _ => Raise (ExternalError (py_str "unexpected batch"))
  end.

(** A model whose call fails. *)
Definition failing_model (texts : list jvalue) (kw : Infer.apc_kwargs)
  : result (list str) :=
  Raise (ExternalError (py_str "CUDA out of memory")).

(** A Query of twelve tokens. *)
Definition sample_query : list nat := seq 0 12.

(** Stand-ins for the core's boundaries: tokens are the blank-separated
    words, the model answers every token with the same vector, and the
    text is rebuilt from the tokens alone. *)
Definition sample_tokenize (text : str) : result (list str) := Ok (split_ws text).

Definition sample_detokenize (query : list str) (labels : list nat) : str :=
  join (py_str " ") query.

Definition sample_predict (batch : list (list str)) : result (list (list nat)) :=
  Ok (map (map (fun _ => 1%nat)) batch).

(** A model that checks its configuration before anything else. *)
Definition strict_model (texts : list jvalue) (kw : Infer.apc_kwargs)
  : result (list str) :=
  if Core.config_invalid (Infer.kw_max_seq_length kw) (Infer.kw_step kw)
       (Infer.kw_margin kw)
  then Raise ConfigurationError
  else dot_model texts kw.

(** [sample_args] with [--step 80], more than [--max_seq_length]. *)
Definition bad_step_args : Infer.Namespace :=
  {| Infer.input_manifest := None;
     Infer.input_text := Some (py_str "in.txt");
     Infer.output_manifest := None;
     Infer.output_text := Some (py_str "out.txt");
     Infer.max_seq_length := 64;
     Infer.step := 80;
     Infer.margin := 16;
     Infer.batch_size := 128;
     Infer.save_labels_instead_of_text := false;
     Infer.not_add_cls_and_sep_tokens := false;
     Infer.make_queries_contain_intact_sentences := true;
     Infer.no_all_upper_label := false;
     Infer.fix_decimals := true;
     Infer.pickled_features := None |}.

(** A manifest of two lines, the second without 'pred_text', and the
    later stand-in parser for it. *)
Definition manifest_item_1 : dict :=
  [(py_str "audio_filepath", JStr (py_str "a.wav"));
   (py_str "pred_text", JStr (py_str "hello there"));
   (py_str "text", JStr (py_str "hello there"))].

Definition manifest_item_2 : dict :=
  [(py_str "audio_filepath", JStr (py_str "b.wav"));
   (py_str "text", JStr (py_str "good bye"))].

Definition manifest_files : gmap str (list str) :=
  {[ py_str "in.json" := [py_str "1"; py_str "2"] ]}.

Definition manifest_json_loads (line : str) : result jdoc :=
  if str_eqb line (py_str "1") then Ok (JObject manifest_item_1)
  else Ok (JObject manifest_item_2).

Definition text_manifest_json_loads (line : str) : result jdoc :=
  Ok (JObject manifest_item_2).

(** A manifest of three lines whose third line holds a number, and its
    stand-in parser. *)
Definition mixed_manifest_files : gmap str (list str) :=
  {[ py_str "in.json" := [py_str "1"; py_str "2"; py_str "3"] ]}.

Definition mixed_json_loads (line : str) : result jdoc :=
  if str_eqb line (py_str "3") then Ok (JNonObject (py_str "7"))
  else manifest_json_loads line.

(** [--input_manifest in.json --output_manifest out.json]. *)
Definition manifest_args : Infer.Namespace :=
  {| Infer.input_manifest := Some (py_str "in.json");
     Infer.input_text := None;
     Infer.output_manifest := Some (py_str "out.json");
     Infer.output_text := None;
     Infer.max_seq_length := 64;
     Infer.step := 8;
     Infer.margin := 16;
     Infer.batch_size := 128;
     Infer.save_labels_instead_of_text := false;
     Infer.not_add_cls_and_sep_tokens := false;
     Infer.make_queries_contain_intact_sentences := false;
     Infer.no_all_upper_label := false;
     Infer.fix_decimals := false;
     Infer.pickled_features := None |}.

Definition empty_manifest_files : gmap str (list str) :=
  {[ py_str "in.json" := [] ]}.

(** The command line [-m in.json -M out.json] and one that asks for an
    output manifest without an input manifest. *)
Definition manifest_command_line : InferArgs.CommandLine :=
  {| InferArgs.options := manifest_args;
     InferArgs.pretrained_name := None;
     InferArgs.model_path := None;
     InferArgs.device := None |}.

(** What [get_args] returns for [manifest_command_line]. *)
Definition manifest_parsed_args : InferArgs.CommandLine :=
  {| InferArgs.options := manifest_args;
     InferArgs.pretrained_name := Some (py_str "punctuation_en_bert");
     InferArgs.model_path := None;
     InferArgs.device := None |}.

(** A pinyin stand-in for eval_pypinyin.py: every character reads as
    itself. *)
Definition echo_pinyin (c : str) : list (list str) := map (fun x => [[x]]) c.

(** Two lines of a label file: one counted, one a comment. *)
Definition sample_label_lines : list str :=
  [py_str "f.wav|a % b|a % c.
"; py_str "# a comment
"].

(** * Properties *)

(** ** Strings *)

Lemma drop_while_head {A} (p : A -> bool) (l : list A) x l' :
  drop_while p l = x :: l' -> p x = false.
Proof.
  induction l as [|y l IH]; simpl; [discriminate|].
  destruct (p y) eqn:E; [exact IH|].
  intros [= -> _]. exact E.
Qed.

Lemma drop_while_suffix {A} (p : A -> bool) (l : list A) :
  exists pre, l = pre ++ drop_while p l.
Proof.
  induction l as [|y l [pre IH]]; simpl.
  - exists []. reflexivity.
  - destruct (p y).
    + exists (y :: pre). simpl. congruence.
    + exists []. reflexivity.
Qed.

(** A non-empty right-stripped string ends in a character that is not
    whitespace. *)
Lemma rstrip_last (s : str) :
  rstrip s <> [] -> exists body c, rstrip s = body ++ [c] /\ is_space c = false.
Proof.
  unfold rstrip. destruct (drop_while is_space (rev s)) as [|c r] eqn:E.
  - intros H. exfalso. apply H. reflexivity.
  - intros _. exists (rev r), c. split; [reflexivity|].
    eapply drop_while_head; eassumption.
Qed.

Lemma rstrip_prefix (s : str) : exists t, s = rstrip s ++ t.
Proof.
  unfold rstrip. destruct (drop_while_suffix is_space (rev s)) as [pre E].
  exists (rev pre).
  rewrite <- (rev_involutive s) at 1. rewrite E at 1.
  apply rev_app_distr.
Qed.

Lemma strip_head_not_space (s : str) c t :
  strip s = c :: t -> is_space c = false.
Proof.
  unfold strip. intros E.
  destruct (rstrip_prefix (lstrip s)) as [u Hu].
  rewrite E in Hu. simpl in Hu.
  eapply (drop_while_head is_space s). exact Hu.
Qed.

Lemma split_on_nonempty sep s : split_on sep s <> [].
Proof.
  destruct s as [|c s]; simpl; [discriminate|].
  destruct (eqc c sep); [discriminate|].
  destruct (split_on sep s); discriminate.
Qed.

(** Joining the parts of a split with the separator gives the string
    back. *)
Lemma join_split_on sep s : join [sep] (split_on sep s) = s.
Proof.
  induction s as [|c s IH]; simpl; [reflexivity|].
  destruct (eqc c sep) eqn:E.
  - apply Ascii.eqb_eq in E. subst c.
    destruct (split_on sep s) as [|h t] eqn:Es.
    + exfalso. eapply split_on_nonempty; eassumption.
    + simpl. simpl in IH. rewrite IH. reflexivity.
  - destruct (split_on sep s) as [|h t] eqn:Es.
    + exfalso. eapply split_on_nonempty; eassumption.
    + destruct t as [|h' t']; simpl in *; congruence.
Qed.

(** ** eval_pypinyin.py *)

(** [parse_line] returns the raw fields, the last two split into their
    '%'-separated parts. *)
Lemma parse_line_raw_fields (line filename : str) (label character : list str) :
  EvalPypinyin.parse_line line = EvalPypinyin.Fields filename label character ->
  exists l ch,
    EvalPypinyin.raw_fields line = Some (filename, l, ch)
    /\ label = EvalPypinyin.split_label l
    /\ character = EvalPypinyin.split_label ch.
Proof.
  unfold EvalPypinyin.parse_line, EvalPypinyin.raw_fields.
  destruct (EvalPypinyin.skipped line); [discriminate|].
  destruct (EvalPypinyin.split_fields line) as [|f [|l [|ch [|]]]];
    try discriminate.
  intros H. injection H as <- <- <-. exists l, ch. repeat split.
Qed.

(** C9.  A line that is not skipped is split after [strip] has removed
    the line end, so [line[:-1]] drops the last character of the stripped
    line, which is never whitespace: the list [l] is the split of the
    stripped line without its last character, and when three fields are
    unpacked they spell the stripped line up to that lost character. *)
Theorem eval_pypinyin_drops_last_char (line : str) :
  strip line <> [] ->
  head (strip line) <> Some "#"%char ->
  exists body c,
    strip line = body ++ [c]
    /\ is_space c = false
    /\ EvalPypinyin.skipped line = false
    /\ EvalPypinyin.split_fields line = split_on "|" body
    /\ join ["|"%char] (EvalPypinyin.split_fields line) = body
    /\ forall filename label character,
         EvalPypinyin.raw_fields line = Some (filename, label, character) ->
         strip line = filename ++ "|"%char :: label ++ "|"%char :: character ++ [c].
Proof.
  intros Hne Hhash.
  destruct (rstrip_last (lstrip line) Hne) as (body & c & Hs & Hc).
  fold (strip line) in Hs.
  assert (Hskip : EvalPypinyin.skipped line = false).
  { unfold EvalPypinyin.skipped.
    destruct (strip line) as [|c0 t] eqn:E; [congruence|].
    pose proof (strip_head_not_space line c0 t E) as Hc0.
    apply orb_false_iff. split.
    - destruct (eqc c0 "010") eqn:E0; [|reflexivity].
      apply Ascii.eqb_eq in E0. subst c0. discriminate Hc0.
    - destruct (eqc c0 "#") eqn:E0; [|reflexivity].
      apply Ascii.eqb_eq in E0. subst c0. exfalso. apply Hhash. reflexivity. }
  assert (Hf : EvalPypinyin.split_fields line = split_on "|" body).
  { unfold EvalPypinyin.split_fields, but_last.
    rewrite Hs, removelast_last. reflexivity. }
  exists body, c. repeat split; try assumption.
  - rewrite Hf. apply join_split_on.
  - intros f l ch. unfold EvalPypinyin.raw_fields. rewrite Hskip, Hf.
    pose proof (join_split_on "|" body) as Hj.
    destruct (split_on "|" body) as [|f' [|l' [|ch' [|]]]]; try discriminate.
    intros [= -> -> ->]. rewrite Hs, <- Hj. simpl.
    rewrite <- !app_assoc. simpl. rewrite <- !app_assoc. reflexivity.
Qed.

Lemma eval_pypinyin_drops_last_char_witness :
  strip sample_label_line <> []
  /\ head (strip sample_label_line) <> Some "#"%char
  /\ exists body c,
       strip sample_label_line = body ++ [c]
       /\ is_space c = false
       /\ EvalPypinyin.skipped sample_label_line = false
       /\ EvalPypinyin.split_fields sample_label_line = split_on "|" body
       /\ join ["|"%char] (EvalPypinyin.split_fields sample_label_line) = body
       /\ forall filename label character,
            EvalPypinyin.raw_fields sample_label_line
            = Some (filename, label, character) ->
            strip sample_label_line
            = filename ++ "|"%char :: label ++ "|"%char :: character ++ [c].
Proof.
  split; [vm_compute; discriminate|].
  split; [vm_compute; discriminate|].
  apply (eval_pypinyin_drops_last_char sample_label_line); vm_compute; discriminate.
Defined.

(** The final field of the sample line loses its last letter. *)
Example sample_label_line_fields :
  EvalPypinyin.raw_fields sample_label_line
  = Some (py_str "f.wav", py_str "ni3 hao3", py_str "a").
Proof. reflexivity. Qed.

(** ** Dictionaries *)

Lemma dict_get_set_eq k v (d : dict) : dict_get k (dict_set k v d) = Some v.
Proof.
  induction d as [|[k' v'] d IH]; simpl.
  - unfold str_eqb. rewrite bool_decide_eq_true_2; reflexivity.
  - destruct (str_eqb k' k) eqn:E; simpl; rewrite E; [reflexivity | exact IH].
Qed.

Lemma dict_get_set_ne k k' v (d : dict) :
  k <> k' -> dict_get k' (dict_set k v d) = dict_get k' d.
Proof.
  intros Hne. induction d as [|[k0 v0] d IH]; simpl.
  - unfold str_eqb. rewrite bool_decide_eq_false_2; [reflexivity | exact Hne].
  - destruct (str_eqb k0 k) eqn:E; simpl.
    + unfold str_eqb in E. apply bool_decide_eq_true_1 in E. subst k0.
      unfold str_eqb. rewrite bool_decide_eq_false_2; [reflexivity | exact Hne].
    + rewrite IH. reflexivity.
Qed.

(** Assigning to a key the dictionary already has keeps the keys and
    their order. *)
Lemma dict_keys_set k v v0 (d : dict) :
  dict_get k d = Some v0 -> dict_keys (dict_set k v d) = dict_keys d.
Proof.
  induction d as [|[k' v'] d IH]; simpl; [discriminate|].
  destruct (str_eqb k' k) eqn:E; simpl; [reflexivity|].
  intros H. rewrite (IH H). reflexivity.
Qed.

(** ** char2pinyin.py *)

Lemma Ok_inj {A} (a b : A) : Ok a = Ok b -> a = b.
Proof. congruence. Qed.

Lemma Some_inj {A} (a b : A) : Some a = Some b -> a = b.
Proof. congruence. Qed.

Lemma getitem_ok k (d : dict) v : getitem k d = Ok v -> dict_get k d = Some v.
Proof. unfold getitem. destruct (dict_get k d); congruence. Qed.

Lemma rbind_ok {A B} (r : result A) (k : A -> result B) b :
  rbind r k = Ok b -> exists a, r = Ok a /\ k a = Ok b.
Proof. destruct r as [a|e]; simpl; [eauto | discriminate]. Qed.

Lemma rmap_list_Forall2 {A B} (f : A -> result B) (l : list A) ys :
  rmap_list f l = Ok ys -> Forall2 (fun x y => f x = Ok y) l ys.
Proof.
  revert ys. induction l as [|x l IH]; intros ys H.
  - apply Ok_inj in H. subst. constructor.
  - cbn [rmap_list] in H.
    apply rbind_ok in H as (y & Hy & H).
    apply rbind_ok in H as (ys' & Hys & H).
    apply Ok_inj in H. subst ys. constructor; [exact Hy | apply IH; exact Hys].
Qed.

(** [[p[0] for p in pred]] ends normally only when no [p] is empty, and
    then holds the first element of each [p], in order. *)
Lemma first_readings_heads (readings : list (list str)) (firsts : list str) :
  rmap_list Char2Pinyin.first_reading readings = Ok firsts ->
  Forall2 (fun p x => exists rest, p = x :: rest) readings firsts.
Proof.
  intros H. apply rmap_list_Forall2 in H.
  eapply Forall2_impl; [exact H|].
  intros p x Hp. destruct p as [|y rest]; [discriminate Hp|].
  apply Ok_inj in Hp. subst y. exists rest. reflexivity.
Qed.

(** Inside an occurrence of '/NeMo' no other occurrence starts, so what
    [str.replace] skips is what lies inside the occurrences. *)
Lemma replace_go_removes (s : str) : forall k,
  k <= 4 ->
  starts_with (drop (5 - k) (py_str "/NeMo")) s = true ->
  replace_go (py_str "/NeMo") [] k s
  = remove_occurrences_go (py_str "/NeMo") k s.
Proof.
  induction s as [|c s IH]; intros k Hk Hpre; [reflexivity|].
  destruct k as [|k].
  - cbn [replace_go remove_occurrences_go].
    destruct (starts_with (py_str "/NeMo") (c :: s)) eqn:E.
    + cbn [app length py_str list_ascii_of_string Nat.sub].
      apply IH; [lia|].
      cbn -[eqc] in E. apply andb_true_iff in E as [_ E]. exact E.
    + f_equal. apply IH; [lia | reflexivity].
  - cbn [replace_go remove_occurrences_go].
    assert (E : starts_with (py_str "/NeMo") (c :: s) = false
                /\ starts_with (drop (5 - k) (py_str "/NeMo")) s = true).
    { destruct k as [|[|[|[|k]]]]; [| | | |lia]; cbn -[eqc] in Hpre |- *;
        apply andb_true_iff in Hpre as [Hc Hrest];
        apply Ascii.eqb_eq in Hc; subst c; (split; [reflexivity | exact Hrest]). }
    destruct E as [E1 E2]. rewrite E1. apply IH; [lia | exact E2].
Qed.

(** Python's [replace('/NeMo', '')] removes every occurrence of '/NeMo'. *)
Lemma replace_removes_every_occurrence (s : str) :
  str_replace (py_str "/NeMo") [] s = remove_occurrences (py_str "/NeMo") s.
Proof. apply replace_go_removes; [lia | reflexivity]. Qed.

(** For a pattern that overlaps itself the two differ: [replace] leaves
    the third 'a' of 'aaa', which lies in the second occurrence of 'aa'. *)
Example replace_differs_on_overlap :
  str_replace (py_str "aa") [] (py_str "aaa") = py_str "a"
  /\ remove_occurrences (py_str "aa") (py_str "aaa") = [].
Proof. split; reflexivity. Qed.

(** C8.  When a manifest line is written, the object written has the keys
    of the parsed object (in the same order), every entry but 'text' and
    'audio_filepath' as it was, 'audio_filepath' with every occurrence of
    '/NeMo' removed (what [replace('/NeMo', '')] returns), and 'text' the
    pinyin conversion of the input 'text' joined by spaces: of each list
    of readings that [pypinyin.pinyin] returns, its first element, in
    order. *)
Theorem char2pinyin_line_frame
    (pinyin : jvalue -> result (list (list str)))
    (json_loads : str -> result jdoc) (json_dumps : dict -> str)
    (line out : str) :
  Char2Pinyin.convert_line pinyin json_loads json_dumps line = Ok (Some out) ->
  exists d d',
    json_loads line = Ok (JObject d)
    /\ out = json_dumps d' ++ py_str "
"
    /\ dict_keys d' = dict_keys d
    /\ (forall k, k <> py_str "text" -> k <> py_str "audio_filepath" ->
                  dict_get k d' = dict_get k d)
    /\ (exists path,
          dict_get (py_str "audio_filepath") d = Some (JStr path)
          /\ dict_get (py_str "audio_filepath") d'
             = Some (JStr (str_replace (py_str "/NeMo") [] path))
          /\ str_replace (py_str "/NeMo") [] path
             = remove_occurrences (py_str "/NeMo") path)
    /\ (exists text readings firsts,
          dict_get (py_str "text") d = Some text
          /\ pinyin text = Ok readings
          /\ Forall2 (fun p x => exists rest, p = x :: rest) readings firsts
          /\ dict_get (py_str "text") d' = Some (JStr (join (py_str " ") firsts))).
Proof.
  unfold Char2Pinyin.convert_line.
  destruct line as [|c0 line0]; [discriminate|].
  set (line := c0 :: line0).
  intros H.
  apply rbind_ok in H as (j & Hj & H).
  apply rbind_ok in H as (d & Hd & H).
  apply rbind_ok in H as (d' & Hconv & H).
  apply Ok_inj, Some_inj in H. subst out.
  destruct j as [d0|raw]; simpl in Hd; [|discriminate].
  apply Ok_inj in Hd. subst d0.
  exists d, d'. split; [exact Hj|]. split; [reflexivity|].
  unfold Char2Pinyin.convert_object in Hconv.
  apply rbind_ok in Hconv as (v & Hv & Hconv).
  apply rbind_ok in Hconv as (path' & Hpath & Hconv).
  apply rbind_ok in Hconv as (text & Htext & Hconv).
  apply rbind_ok in Hconv as (readings & Hread & Hconv).
  apply rbind_ok in Hconv as (firsts & Hfirsts & Hconv).
  apply Ok_inj in Hconv. subst d'.
  assert (Hne : py_str "audio_filepath" <> py_str "text") by (vm_compute; discriminate).
  assert (Hne' : py_str "text" <> py_str "audio_filepath") by (vm_compute; discriminate).
  apply getitem_ok in Hv, Htext.
  destruct v as [path|raw]; [|discriminate].
  apply Ok_inj in Hpath. subst path'.
  pose proof Htext as Htext0.
  rewrite dict_get_set_ne in Htext0 by exact Hne.
  split; [|split; [|split]].
  - rewrite (dict_keys_set _ _ text _ Htext). apply (dict_keys_set _ _ _ _ Hv).
  - intros k Hk1 Hk2.
    rewrite dict_get_set_ne by congruence.
    apply dict_get_set_ne. congruence.
  - exists path. split; [exact Hv|]. split.
    + rewrite dict_get_set_ne by exact Hne'.
      apply dict_get_set_eq.
    + apply replace_removes_every_occurrence.
  - exists text, readings, firsts.
    split; [exact Htext0|]. split; [exact Hread|].
    split; [apply first_readings_heads; exact Hfirsts|].
    apply dict_get_set_eq.
Qed.

Lemma char2pinyin_line_frame_witness :
  Char2Pinyin.convert_line sample_pinyin sample_json_loads sample_json_dumps
    (py_str "{}") = Ok (Some (py_str "audio_filepath,duration,text
"))
  /\ exists d d',
       sample_json_loads (py_str "{}") = Ok (JObject d)
       /\ py_str "audio_filepath,duration,text
" = sample_json_dumps d' ++ py_str "
"
       /\ dict_keys d' = dict_keys d
       /\ (forall k, k <> py_str "text" -> k <> py_str "audio_filepath" ->
                     dict_get k d' = dict_get k d)
       /\ (exists path,
             dict_get (py_str "audio_filepath") d = Some (JStr path)
             /\ dict_get (py_str "audio_filepath") d'
                = Some (JStr (str_replace (py_str "/NeMo") [] path))
             /\ str_replace (py_str "/NeMo") [] path
                = remove_occurrences (py_str "/NeMo") path)
       /\ (exists text readings firsts,
             dict_get (py_str "text") d = Some text
             /\ sample_pinyin text = Ok readings
             /\ Forall2 (fun p x => exists rest, p = x :: rest) readings firsts
             /\ dict_get (py_str "text") d'
                = Some (JStr (join (py_str " ") firsts))).
Proof.
  split; [reflexivity|].
  apply (char2pinyin_line_frame sample_pinyin sample_json_loads sample_json_dumps).
  reflexivity.
Defined.

(** The object written for the sample item. *)
Example sample_manifest_item_converted :
  Char2Pinyin.convert_object sample_pinyin sample_manifest_item
  = Ok [(py_str "audio_filepath", JStr (py_str "/home/data/a.wav"));
        (py_str "duration", JOther (py_str "1.5"));
        (py_str "text", JStr (py_str "a b"))].
Proof. reflexivity. Qed.

(** ** punctuate_capitalize_infer.py: the loops of [main] *)

(** More fuel never changes the outcome of a loop that has ended. *)
Lemma for_enumerate_mono {A} (body : nat -> A -> list A -> result (list A))
    fuel fuel' i (l : list A) r :
  for_enumerate body fuel i l = Some r ->
  fuel <= fuel' ->
  for_enumerate body fuel' i l = Some r.
Proof.
  revert fuel' i l. induction fuel as [|fuel IH]; intros fuel' i l H Hle.
  - discriminate.
  - destruct fuel' as [|fuel']; [lia|].
    simpl in *. destruct (l !! i) as [x|]; [|exact H].
    destruct (body i x l) as [l'|e]; [|exact H].
    apply IH; [exact H | lia].
Qed.

Lemma postprocess_mono args fuel fuel' texts r :
  Infer.postprocess args fuel texts = Some r ->
  fuel <= fuel' ->
  Infer.postprocess args fuel' texts = Some r.
Proof.
  unfold Infer.postprocess. intros H Hle.
  destruct (Infer.make_queries_contain_intact_sentences args).
  - destruct (for_enumerate (Infer.intact_body args) fuel 0 texts) as [r1|] eqn:E1;
      [|discriminate].
    rewrite (for_enumerate_mono _ _ _ _ _ _ E1 Hle).
    destruct r1 as [texts1|e]; [|exact H].
    destruct (Infer.fix_decimals args && negb (Infer.save_labels_instead_of_text args));
      [|exact H].
    eapply for_enumerate_mono; eassumption.
  - destruct (Infer.fix_decimals args && negb (Infer.save_labels_instead_of_text args));
      [|exact H].
    eapply for_enumerate_mono; eassumption.
Qed.

Lemma main_mono model json_loads json_dumps files args fuel fuel' out :
  Infer.main model json_loads json_dumps files args fuel = Some out ->
  fuel <= fuel' ->
  Infer.main model json_loads json_dumps files args fuel' = Some out.
Proof.
  unfold Infer.main. intros H Hle.
  destruct (Infer.read_texts json_loads files args) as [[texts manifest]|e];
    [|exact H].
  destruct (model texts (Infer.kwargs_of args)) as [processed|e]; [|exact H].
  destruct (Infer.postprocess args fuel processed) as [r|] eqn:E; [|discriminate].
  rewrite (postprocess_mono _ _ _ _ _ E Hle). exact H.
Qed.

(** A text without a letter takes the [if not text] branch. *)
Lemma intact_sentence_empty args : Infer.intact_sentence args [] = None.
Proof. reflexivity. Qed.

(** Once the loop of lines 248-261 stands on a text that takes the
    [if not text] branch, and only such texts follow, it never ends: each
    round appends an empty string, which is visited in its turn. *)
Lemma intact_loop_diverges args fuel i (l : list str) :
  i < length l ->
  (forall j x, i <= j -> l !! j = Some x -> Infer.intact_sentence args x = None) ->
  for_enumerate (Infer.intact_body args) fuel i l = None.
Proof.
  revert i l. induction fuel as [|fuel IH]; intros i l Hi Hall; [reflexivity|].
  simpl. destruct (lookup_lt_is_Some_2 l i Hi) as [x Hx]. rewrite Hx.
  unfold Infer.intact_body at 1. rewrite (Hall i x (le_n _) Hx).
  apply IH.
  - rewrite length_app. simpl. lia.
  - intros j y Hj Hy.
    destruct (decide (j < length l)) as [Hlt|Hge].
    + rewrite lookup_app_l in Hy by exact Hlt.
      apply (Hall j y); [lia | exact Hy].
    + rewrite lookup_app_r in Hy by lia.
      destruct (j - length l) as [|k]; simpl in Hy.
      * apply Some_inj in Hy. subst y. apply intact_sentence_empty.
      * destruct k; discriminate.
Qed.

(** When every text has a letter the loop of lines 248-261 ends and
    keeps the length of the list: each round stores at the index it
    stands on. *)
Lemma intact_loop_ends args : forall k i (l : list str),
  length l - i <= k ->
  (forall j x, i <= j -> l !! j = Some x -> Infer.intact_sentence args x <> None) ->
  exists l', for_enumerate (Infer.intact_body args) (S k) i l = Some (Ok l')
             /\ length l' = length l.
Proof.
  induction k as [|k IH]; intros i l Hk Hall.
  - simpl. rewrite (lookup_ge_None_2 l i) by lia. eauto.
  - cbn [for_enumerate]. destruct (l !! i) as [x|] eqn:Ex; [|eauto].
    unfold Infer.intact_body at 1.
    destruct (Infer.intact_sentence args x) as [t|] eqn:Et.
    2:{ exfalso. exact (Hall i x (le_n _) Ex Et). }
    destruct (IH (S i) (<[i := t]> l)) as (l' & Hrun & Hlen).
    + rewrite length_insert. lia.
    + intros j y Hj Hy. rewrite list_lookup_insert_ne in Hy by lia.
      apply (Hall j y); [lia | exact Hy].
    + exists l'. split; [exact Hrun|]. rewrite Hlen. apply length_insert.
Qed.

(** The loop of lines 263-264 always ends, and keeps the length. *)
Lemma decimals_loop_ends : forall k i (l : list str),
  length l - i <= k ->
  exists r, for_enumerate Infer.decimals_body (S k) i l = Some r
            /\ forall l', r = Ok l' -> length l' = length l.
Proof.
  induction k as [|k IH]; intros i l Hk.
  - simpl. rewrite (lookup_ge_None_2 l i) by lia.
    eexists. split; [reflexivity|]. intros l' H. apply Ok_inj in H. congruence.
  - cbn [for_enumerate]. destruct (l !! i) as [x|] eqn:Ex.
    2:{ eexists. split; [reflexivity|]. intros l' H. apply Ok_inj in H. congruence. }
    unfold Infer.decimals_body at 1.
    destruct (fix_decimals_text x) as [t|e]; cbn [rbind].
    + destruct (IH (S i) (<[i := t]> l)) as (r & Hrun & Hlen).
      { rewrite length_insert. lia. }
      exists r. split; [exact Hrun|].
      intros l' Hr. rewrite (Hlen l' Hr). apply length_insert.
    + eexists. split; [reflexivity|]. discriminate.
Qed.

(** So the post-processing ends, with as many texts as it was given,
    unless the first loop meets a text without a letter. *)
Lemma postprocess_ends args (texts : list str) :
  (Infer.make_queries_contain_intact_sentences args = true ->
   forall x, In x texts -> Infer.intact_sentence args x <> None) ->
  exists r, Infer.postprocess args (S (length texts)) texts = Some r
            /\ forall texts', r = Ok texts' -> length texts' = length texts.
Proof.
  intros Hall. unfold Infer.postprocess.
  assert (H1 : exists l1,
             (if Infer.make_queries_contain_intact_sentences args
              then for_enumerate (Infer.intact_body args) (S (length texts)) 0 texts
              else Some (Ok texts)) = Some (Ok l1)
             /\ length l1 = length texts).
  { destruct (Infer.make_queries_contain_intact_sentences args); [|eauto].
    apply intact_loop_ends; [lia|].
    intros j x _ Hx. apply Hall; [reflexivity|].
    apply list_elem_of_In. eapply list_elem_of_lookup_2. exact Hx. }
  destruct H1 as (l1 & -> & Hlen).
  destruct (Infer.fix_decimals args && negb (Infer.save_labels_instead_of_text args)).
  - rewrite <- Hlen.
    destruct (decimals_loop_ends (length l1) 0 l1) as (r & Hrun & Hr); [lia|].
    exists r. split; [exact Hrun | exact Hr].
  - eexists. split; [reflexivity|]. intros l' H. apply Ok_inj in H. congruence.
Qed.

(** C1.  On the input line "2021" the stand-in model returns "2021.",
    which has no letter; line 251 then appends to [processed_texts]
    instead of storing at index [i], the list grows from one text to two,
    and [main] never gets out of the loop, whatever the fuel: no output
    is produced at all. *)
Theorem main_intact_loop_grows_list :
  Infer.intact_body sample_args 0 (py_str "2021.") [py_str "2021."]
  = Ok [py_str "2021."; []]
  /\ forall fuel,
       Infer.main dot_model no_json_loads no_json_dumps year_files
         sample_args fuel = None.
Proof.
  split; [reflexivity|].
  intros fuel. unfold Infer.main.
  assert (Hread : Infer.read_texts no_json_loads year_files sample_args
                  = Ok ([JStr (py_str "2021")], None)).
  { unfold Infer.read_texts, Infer.open_read, year_files. simpl.
    rewrite lookup_singleton_eq. reflexivity. }
  rewrite Hread.
  change (dot_model [JStr (py_str "2021")] (Infer.kwargs_of sample_args))
    with (@Ok (list str) [py_str "2021."]).
  cbv iota beta.
  unfold Infer.postprocess.
  change (Infer.make_queries_contain_intact_sentences sample_args) with true.
  cbv iota.
  rewrite intact_loop_diverges; [reflexivity | simpl; lia |].
  intros j x _ Hx. destruct j as [|j]; simpl in Hx; [|discriminate].
  apply Some_inj in Hx. subst x. reflexivity.
Qed.

(** ** punctuate_capitalize_infer.py: failures of the model call *)

(** C5.  When the call of [model.add_punctuation_capitalization] raises,
    [main] ends with that very exception; the model was called once (the
    call is the only event), so nothing was retried, caught or wrapped. *)
Theorem main_propagates_model_failure
    (model : list jvalue -> Infer.apc_kwargs -> result (list str))
    (json_loads : str -> result jdoc) (json_dumps : dict -> str)
    (files : gmap str (list str)) (args : Infer.Namespace)
    (texts : list jvalue) (manifest : option (list dict * str))
    (e : exn) (fuel : nat) :
  Infer.read_texts json_loads files args = Ok (texts, manifest) ->
  model texts (Infer.kwargs_of args) = Raise e ->
  Infer.main model json_loads json_dumps files args fuel
  = Some ([Infer.EvModelCall texts (Infer.kwargs_of args)], Raise e).
Proof.
  intros Hread Hmodel. unfold Infer.main. rewrite Hread, Hmodel. reflexivity.
Qed.

Lemma main_propagates_model_failure_witness :
  Infer.read_texts no_json_loads pi_files sample_args
  = Ok ([JStr (py_str "pi is 3 point 1 4")], None)
  /\ failing_model [JStr (py_str "pi is 3 point 1 4")] (Infer.kwargs_of sample_args)
     = Raise (ExternalError (py_str "CUDA out of memory"))
  /\ Infer.main failing_model no_json_loads no_json_dumps pi_files sample_args 0
     = Some ([Infer.EvModelCall [JStr (py_str "pi is 3 point 1 4")]
                (Infer.kwargs_of sample_args)],
             Raise (ExternalError (py_str "CUDA out of memory"))).
Proof.
  split; [vm_compute; reflexivity|].
  split; [reflexivity|].
  apply (main_propagates_model_failure failing_model no_json_loads no_json_dumps
           pi_files sample_args _ None); [vm_compute; reflexivity | reflexivity].
Defined.

(** Whatever [main] writes, it writes after the model call has returned
    normally: a run with an output event starts with the call, the call
    returned texts, and everything after it is output. *)
Lemma main_writes_after_model_returns
    (model : list jvalue -> Infer.apc_kwargs -> result (list str))
    (json_loads : str -> result jdoc) (json_dumps : dict -> str)
    (files : gmap str (list str)) (args : Infer.Namespace)
    (fuel : nat) (trace : list Infer.event) (r : result unit) :
  Infer.main model json_loads json_dumps files args fuel = Some (trace, r) ->
  existsb Infer.is_output_event trace = true ->
  exists texts processed rest,
    model texts (Infer.kwargs_of args) = Ok processed
    /\ trace = Infer.EvModelCall texts (Infer.kwargs_of args) :: rest
    /\ forallb Infer.is_output_event rest = true.
Proof.
  unfold Infer.main. intros H Hout.
  destruct (Infer.read_texts json_loads files args) as [[texts manifest]|e].
  2:{ apply Some_inj in H. injection H as <- <-. discriminate Hout. }
  destruct (model texts (Infer.kwargs_of args)) as [processed|e] eqn:Em.
  2:{ apply Some_inj in H. injection H as <- <-. discriminate Hout. }
  destruct (Infer.postprocess args fuel processed) as [[processed'|e]|];
    [| apply Some_inj in H; injection H as <- <-; discriminate Hout
     | discriminate H].
  destruct (Infer.write_output json_dumps args manifest processed') as [out r']
    eqn:Ew.
  apply Some_inj in H. injection H as <- <-.
  exists texts, processed, out. split; [exact Em|]. split; [reflexivity|].
  unfold Infer.write_output in Ew.
  destruct (Infer.output_manifest args) as [path|].
  - destruct manifest as [[items text_key]|]; injection Ew as <- <-.
    + simpl. clear. revert processed'.
      induction items as [|item items IH]; intros [|t ts]; simpl; auto.
    + reflexivity.
  - destruct (Infer.output_text args) as [path|]; injection Ew as <- <-.
    + simpl. clear. induction processed' as [|t ts IH]; simpl; auto.
    + reflexivity.
Qed.

(** ** Regular expressions *)

Ltac ascii_cases c := destruct c as [[] [] [] [] [] [] [] []].

Lemma digit_not_punct c : is_digit c = true -> is_punct c = false.
Proof. ascii_cases c; vm_compute; congruence. Qed.

Lemma digit_not_space c : is_digit c = true -> is_space c = false.
Proof. ascii_cases c; vm_compute; congruence. Qed.

Lemma letter_not_punct c : is_letter c = true -> is_punct c = false.
Proof. ascii_cases c; vm_compute; congruence. Qed.

Lemma letter_not_space c : is_letter c = true -> is_space c = false.
Proof. ascii_cases c; vm_compute; congruence. Qed.

Lemma letter_not_digit c : is_letter c = true -> is_digit c = false.
Proof. ascii_cases c; vm_compute; congruence. Qed.

Lemma punct_not_digit c : is_punct c = true -> is_digit c = false.
Proof. ascii_cases c; vm_compute; congruence. Qed.

Lemma lower_not_upper c : is_ascii_lower c = true -> is_ascii_upper c = false.
Proof. ascii_cases c; vm_compute; congruence. Qed.

(** Under [re.I] a blank of the pattern still matches a blank only. *)
Lemma chr_blank x : eqc (lower_char x) (lower_char " ") = true -> x = " "%char.
Proof. ascii_cases x; vm_compute; congruence. Qed.

(** Under [re.I] a lower-case letter of the pattern matches letters only. *)
Lemma chr_letter x y :
  is_ascii_lower y = true ->
  eqc (lower_char x) (lower_char y) = true -> is_letter x = true.
Proof.
  intros Hy H. apply Ascii.eqb_eq in H.
  unfold lower_char in H. rewrite (lower_not_upper y Hy) in H.
  unfold is_letter. destruct (is_ascii_upper x) eqn:E; [reflexivity|].
  subst y. rewrite Hy. reflexivity.
Qed.

Lemma nullable_sound r : nullable r = true -> re_match r [].
Proof.
  induction r; simpl; intros H; try discriminate.
  - constructor.
  - apply andb_true_iff in H as [H1 H2].
    apply (MCat r1 r2 [] []); auto.
  - apply orb_true_iff in H as [H|H]; [apply MAltL | apply MAltR]; auto.
  - constructor.
Qed.

Lemma deriv_sound c r : forall s, re_match (deriv c r) s -> re_match r (c :: s).
Proof.
  induction r; simpl; intros s H.
  - inversion H.
  - inversion H.
  - destruct (p c) eqn:E; inversion H; subst. constructor. exact E.
  - destruct (nullable r1) eqn:E.
    + inversion H as [| | |? ? ? H1|? ? ? H2| |]; subst.
      * inversion H1; subst.
        apply (MCat r1 r2 (c :: _) _); auto.
      * apply (MCat r1 r2 [] (c :: s)); auto. apply nullable_sound. exact E.
    + inversion H; subst. apply (MCat r1 r2 (c :: _) _); auto.
  - inversion H; subst; [apply MAltL | apply MAltR]; auto.
  - inversion H; subst. apply (MStarApp r (c :: _) _); auto.
Qed.

(** Whatever the derivative matcher accepts is a word of the expression. *)
Lemma matches_sound s : forall r, matches r s = true -> re_match r s.
Proof.
  induction s as [|c s IH]; simpl; intros r H.
  - apply nullable_sound. exact H.
  - apply deriv_sound. apply IH. exact H.
Qed.

Lemma re_match_cat_inv r1 r2 s :
  re_match (Cat r1 r2) s ->
  exists s1 s2, s = s1 ++ s2 /\ re_match r1 s1 /\ re_match r2 s2.
Proof. intros H. inversion H; subst. eauto. Qed.

Lemma re_match_class_inv p s :
  re_match (Class p) s -> exists c, s = [c] /\ p c = true.
Proof. intros H. inversion H; subst. eauto. Qed.

Lemma re_match_opt_class_inv p s :
  re_match (Opt (Class p)) s -> forallb p s = true.
Proof.
  intros H. inversion H as [| | |? ? ? H1|? ? ? H2| |]; subst.
  - inversion H1; subst. simpl. rewrite andb_true_r. assumption.
  - inversion H2. reflexivity.
Qed.

Lemma re_match_star_inv r s :
  re_match (Star r) s -> exists ss, s = concat ss /\ Forall (re_match r) ss.
Proof.
  intros H. remember (Star r) as r0 eqn:E.
  induction H; try discriminate.
  - exists []. split; [reflexivity | constructor].
  - injection E as ->.
    destruct (IHre_match2 eq_refl) as (ss & -> & Hss).
    exists (s1 :: ss). split; [reflexivity|]. constructor; assumption.
Qed.

Lemma re_match_plus_inv r s :
  re_match (Plus r) s ->
  exists s0 ss, s = concat (s0 :: ss) /\ Forall (re_match r) (s0 :: ss).
Proof.
  intros H. apply re_match_cat_inv in H as (s1 & s2 & -> & H1 & H2).
  apply re_match_star_inv in H2 as (ss & -> & Hss).
  exists s1, ss. split; [reflexivity|]. constructor; assumption.
Qed.

Lemma class_words p (ss : list str) :
  Forall (re_match (Class p)) ss -> forallb p (concat ss) = true.
Proof.
  induction 1 as [|s ss Hs _ IH]; [reflexivity|].
  apply re_match_class_inv in Hs as (c & -> & Hc). simpl. rewrite Hc. exact IH.
Qed.

(** A word of [DECIMAL] has the shape the pattern spells out. *)
Lemma decimal_match_shape m :
  re_match DECIMAL m ->
  exists ds p w gs,
    m = decimal_shape ds p w gs
    /\ ds <> [] /\ forallb is_digit ds = true
    /\ forallb is_punct p = true
    /\ map lower_char w = py_str "point" /\ forallb is_letter w = true
    /\ gs <> []
    /\ Forall (fun g => forallb is_punct (fst g) = true /\ is_digit (snd g) = true) gs.
Proof.
  unfold DECIMAL. intros H.
  apply re_match_cat_inv in H as (ds & m1 & -> & Hds & H).
  apply re_match_cat_inv in H as (p & m2 & -> & Hp & H).
  apply re_match_cat_inv in H as (pt & gtxt & -> & Hpt & Hg).
  apply re_match_plus_inv in Hds as (d0 & dss & -> & Hdss).
  pose proof (class_words _ _ Hdss) as Hdig.
  assert (Hne : concat (d0 :: dss) <> []).
  { apply Forall_inv in Hdss.
    apply re_match_class_inv in Hdss as (c & -> & _). discriminate. }
  apply re_match_opt_class_inv in Hp.
  (* the word *)
  simpl in Hpt.
  apply re_match_cat_inv in Hpt as (b0 & t0 & -> & Hb0 & Hpt).
  apply re_match_cat_inv in Hpt as (b1 & t1 & -> & Hb1 & Hpt).
  apply re_match_cat_inv in Hpt as (b2 & t2 & -> & Hb2 & Hpt).
  apply re_match_cat_inv in Hpt as (b3 & t3 & -> & Hb3 & Hpt).
  apply re_match_cat_inv in Hpt as (b4 & t4 & -> & Hb4 & Hpt).
  apply re_match_cat_inv in Hpt as (b5 & t5 & -> & Hb5 & Hpt).
  inversion Hpt; subst.
  apply re_match_class_inv in Hb0 as (c0 & -> & Hc0).
  apply re_match_class_inv in Hb1 as (c1 & -> & Hc1).
  apply re_match_class_inv in Hb2 as (c2 & -> & Hc2).
  apply re_match_class_inv in Hb3 as (c3 & -> & Hc3).
  apply re_match_class_inv in Hb4 as (c4 & -> & Hc4).
  apply re_match_class_inv in Hb5 as (c5 & -> & Hc5).
  apply chr_blank in Hc0. subst c0.
  pose proof (proj1 (Ascii.eqb_eq _ _) Hc1) as Hw1.
  pose proof (proj1 (Ascii.eqb_eq _ _) Hc2) as Hw2.
  pose proof (proj1 (Ascii.eqb_eq _ _) Hc3) as Hw3.
  pose proof (proj1 (Ascii.eqb_eq _ _) Hc4) as Hw4.
  pose proof (proj1 (Ascii.eqb_eq _ _) Hc5) as Hw5.
  apply chr_letter in Hc1; [|reflexivity].
  apply chr_letter in Hc2; [|reflexivity].
  apply chr_letter in Hc3; [|reflexivity].
  apply chr_letter in Hc4; [|reflexivity].
  apply chr_letter in Hc5; [|reflexivity].
  (* the groups *)
  apply re_match_plus_inv in Hg as (g0 & gss & -> & Hgss).
  assert (Hgs : exists gs,
             length gs = length (g0 :: gss)
             /\ concat (g0 :: gss)
                = concat (map (fun g => fst g ++ [" "%char; snd g]) gs)
             /\ Forall (fun g => forallb is_punct (fst g) = true
                                 /\ is_digit (snd g) = true) gs).
  { clear -Hgss. induction Hgss as [|g gss' Hg _ IH].
    - exists []. repeat split. constructor.
    - destruct IH as (gs & Hlen & Hcat & Hok).
      apply re_match_cat_inv in Hg as (q & r & -> & Hq & Hr).
      apply re_match_cat_inv in Hr as (b & d & -> & Hb & Hd).
      apply re_match_opt_class_inv in Hq.
      apply re_match_class_inv in Hb as (cb & -> & Hcb).
      apply re_match_class_inv in Hd as (cd & -> & Hcd).
      apply chr_blank in Hcb. subst cb.
      exists ((q, cd) :: gs). split; [simpl; congruence|]. split.
      + simpl. simpl in Hcat. rewrite Hcat. reflexivity.
      + constructor; [split; assumption | exact Hok]. }
  destruct Hgs as (gs & Hlen & Hcat & Hok).
  exists (concat (d0 :: dss)), p, [c1; c2; c3; c4; c5], gs.
  split.
  { unfold decimal_shape. rewrite Hcat. simpl. reflexivity. }
  split; [exact Hne|]. split; [exact Hdig|]. split; [exact Hp|].
  split; [simpl; rewrite Hw1, Hw2, Hw3, Hw4, Hw5; reflexivity|].
  split; [simpl; rewrite Hc1, Hc2, Hc3, Hc4, Hc5; reflexivity|].
  split; [|exact Hok].
  destruct gs; [discriminate Hlen | discriminate].
Qed.

Lemma forallb_imp {A} (p q : A -> bool) (l : list A) :
  (forall x, p x = true -> q x = true) ->
  forallb p l = true -> forallb q l = true.
Proof.
  intros Hpq. induction l as [|x l IH]; simpl; [reflexivity|].
  intros H. apply andb_true_iff in H as [Hx Hl].
  rewrite (Hpq x Hx), (IH Hl). reflexivity.
Qed.

Lemma filter_all {A} (q : A -> bool) (l : list A) :
  forallb q l = true -> List.filter q l = l.
Proof.
  induction l as [|x l IH]; simpl; [reflexivity|].
  intros H. apply andb_true_iff in H as [Hx Hl].
  rewrite Hx, (IH Hl). reflexivity.
Qed.

Lemma filter_none {A} (p q : A -> bool) (l : list A) :
  (forall x, p x = true -> q x = false) ->
  forallb p l = true -> List.filter q l = [].
Proof.
  intros Hpq. induction l as [|x l IH]; simpl; [reflexivity|].
  intros H. apply andb_true_iff in H as [Hx Hl].
  rewrite (Hpq x Hx), (IH Hl). reflexivity.
Qed.

Lemma take_drop_while_app {A} (q : A -> bool) (l : list A) x rest :
  forallb q l = true -> q x = false ->
  take_while q (l ++ x :: rest) = l /\ drop_while q (l ++ x :: rest) = x :: rest.
Proof.
  intros Hl Hx. induction l as [|y l IH]; simpl.
  - rewrite Hx. split; reflexivity.
  - simpl in Hl. apply andb_true_iff in Hl as [Hy Hl].
    rewrite Hy. destruct (IH Hl) as [-> ->]. split; reflexivity.
Qed.

Lemma longest_match_void s : longest_match Void s = None.
Proof. induction s as [|c s IH]; simpl; [reflexivity | rewrite IH; reflexivity]. Qed.

Lemma longest_match_eps s : longest_match Eps s = Some 0.
Proof. destruct s; simpl; [|rewrite longest_match_void]; reflexivity. Qed.

Lemma longest_match_class p c s :
  longest_match (Class p) (c :: s) = if p c then Some 1 else None.
Proof.
  simpl. destruct (p c).
  - rewrite longest_match_eps. reflexivity.
  - rewrite longest_match_void. reflexivity.
Qed.

(** Substituting the empty string for a one-character class deletes the
    characters of the class. *)
Lemma re_sub_class_delete p s :
  re_sub (Class p) (fun _ => Ok []) s = Ok (List.filter (fun c => negb (p c)) s).
Proof.
  unfold re_sub. induction s as [|c s IH]; [reflexivity|].
  cbn [re_sub_go List.filter]. rewrite longest_match_class.
  destruct (p c); simpl; rewrite IH; reflexivity.
Qed.

Lemma split_ws_go_word w : forall cur rest,
  forallb (fun c => negb (is_space c)) w = true ->
  split_ws_go cur (w ++ rest) = split_ws_go (rev w ++ cur) rest.
Proof.
  induction w as [|c w IH]; intros cur rest H; [reflexivity|].
  simpl in H. apply andb_true_iff in H as [Hc Hw].
  apply negb_true_iff in Hc. simpl. rewrite Hc, (IH _ _ Hw).
  rewrite <- app_assoc. reflexivity.
Qed.

Lemma split_ws_go_digits digs : forall cur,
  cur <> [] -> forallb is_digit digs = true ->
  split_ws_go cur (concat (map (fun d => [" "%char; d]) digs))
  = rev cur :: map (fun d => [d]) digs.
Proof.
  induction digs as [|d digs IH]; intros cur Hcur H.
  - simpl. destruct cur; [congruence | reflexivity].
  - simpl in H. apply andb_true_iff in H as [Hd Hdigs].
    cbn [map concat app split_ws_go].
    change (is_space " ") with true. cbv iota.
    rewrite (digit_not_space d Hd).
    rewrite (IH [d]) by (assumption || discriminate).
    destruct cur; [congruence | reflexivity].
Qed.

Lemma join_singletons (l : str) : join [] (map (fun d => [d]) l) = l.
Proof.
  induction l as [|d l IH]; [reflexivity|].
  destruct l as [|d' l']; [reflexivity|].
  change (join [] (map (fun d => [d]) (d :: d' :: l')))
    with ([d] ++ [] ++ join [] (map (fun d => [d]) (d' :: l'))).
  rewrite IH. reflexivity.
Qed.

Lemma groups_digits (gs : list (str * ascii)) :
  Forall (fun g => forallb is_punct (fst g) = true /\ is_digit (snd g) = true) gs ->
  forallb is_digit (map snd gs) = true.
Proof.
  induction 1 as [|g gs' [_ Hd] _ IH]; simpl; [reflexivity|].
  rewrite Hd. exact IH.
Qed.

Lemma groups_without_punct (gs : list (str * ascii)) :
  Forall (fun g => forallb is_punct (fst g) = true /\ is_digit (snd g) = true) gs ->
  List.filter (fun c => negb (is_punct c))
    (concat (map (fun g => fst g ++ [" "%char; snd g]) gs))
  = concat (map (fun d => [" "%char; d]) (map snd gs)).
Proof.
  induction 1 as [|g gs' [Hq Hd] _ IH]; [reflexivity|].
  cbn [map concat]. rewrite !List.filter_app, IH.
  rewrite (filter_none is_punct) by (assumption || (intros x Hx; rewrite Hx; reflexivity)).
  simpl. rewrite (digit_not_punct _ Hd). reflexivity.
Qed.

Lemma groups_only_digits (gs : list (str * ascii)) :
  Forall (fun g => forallb is_punct (fst g) = true /\ is_digit (snd g) = true) gs ->
  List.filter is_digit (concat (map (fun g => fst g ++ [" "%char; snd g]) gs))
  = map snd gs.
Proof.
  induction 1 as [|g gs' [Hq Hd] _ IH]; [reflexivity|].
  cbn [map concat]. rewrite !List.filter_app, IH.
  rewrite (filter_none is_punct is_digit _ punct_not_digit Hq).
  simpl. rewrite Hd. reflexivity.
Qed.

Section DecimalShape.

Variables (ds p w : str) (gs : list (str * ascii)).
Hypothesis Hds_ne : ds <> [].
Hypothesis Hds : forallb is_digit ds = true.
Hypothesis Hp : forallb is_punct p = true.
Hypothesis Hw_ne : w <> [].
Hypothesis Hw : forallb is_letter w = true.
Hypothesis Hgs : Forall (fun g => forallb is_punct (fst g) = true
                                  /\ is_digit (snd g) = true) gs.

Lemma shape_without_punct :
  List.filter (fun c => negb (is_punct c)) (decimal_shape ds p w gs)
  = ds ++ " "%char :: w ++ concat (map (fun d => [" "%char; d]) (map snd gs)).
Proof.
  unfold decimal_shape.
  rewrite List.filter_app, List.filter_app.
  rewrite (filter_all _ ds).
  2:{ eapply forallb_imp; [|exact Hds].
      intros x Hx. rewrite (digit_not_punct x Hx). reflexivity. }
  rewrite (filter_none is_punct _ p)
    by (assumption || (intros x Hx; rewrite Hx; reflexivity)).
  cbn [List.filter app]. change (negb (is_punct " ")) with true. cbv iota.
  rewrite List.filter_app, (filter_all _ w).
  2:{ eapply forallb_imp; [|exact Hw].
      intros x Hx. rewrite (letter_not_punct x Hx). reflexivity. }
  rewrite (groups_without_punct gs Hgs). reflexivity.
Qed.

(** The whitespace-separated parts of a match without its punctuation:
    the integer digits, the word, and one part per fraction digit. *)
Lemma shape_parts :
  split_ws (List.filter (fun c => negb (is_punct c)) (decimal_shape ds p w gs))
  = ds :: w :: map (fun d => [d]) (map snd gs).
Proof.
  rewrite shape_without_punct. unfold split_ws.
  rewrite split_ws_go_word.
  2:{ eapply forallb_imp; [|exact Hds].
      intros x Hx. rewrite (digit_not_space x Hx). reflexivity. }
  rewrite app_nil_r. cbn [split_ws_go].
  change (is_space " ") with true. cbv iota.
  destruct (rev ds) as [|c r] eqn:Er.
  { exfalso. apply Hds_ne. rewrite <- (rev_involutive ds), Er. reflexivity. }
  rewrite <- Er, rev_involutive.
  rewrite split_ws_go_word.
  2:{ eapply forallb_imp; [|exact Hw].
      intros x Hx. rewrite (letter_not_space x Hx). reflexivity. }
  rewrite app_nil_r, split_ws_go_digits.
  - rewrite rev_involutive. reflexivity.
  - intros E. apply Hw_ne. rewrite <- (rev_involutive w), E. reflexivity.
  - exact (groups_digits gs Hgs).
Qed.

Lemma decimal_repl_shape :
  decimal_repl (decimal_shape ds p w gs) = Ok (ds ++ py_str "." ++ map snd gs).
Proof.
  unfold decimal_repl, PUNCTUATION.
  rewrite re_sub_class_delete. cbn [rbind].
  rewrite shape_parts. cbn [skipn]. rewrite drop_0.
  rewrite join_singletons. reflexivity.
Qed.

Lemma shape_leading_digits :
  take_while is_digit (decimal_shape ds p w gs) = ds
  /\ List.filter is_digit (drop_while is_digit (decimal_shape ds p w gs))
     = map snd gs.
Proof.
  unfold decimal_shape.
  assert (Hrest : exists x rest,
             p ++ " "%char :: w
               ++ concat (map (fun g => fst g ++ [" "%char; snd g]) gs)
             = x :: rest /\ is_digit x = false).
  { destruct p as [|x p'] eqn:Ep.
    - eexists _, _. split; [reflexivity | reflexivity].
    - eexists _, _. split; [reflexivity|].
      simpl in Hp. apply andb_true_iff in Hp as [Hx _].
      apply punct_not_digit. exact Hx. }
  destruct Hrest as (x & rest & Erest & Hx).
  destruct (take_drop_while_app is_digit ds x rest Hds Hx) as [Ht Hd].
  rewrite Erest, Ht, Hd, <- Erest. split; [reflexivity|].
  rewrite List.filter_app.
  rewrite (filter_none is_punct is_digit p punct_not_digit Hp).
  cbn [app List.filter]. change (is_digit " ") with false. cbv iota.
  rewrite List.filter_app.
  rewrite (filter_none is_letter is_digit w letter_not_digit Hw).
  cbn [app]. exact (groups_only_digits gs Hgs).
Qed.

End DecimalShape.

(** C10.  On a text the [DECIMAL] pattern matches, [decimal_repl] takes
    the text without its '.', ',' and '?', whose whitespace-separated
    parts are the integer digits, the word 'point' (in any case) and the
    fraction digits, and returns the first part, a dot and the parts from
    index 2 on glued together: the leading digits of the match, '.', and
    all its later digits.  The word is dropped. *)
Theorem decimal_repl_on_match (m : str) :
  matches DECIMAL m = true ->
  exists int_part word fraction,
    split_ws (List.filter (fun c => negb (is_punct c)) m)
    = int_part :: word :: fraction
    /\ map lower_char word = py_str "point"
    /\ decimal_repl m = Ok (int_part ++ py_str "." ++ join [] fraction)
    /\ int_part = take_while is_digit m
    /\ int_part <> []
    /\ join [] fraction = List.filter is_digit (drop_while is_digit m)
    /\ fraction <> [].
Proof.
  intros H. apply matches_sound, decimal_match_shape in H.
  destruct H as (ds & p & w & gs & -> & Hne & Hds & Hp & Hword & Hw & Hgne & Hgs).
  assert (Hw_ne : w <> []) by (intros ->; discriminate Hword).
  exists ds, w, (map (fun d => [d]) (map snd gs)).
  destruct (shape_leading_digits ds p w gs Hds Hp Hw Hgs) as [Ht Hf].
  split; [apply shape_parts; assumption|].
  split; [exact Hword|].
  split; [rewrite join_singletons; apply decimal_repl_shape; assumption|].
  split; [symmetry; exact Ht|].
  split; [exact Hne|].
  split; [rewrite join_singletons; symmetry; exact Hf|].
  destruct gs; [congruence | discriminate].
Qed.

Lemma decimal_repl_on_match_witness :
  matches DECIMAL (py_str "3 point 1 4") = true
  /\ exists int_part word fraction,
       split_ws (List.filter (fun c => negb (is_punct c)) (py_str "3 point 1 4"))
       = int_part :: word :: fraction
       /\ map lower_char word = py_str "point"
       /\ decimal_repl (py_str "3 point 1 4")
          = Ok (int_part ++ py_str "." ++ join [] fraction)
       /\ int_part = take_while is_digit (py_str "3 point 1 4")
       /\ int_part <> []
       /\ join [] fraction
          = List.filter is_digit (drop_while is_digit (py_str "3 point 1 4"))
       /\ fraction <> [].
Proof.
  split; [reflexivity|].
  apply (decimal_repl_on_match (py_str "3 point 1 4")). reflexivity.
Defined.

(** '3 point 1 4' becomes '3.14'; so does a match with punctuation and
    an upper-case letter. *)
Example decimal_repl_3_point_1_4 :
  decimal_repl (py_str "3 point 1 4") = Ok (py_str "3.14").
Proof. reflexivity. Qed.

Example decimal_repl_with_punctuation :
  matches DECIMAL (py_str "12, Point, 5? 0") = true
  /\ decimal_repl (py_str "12, Point, 5? 0") = Ok (py_str "12.50").
Proof. split; reflexivity. Qed.

(** ** The sliding-window core *)

Section CoreProperties.

Local Open Scope Z_scope.

(** The strided starts are exactly the multiples of the step (from
    [o] on) whose window fits. *)
Lemma strided_starts_in fuel : forall n L s o x,
  1 <= s ->
  (In x (Core.strided_starts fuel n L s o)
   <-> exists j, 0 <= j < Z.of_nat fuel /\ x = o + j * s /\ x + L <= n).
Proof.
  induction fuel as [|fuel IH]; intros n L s o x Hs.
  - simpl. split; [tauto | intros (j & Hj & _); lia].
  - cbn [Core.strided_starts]. destruct (o + L <=? n) eqn:E.
    + apply Z.leb_le in E. simpl. rewrite (IH n L s (o + s) x Hs). split.
      * intros [<-|(j & Hj & -> & Hfit)].
        -- exists 0. lia.
        -- exists (j + 1). lia.
      * intros (j & Hj & -> & Hfit).
        destruct (Z.eq_dec j 0) as [->|Hne]; [left; lia|].
        right. exists (j - 1). lia.
    + apply Z.leb_gt in E. simpl. split; [tauto|].
      intros (j & Hj & -> & Hfit). nia.
Qed.

(** For a Query longer than the window: the first start is 0, the last
    is the right-aligned one, there are at least two, every window fits,
    and every multiple of the step whose window fits is a start. *)
Lemma segment_starts_long n L s :
  1 <= L -> 1 <= s -> L < n ->
  exists mid,
    Core.segment_starts n L s = 0 :: mid ++ [n - L]
    /\ (forall x, In x (Core.segment_starts n L s) -> 0 <= x /\ x + L <= n)
    /\ (forall j, 0 <= j -> j * s + L <= n ->
                  In (j * s) (Core.segment_starts n L s)).
Proof.
  intros HL Hs Hn. unfold Core.segment_starts.
  destruct (n <=? L) eqn:E; [apply Z.leb_le in E; lia|]. clear E.
  set (st := Core.strided_starts (Z.to_nat n) n L s 0).
  assert (Hin : forall x, In x st <-> exists j, 0 <= j < n /\ x = j * s /\ x + L <= n).
  { intros x. unfold st. rewrite strided_starts_in by exact Hs.
    rewrite Z2Nat.id by lia. reflexivity. }
  assert (H0 : In 0 st) by (apply Hin; exists 0; lia).
  assert (Hhd : exists tl, st = 0 :: tl).
  { unfold st. destruct (Z.to_nat n) as [|f] eqn:Ef; [lia|].
    cbn [Core.strided_starts]. destruct (0 + L <=? n) eqn:E.
    - eexists. reflexivity.
    - apply Z.leb_gt in E. lia. }
  destruct Hhd as [tl Est].
  assert (Hrange : forall x, In x st -> 0 <= x /\ x + L <= n).
  { intros x Hx. apply Hin in Hx as (j & Hj & -> & Hfit). nia. }
  assert (Hall : forall j, 0 <= j -> j * s + L <= n -> In (j * s) st).
  { intros j Hj Hfit. apply Hin. exists j. nia. }
  destruct (List.last st 0 + L <? n) eqn:Elast.
  - exists tl. rewrite Est. split; [reflexivity|]. rewrite <- Est. split.
    + intros x Hx. apply in_app_or in Hx as [Hx|[<-|[]]]; [auto | lia].
    + intros j Hj Hfit. apply in_or_app. left. auto.
  - apply Z.ltb_ge in Elast.
    assert (Hne : st <> []) by (rewrite Est; discriminate).
    pose proof (app_removelast_last 0 Hne) as Esplit.
    assert (Hlast : In (List.last st 0) st).
    { rewrite Esplit at 2. apply in_or_app. right. left. reflexivity. }
    assert (El : List.last st 0 = n - L).
    { apply Hrange in Hlast. lia. }
    rewrite El in Esplit.
    destruct (removelast st) as [|y mid] eqn:Er.
    + (* a single start, 0, would mean n = L *)
      simpl in Esplit. rewrite Est in Esplit. injection Esplit as E0 _. lia.
    + rewrite Est in Esplit. simpl in Esplit. injection Esplit as <- ->.
      exists mid. rewrite Est. split; [reflexivity|]. rewrite <- Est.
      split; assumption.
Qed.

Lemma flag_segments_in n L : forall starts first o,
  In o starts ->
  exists sg, In sg (Core.flag_segments n L first starts)
             /\ Core.start_offset sg = o
             /\ Core.seg_length sg = Z.min L (n - o).
Proof.
  induction starts as [|o' starts IH]; intros first o Hin; [destruct Hin|].
  destruct Hin as [->|Hin].
  - eexists. split; [left; reflexivity|]. split; reflexivity.
  - destruct (IH false o Hin) as (sg & Hsg & Ho & Hl).
    exists sg. split; [right; exact Hsg|]. split; assumption.
Qed.

Lemma flag_segments_inv n L : forall starts first sg,
  In sg (Core.flag_segments n L first starts) ->
  In (Core.start_offset sg) starts
  /\ Core.seg_length sg = Z.min L (n - Core.start_offset sg).
Proof.
  induction starts as [|o starts IH]; intros first sg Hin; [destruct Hin|].
  destruct Hin as [<-|Hin].
  - split; [left; reflexivity | reflexivity].
  - destruct (IH false sg Hin) as [H1 H2]. split; [right; exact H1 | exact H2].
Qed.

Lemma flag_segments_last n L : forall pre first o,
  exists sg, In sg (Core.flag_segments n L first (pre ++ [o]))
             /\ Core.start_offset sg = o
             /\ Core.seg_length sg = Z.min L (n - o)
             /\ Core.is_last sg = true.
Proof.
  induction pre as [|o' pre IH]; intros first o.
  - eexists. split; [left; reflexivity|]. repeat split.
  - destruct (IH false o) as (sg & Hsg & Ho & Hl & Hlast).
    exists sg. split; [right; exact Hsg|]. repeat split; assumption.
Qed.

(** Effective margins are counts no larger than the configured margin;
    the first segment has no left margin, the last no right margin. *)
Lemma mask_bounds sg m :
  0 <= fst (Core.mask sg m) <= Z.max 0 m
  /\ 0 <= snd (Core.mask sg m) <= Z.max 0 m
  /\ (Core.is_first sg = true -> fst (Core.mask sg m) = 0)
  /\ (Core.is_last sg = true -> snd (Core.mask sg m) = 0).
Proof.
  unfold Core.mask. cbn [fst snd].
  destruct (Core.is_first sg), (Core.is_last sg);
    repeat split; intros; try discriminate; lia.
Qed.

Lemma contributes_intro sg mg i :
  Core.start_offset sg + fst mg <= i ->
  i < Core.start_offset sg + Core.seg_length sg - snd mg ->
  Core.contributes sg mg i = true.
Proof.
  intros H1 H2. unfold Core.contributes.
  apply andb_true_iff. split; [apply Z.leb_le | apply Z.ltb_lt]; lia.
Qed.

(** Every token index lies in the unmasked part of some segment. *)
Lemma coverage_geometric n L s m i :
  1 <= L -> 1 <= s -> s <= L - m - m -> s <= L ->
  0 <= i < n ->
  Exists (fun sg => Core.contributes sg (Core.mask sg m) i = true)
    (Core.flag_segments n L true (Core.segment_starts n L s)).
Proof.
  intros HL Hs Hm HsL Hi.
  set (m' := Z.max 0 m).
  assert (Hm' : 0 <= m' /\ s <= L - m' - m') by (unfold m'; lia).
  destruct (Z_le_gt_dec n L) as [Hshort|Hlong].
  - (* one segment, the whole Query *)
    unfold Core.segment_starts.
    destruct (n <=? L) eqn:E; [|apply Z.leb_gt in E; lia].
    cbn [Core.flag_segments]. apply Exists_cons_hd.
    unfold Core.contributes, Core.mask. cbn.
    apply andb_true_iff. split; [apply Z.leb_le | apply Z.ltb_lt]; lia.
  - destruct (segment_starts_long n L s HL Hs) as (mid & Est & Hrange & Hall);
      [lia|].
    apply List.Exists_exists.
    destruct (Z_lt_ge_dec i (L - m')) as [Hfirst|Hnotfirst].
    + (* the first segment *)
      rewrite Est. cbn [Core.flag_segments].
      eexists. split; [left; reflexivity|].
      match goal with |- Core.contributes ?sg _ _ = _ =>
        pose proof (mask_bounds sg m) as (Hl & Hr & Hf & _) end.
      apply contributes_intro; cbn [Core.start_offset Core.seg_length] in *.
      * rewrite Hf by reflexivity. lia.
      * lia.
    + destruct (Z_le_gt_dec (n - L + m') i) as [Hlastseg|Hmiddle].
      * (* the last, right-aligned segment *)
        rewrite Est. change (0 :: mid ++ [n - L]) with ((0 :: mid) ++ [n - L]).
        destruct (flag_segments_last n L (0 :: mid) true (n - L))
          as (sg & Hsg & Ho & Hlen & Hlast).
        exists sg. split; [exact Hsg|].
        pose proof (mask_bounds sg m) as (Hl & Hr & _ & Hla).
        apply contributes_intro; rewrite ?Ho, ?Hlen.
        -- lia.
        -- rewrite Hla by exact Hlast. lia.
      * (* a strided segment in between *)
        set (j := (i - m') / s).
        assert (Hj1 : s * j <= i - m') by (apply Z.mul_div_le; lia).
        assert (Hj2 : i - m' < s * Z.succ j) by (apply Z.mul_succ_div_gt; lia).
        assert (Hj0 : 0 <= j) by (apply Z.div_pos; lia).
        assert (Hfit : j * s + L <= n) by lia.
        destruct (flag_segments_in n L (Core.segment_starts n L s) true (j * s)
                    (Hall j Hj0 Hfit)) as (sg & Hsg & Ho & Hlen).
        exists sg. split; [exact Hsg|].
        pose proof (mask_bounds sg m) as (Hl & Hr & _ & _).
        apply contributes_intro; rewrite ?Ho, ?Hlen; lia.
Qed.

Lemma rmap_list_total {A B} (f : A -> result B) (l : list A) :
  (forall x, In x l -> exists y, f x = Ok y) ->
  exists ys, rmap_list f l = Ok ys /\ length ys = length l.
Proof.
  induction l as [|x l IH]; intros H.
  - exists []. split; reflexivity.
  - destruct (H x (or_introl eq_refl)) as [y Hy].
    destruct IH as (ys & Hys & Hlen); [intros z Hz; apply H; right; exact Hz|].
    exists (y :: ys). cbn [rmap_list rbind]. rewrite Hy. cbn [rbind].
    rewrite Hys. cbn [rbind]. split; [reflexivity | simpl; congruence].
Qed.

Section Aggregation.

Variables PV Label : Type.
Variable pv_mul : PV -> PV -> PV.
Variable normalize : PV -> PV.
Variable argmax : PV -> Label.

(** When the model returned one vector per token of every segment,
    an index some segment covers unmasked has a contribution. *)
Lemma contributions_nonempty m i (segs : list Core.Segment)
    (outs : list (list PV)) :
  Forall2 (fun sg out => Z.of_nat (length out) = Core.seg_length sg) segs outs ->
  Exists (fun sg => Core.contributes sg (Core.mask sg m) i = true) segs ->
  Core.contributions PV i (zip segs outs)
    (map (fun sg => Core.mask sg m) segs) <> [].
Proof.
  induction 1 as [|sg out segs outs Hlen _ IH]; intros Hex.
  - inversion Hex.
  - cbn [zip zip_with map Core.contributions].
    destruct (Core.contributes sg (Core.mask sg m) i) eqn:Ec.
    + pose proof (mask_bounds sg m) as (Hl & Hr & _ & _).
      unfold Core.contributes in Ec.
      apply andb_true_iff in Ec as [E1 E2].
      apply Z.leb_le in E1. apply Z.ltb_lt in E2.
      destruct (lookup_lt_is_Some_2 out (Z.to_nat (i - Core.start_offset sg)))
        as [v Hv]; [lia|].
      rewrite Hv. discriminate.
    + apply IH. inversion Hex; subst; [congruence | assumption].
Qed.

End Aggregation.

End CoreProperties.

(** C2.  With [1 <= step <= max_length] and
    [step <= max_length - margin - margin], the Segmenter succeeds and,
    after the Margin Mask has excluded the margins, every token index of
    the Query still lies in the unmasked part of at least one segment; so
    the Aggregator, given one probability vector per token of each
    segment, finds a contribution for every index and returns one label
    per token instead of a [CoverageError]. *)
Theorem coverage_after_margin_exclusion {Token PV Label : Type}
    (pv_mul : PV -> PV -> PV) (normalize : PV -> PV) (argmax : PV -> Label)
    (query : list Token) (max_length step margin : Z) :
  (1 <= max_length)%Z -> (1 <= step)%Z -> (step <= max_length)%Z ->
  (step <= max_length - margin - margin)%Z ->
  exists segs,
    Core.segment query max_length step = Ok segs
    /\ (forall i, (0 <= i < Z.of_nat (length query))%Z ->
          Exists (fun sg => Core.contributes sg (Core.mask sg margin) i = true) segs)
    /\ (forall outs,
          Forall2 (fun sg out => Z.of_nat (length out) = Core.seg_length sg)
            segs outs ->
          exists labels,
            Core.aggregate PV Label pv_mul normalize argmax (length query)
              (zip segs outs) (map (fun sg => Core.mask sg margin) segs)
            = Ok labels
            /\ length labels = length query).
Proof.
  intros HL Hs HsL Hm. eexists. split.
  { unfold Core.segment, Core.segmenter_config_invalid.
    replace (max_length <? 1)%Z with false by (symmetry; apply Z.ltb_ge; lia).
    replace (step >? max_length)%Z with false
      by (symmetry; rewrite Z.gtb_ltb; apply Z.ltb_ge; lia).
    replace (step <? 1)%Z with false by (symmetry; apply Z.ltb_ge; lia).
    reflexivity. }
  assert (Hcov : forall i, (0 <= i < Z.of_nat (length query))%Z ->
            Exists (fun sg => Core.contributes sg (Core.mask sg margin) i = true)
              (Core.flag_segments (Z.of_nat (length query)) max_length true
                 (Core.segment_starts (Z.of_nat (length query)) max_length step))).
  { intros i Hi. apply coverage_geometric; assumption. }
  split; [exact Hcov|].
  intros outs Hshape. unfold Core.aggregate.
  set (segs := Core.flag_segments (Z.of_nat (length query)) max_length true
                 (Core.segment_starts (Z.of_nat (length query)) max_length step))
    in *.
  destruct (rmap_list_total
              (Core.aggregate_index PV Label pv_mul normalize argmax
                 (zip segs outs) (map (fun sg => Core.mask sg margin) segs))
              (map Z.of_nat (seq 0 (length query)))) as (labels & Hl & Hlen).
  - intros i Hi. apply in_map_iff in Hi as (k & <- & Hk). apply in_seq in Hk.
    unfold Core.aggregate_index.
    pose proof (contributions_nonempty PV margin (Z.of_nat k) segs outs Hshape
                  (Hcov (Z.of_nat k) ltac:(lia))) as Hne.
    destruct (Core.contributions PV (Z.of_nat k) (zip segs outs)
                (map (fun sg => Core.mask sg margin) segs)) as [|v vs];
      [congruence|].
    eexists. reflexivity.
  - exists labels. split; [exact Hl|].
    rewrite Hlen, length_map, length_seq. reflexivity.
Qed.

Lemma coverage_after_margin_exclusion_witness :
  ((1 <= 5)%Z /\ (1 <= 2)%Z /\ (2 <= 5)%Z /\ (2 <= 5 - 1 - 1)%Z)
  /\ exists segs,
       Core.segment sample_query 5 2 = Ok segs
       /\ (forall i, (0 <= i < Z.of_nat (length sample_query))%Z ->
             Exists (fun sg => Core.contributes sg (Core.mask sg 1) i = true) segs)
       /\ (forall outs,
             Forall2 (fun sg out => Z.of_nat (length out) = Core.seg_length sg)
               segs outs ->
             exists labels,
               Core.aggregate nat nat Nat.mul id id (length sample_query)
                 (zip segs outs) (map (fun sg => Core.mask sg 1) segs)
               = Ok labels
               /\ length labels = length sample_query).
Proof.
  split; [lia|].
  apply (coverage_after_margin_exclusion Nat.mul id id sample_query 5 2 1); lia.
Defined.

(** C6.  The Segmenter raises [ConfigurationError] exactly when
    [max_length < 1] or [step > max_length] or [step < 1]; it raises
    nothing else; and with [step > max_length] it returns no segment
    list at all. *)
Theorem segmenter_configuration_error {Token : Type}
    (query : list Token) (max_length step : Z) :
  (Core.segment query max_length step = Raise ConfigurationError
   <-> (max_length < 1 \/ step > max_length \/ step < 1)%Z)
  /\ (forall e, Core.segment query max_length step = Raise e
                -> e = ConfigurationError)
  /\ ((step > max_length)%Z
      -> forall segs, Core.segment query max_length step <> Ok segs).
Proof.
  unfold Core.segment, Core.segmenter_config_invalid.
  destruct (max_length <? 1)%Z eqn:E1;
    destruct (step >? max_length)%Z eqn:E2;
    destruct (step <? 1)%Z eqn:E3; cbn [orb];
    rewrite ?Z.ltb_lt, ?Z.ltb_ge in E1, E3;
    rewrite Z.gtb_ltb in E2; rewrite ?Z.ltb_lt, ?Z.ltb_ge in E2;
    (split; [split; [intros H; try discriminate H; lia | intros; try reflexivity; lia]
            | split; [intros e H; congruence | intros H segs; try discriminate; lia]]).
Qed.

Lemma segmenter_configuration_error_witness :
  Core.segment sample_query 3 4 = Raise ConfigurationError.
Proof.
  apply (proj2 (proj1 (segmenter_configuration_error sample_query 3 4))).
  right. left. lia.
Defined.

(** C7.  With a valid Segmenter configuration the empty Query is split
    into one empty segment (first and last at once) and aggregated to
    the empty label sequence, without any error; yet no segment of a
    non-empty Query has length zero. *)
Theorem empty_query_is_not_an_error {Token PV Label : Type}
    (pv_mul : PV -> PV -> PV) (normalize : PV -> PV) (argmax : PV -> Label)
    (max_length step : Z) :
  (1 <= max_length)%Z -> (1 <= step)%Z -> (step <= max_length)%Z ->
  Core.segment (@nil Token) max_length step
  = Ok [ {| Core.start_offset := 0; Core.seg_length := 0;
            Core.is_first := true; Core.is_last := true |} ]
  /\ (forall outputs margins,
        Core.aggregate PV Label pv_mul normalize argmax 0 outputs margins = Ok [])
  /\ (forall (query : list Token) segs,
        query <> [] ->
        Core.segment query max_length step = Ok segs ->
        Forall (fun sg => (1 <= Core.seg_length sg)%Z) segs).
Proof.
  intros HL Hs HsL.
  assert (Hvalid : Core.segmenter_config_invalid max_length step = false).
  { unfold Core.segmenter_config_invalid.
    replace (max_length <? 1)%Z with false by (symmetry; apply Z.ltb_ge; lia).
    replace (step >? max_length)%Z with false
      by (symmetry; rewrite Z.gtb_ltb; apply Z.ltb_ge; lia).
    replace (step <? 1)%Z with false by (symmetry; apply Z.ltb_ge; lia).
    reflexivity. }
  split; [|split].
  - unfold Core.segment. rewrite Hvalid.
    change (Z.of_nat (length (@nil Token))) with 0%Z.
    unfold Core.segment_starts.
    replace (0 <=? max_length)%Z with true by (symmetry; apply Z.leb_le; lia).
    cbn [Core.flag_segments].
    replace (Z.min max_length (0 - 0)) with 0%Z by lia. reflexivity.
  - intros outputs margins. reflexivity.
  - intros query segs Hq Hseg. unfold Core.segment in Hseg.
    rewrite Hvalid in Hseg. apply Ok_inj in Hseg. subst segs.
    set (n := Z.of_nat (length query)).
    assert (Hn : (1 <= n)%Z).
    { unfold n. destruct query; [congruence | simpl; lia]. }
    apply Forall_forall. intros sg Hsg.
    apply list_elem_of_In, flag_segments_inv in Hsg as [Hin Hlen].
    rewrite Hlen.
    destruct (Z_le_gt_dec n max_length) as [Hshort|Hlong].
    + unfold Core.segment_starts in Hin.
      replace (n <=? max_length)%Z with true in Hin
        by (symmetry; apply Z.leb_le; lia).
      destruct Hin as [<-|[]]. lia.
    + destruct (segment_starts_long n max_length step HL Hs ltac:(lia))
        as (mid & _ & Hrange & _).
      apply Hrange in Hin. lia.
Qed.

Lemma empty_query_is_not_an_error_witness :
  ((1 <= 5)%Z /\ (1 <= 2)%Z /\ (2 <= 5)%Z)
  /\ Core.segment (@nil nat) 5 2
     = Ok [ {| Core.start_offset := 0; Core.seg_length := 0;
               Core.is_first := true; Core.is_last := true |} ]
  /\ (forall outputs margins,
        Core.aggregate nat nat Nat.mul id id 0 outputs margins = Ok [])
  /\ (forall (query : list nat) segs,
        query <> [] ->
        Core.segment query 5 2 = Ok segs ->
        Forall (fun sg => (1 <= Core.seg_length sg)%Z) segs).
Proof.
  split; [lia|].
  apply (empty_query_is_not_an_error Nat.mul id id 5 2); lia.
Defined.

(** C4.  An invalid configuration makes the pipeline raise
    [ConfigurationError] with no model call made and no text produced;
    and when the call of [model.add_punctuation_capitalization] raises
    (this error or any other), [main] ends with the exception and its
    events contain no directory creation, no file opening and no write. *)
Theorem configuration_error_leaves_no_output {Token PV Label : Type}
    (pv_mul : PV -> PV -> PV) (normalize : PV -> PV) (argmax : PV -> Label)
    (tokenize : str -> result (list Token))
    (detokenize : list Token -> list Label -> str)
    (predict : list (list Token) -> result (list (list PV)))
    (queries : list str) (max_length step margin : Z) (batch_size : positive)
    (model : list jvalue -> Infer.apc_kwargs -> result (list str))
    (json_loads : str -> result jdoc) (json_dumps : dict -> str)
    (files : gmap str (list str)) (args : Infer.Namespace)
    (texts : list jvalue) (manifest : option (list dict * str))
    (e : exn) (fuel : nat) :
  Core.config_invalid max_length step margin = true ->
  Infer.read_texts json_loads files args = Ok (texts, manifest) ->
  model texts (Infer.kwargs_of args) = Raise e ->
  Core.restore Token PV Label pv_mul normalize argmax tokenize detokenize predict
    queries max_length step margin batch_size
  = ([], Raise ConfigurationError)
  /\ exists trace,
       Infer.main model json_loads json_dumps files args fuel
       = Some (trace, Raise e)
       /\ List.filter Infer.is_output_event trace = [].
Proof.
  intros Hcfg Hread Hmodel. split.
  - unfold Core.restore. rewrite Hcfg. reflexivity.
  - exists [Infer.EvModelCall texts (Infer.kwargs_of args)].
    split; [|reflexivity].
    unfold Infer.main. rewrite Hread, Hmodel. reflexivity.
Qed.

Lemma configuration_error_leaves_no_output_witness :
  Core.config_invalid 64 80 16 = true
  /\ Infer.read_texts no_json_loads pi_files bad_step_args
     = Ok ([JStr (py_str "pi is 3 point 1 4")], None)
  /\ strict_model [JStr (py_str "pi is 3 point 1 4")] (Infer.kwargs_of bad_step_args)
     = Raise ConfigurationError
  /\ Core.restore str nat nat Nat.mul id id sample_tokenize sample_detokenize
       sample_predict [py_str "pi is 3 point 1 4"] 64 80 16 128
     = ([], Raise ConfigurationError)
  /\ exists trace,
       Infer.main strict_model no_json_loads no_json_dumps pi_files
         bad_step_args 5
       = Some (trace, Raise ConfigurationError)
       /\ List.filter Infer.is_output_event trace = [].
Proof.
  split; [reflexivity|].
  split; [vm_compute; reflexivity|].
  split; [reflexivity|].
  apply (configuration_error_leaves_no_output Nat.mul id id sample_tokenize
           sample_detokenize sample_predict [py_str "pi is 3 point 1 4"]
           64 80 16 128 strict_model no_json_loads no_json_dumps pi_files
           bad_step_args [JStr (py_str "pi is 3 point 1 4")] None
           ConfigurationError 5);
    [reflexivity | vm_compute; reflexivity | reflexivity].
Defined.

(** ** The core on sample Queries *)

(** Five tokens, [max_length = 3], [step = 2]: the windows [0:3] and
    [2:5]. *)
Example segment_five_tokens :
  Core.segment (seq 0 5) 3 2
  = Ok [ {| Core.start_offset := 0; Core.seg_length := 3;
            Core.is_first := true; Core.is_last := false |};
         {| Core.start_offset := 2; Core.seg_length := 3;
            Core.is_first := false; Core.is_last := true |} ].
Proof. reflexivity. Qed.

(** Six tokens: the strided windows [0:3] and [2:5] miss the last token,
    so a final window [3:6] is right-aligned to the end. *)
Example segment_six_tokens :
  Core.segment (seq 0 6) 3 2
  = Ok [ {| Core.start_offset := 0; Core.seg_length := 3;
            Core.is_first := true; Core.is_last := false |};
         {| Core.start_offset := 2; Core.seg_length := 3;
            Core.is_first := false; Core.is_last := false |};
         {| Core.start_offset := 3; Core.seg_length := 3;
            Core.is_first := false; Core.is_last := true |} ].
Proof. reflexivity. Qed.

(** A single token: one segment, no margin. *)
Example segment_single_token :
  Core.segment [7%nat] 3 2
  = Ok [ {| Core.start_offset := 0; Core.seg_length := 1;
            Core.is_first := true; Core.is_last := true |} ]
  /\ Core.mask {| Core.start_offset := 0; Core.seg_length := 1;
                  Core.is_first := true; Core.is_last := true |} 1 = (0%Z, 0%Z).
Proof. split; reflexivity. Qed.

(** The whole pipeline on three texts, the second one empty: four model
    calls of at most two segments, one text out per text in. *)
Example restore_three_texts :
  Core.restore str nat nat Nat.mul id id sample_tokenize sample_detokenize
    sample_predict [py_str "a b c d e f g"; []; py_str "x  y"] 3 1 1 2
  = ([ [py_str <$> ["a"; "b"; "c"]; py_str <$> ["b"; "c"; "d"]];
       [py_str <$> ["c"; "d"; "e"]; py_str <$> ["d"; "e"; "f"]];
       [py_str <$> ["e"; "f"; "g"]; []];
       [py_str <$> ["x"; "y"]] ]%string,
     Ok [py_str "a b c d e f g"; []; py_str "x y"]).
Proof. vm_compute. reflexivity. Qed.

(** ** punctuate_capitalize_infer.py: [main] ends *)

(** What [re.sub] hands to the replacement function is a word of the
    pattern. *)
Lemma longest_match_sound s : forall r n,
  longest_match r s = Some n -> re_match r (take n s).
Proof.
  induction s as [|c s IH]; intros r n; cbn [longest_match].
  - destruct (nullable r) eqn:E; [|discriminate].
    intros H. apply Some_inj in H. subst n. apply nullable_sound. exact E.
  - destruct (longest_match (deriv c r) s) as [k|] eqn:Ek.
    + intros H. apply Some_inj in H. subst n. cbn [take firstn].
      apply deriv_sound. apply IH. exact Ek.
    + destruct (nullable r) eqn:E; [|discriminate].
      intros H. apply Some_inj in H. subst n. apply nullable_sound. exact E.
Qed.

Lemma re_sub_go_total r (repl : str -> result str) :
  (forall m, re_match r m -> exists t, repl m = Ok t) ->
  forall s skip, exists t, re_sub_go r repl skip s = Ok t.
Proof.
  intros Hrepl. induction s as [|c s IH]; intros skip; [eexists; reflexivity|].
  cbn [re_sub_go]. destruct skip as [|k]; [|apply IH].
  destruct (longest_match r (c :: s)) as [[|n]|] eqn:E.
  - destruct (IH 0%nat) as [t ->]. eexists. reflexivity.
  - destruct (Hrepl _ (longest_match_sound _ _ _ E)) as [out ->].
    destruct (IH n) as [t ->]. eexists. reflexivity.
  - destruct (IH 0%nat) as [t ->]. eexists. reflexivity.
Qed.

(** [decimal_repl] never fails on a match: [parts[0]] exists. *)
Lemma decimal_repl_total m : re_match DECIMAL m -> exists t, decimal_repl m = Ok t.
Proof.
  intros H. apply decimal_match_shape in H.
  destruct H as (ds & p & w & gs & -> & Hne & Hds & Hp & Hword & Hw & _ & Hgs).
  assert (Hw_ne : w <> []) by (intros ->; discriminate Hword).
  eexists. apply decimal_repl_shape; assumption.
Qed.

Lemma fix_decimals_text_total text : exists t, fix_decimals_text text = Ok t.
Proof.
  unfold fix_decimals_text, re_sub.
  destruct (re_sub_go_total SPACE_DEDUP (fun _ => Ok (py_str " "))
              ltac:(intros; eexists; reflexivity) text 0%nat) as [t ->].
  cbn [rbind]. apply re_sub_go_total. exact decimal_repl_total.
Qed.

Lemma decimals_loop_never_raises : forall fuel i (l : list str) e,
  for_enumerate Infer.decimals_body fuel i l <> Some (Raise e).
Proof.
  induction fuel as [|fuel IH]; intros i l e; [discriminate|].
  cbn [for_enumerate]. destruct (l !! i) as [x|]; [|discriminate].
  unfold Infer.decimals_body at 1.
  destruct (fix_decimals_text_total x) as [t ->]. cbn [rbind]. apply IH.
Qed.

(** Unless the first loop meets a text without a letter, [main] ends
    once the model has returned, and it hands exactly as many texts to
    the output step as the model returned. *)
Lemma main_ends
    (model : list jvalue -> Infer.apc_kwargs -> result (list str))
    (json_loads : str -> result jdoc) (json_dumps : dict -> str)
    (files : gmap str (list str)) (args : Infer.Namespace)
    (texts : list jvalue) (manifest : option (list dict * str))
    (processed : list str) :
  Infer.read_texts json_loads files args = Ok (texts, manifest) ->
  model texts (Infer.kwargs_of args) = Ok processed ->
  (Infer.make_queries_contain_intact_sentences args = true ->
   forall x, In x processed -> Infer.intact_sentence args x <> None) ->
  exists processed',
    length processed' = length processed
    /\ Infer.main model json_loads json_dumps files args (S (length processed))
       = Some (Infer.EvModelCall texts (Infer.kwargs_of args)
                 :: fst (Infer.write_output json_dumps args manifest processed'),
               snd (Infer.write_output json_dumps args manifest processed')).
Proof.
  intros Hread Hmodel Hall.
  destruct (postprocess_ends args processed Hall) as (r & Hrun & Hlen).
  assert (Hok : exists processed', r = Ok processed').
  { destruct r as [l'|e]; [eauto|]. exfalso.
    unfold Infer.postprocess in Hrun.
    destruct (if Infer.make_queries_contain_intact_sentences args
              then for_enumerate (Infer.intact_body args) (S (length processed)) 0 processed
              else Some (Ok processed)) as [[l1|e1]|] eqn:E1; [| |discriminate].
    - destruct (Infer.fix_decimals args && negb (Infer.save_labels_instead_of_text args));
        [|discriminate].
      exact (decimals_loop_never_raises _ _ _ _ Hrun).
    - destruct (Infer.make_queries_contain_intact_sentences args); [|discriminate].
      destruct (intact_loop_ends args (length processed) 0 processed ltac:(lia))
        as (l' & Hl' & _).
      + intros j x _ Hx. apply Hall; [reflexivity|].
        apply list_elem_of_In. eapply list_elem_of_lookup_2. exact Hx.
      + congruence. }
  destruct Hok as [processed' ->].
  exists processed'. split; [apply Hlen; reflexivity|].
  unfold Infer.main. rewrite Hread, Hmodel, Hrun.
  destruct (Infer.write_output json_dumps args manifest processed'). reflexivity.
Qed.

(** * Further properties of the scripts *)

(** ** Strings once more *)

Lemma drop_while_nil_iff {A} (p : A -> bool) (l : list A) :
  drop_while p l = [] <-> forallb p l = true.
Proof.
  induction l as [|x l IH]; simpl; [tauto|].
  destruct (p x); simpl; [exact IH|]. split; discriminate.
Qed.

Lemma take_while_all {A} (p : A -> bool) (l : list A) :
  forallb p (take_while p l) = true.
Proof.
  induction l as [|x l IH]; simpl; [reflexivity|].
  destruct (p x) eqn:E; simpl; [rewrite E; exact IH | reflexivity].
Qed.

Lemma take_while_drop_while {A} (p : A -> bool) (l : list A) :
  l = take_while p l ++ drop_while p l.
Proof.
  induction l as [|x l IH]; simpl; [reflexivity|].
  destruct (p x); simpl; congruence.
Qed.

Lemma forallb_rev {A} (p : A -> bool) (l : list A) :
  forallb p (rev l) = forallb p l.
Proof.
  induction l as [|x l IH]; simpl; [reflexivity|].
  rewrite forallb_app, IH. simpl. rewrite andb_true_r. apply andb_comm.
Qed.

(** [strip] removes whitespace from the two ends and nothing else. *)
Lemma strip_decompose (s : str) :
  exists a b, s = a ++ strip s ++ b
              /\ forallb is_space a = true /\ forallb is_space b = true.
Proof.
  unfold strip, rstrip, lstrip.
  set (m := drop_while is_space s).
  exists (take_while is_space s), (rev (take_while is_space (rev m))).
  split; [|split].
  - rewrite <- rev_app_distr, <- take_while_drop_while, rev_involutive.
    apply take_while_drop_while.
  - apply take_while_all.
  - rewrite forallb_rev. apply take_while_all.
Qed.

Lemma lstrip_fixed c (s : str) : is_space c = false -> lstrip (c :: s) = c :: s.
Proof. intros H. unfold lstrip. simpl. rewrite H. reflexivity. Qed.

Lemma rstrip_fixed (body : str) l :
  is_space l = false -> rstrip (body ++ [l]) = body ++ [l].
Proof.
  intros H. unfold rstrip. rewrite rev_app_distr. simpl. rewrite H.
  simpl. rewrite rev_involutive. reflexivity.
Qed.

Lemma space_not_letter c : is_space c = true -> is_letter c = false.
Proof. ascii_cases c; vm_compute; congruence. Qed.

Lemma sentence_end_not_space c : is_sentence_end c = true -> is_space c = false.
Proof. ascii_cases c; vm_compute; congruence. Qed.

Lemma upper_char_upper c : is_ascii_lower c = true -> is_ascii_upper (upper_char c) = true.
Proof. ascii_cases c; vm_compute; congruence. Qed.

Lemma lower_not_O c : is_ascii_lower c = true -> eqc c "O" = false.
Proof. ascii_cases c; vm_compute; congruence. Qed.

Lemma letter_cases c :
  is_letter c = true -> is_ascii_lower c = false -> is_ascii_upper c = true.
Proof.
  unfold is_letter. intros H E. rewrite E, orb_false_r in H. exact H.
Qed.

Lemma upper_is_letter c : is_ascii_upper c = true -> is_letter c = true.
Proof. unfold is_letter. intros ->. reflexivity. Qed.

(** The pattern [[^a-zA-Z]$] never eats a first letter. *)
Lemma right_strip_keeps_first_letter c (rest : str) :
  is_letter c = true ->
  exists rest', RIGHT_PUNCTUATION_STRIP_sub (c :: rest) = c :: rest'.
Proof.
  intros Hc. unfold RIGHT_PUNCTUATION_STRIP_sub.
  destruct (rev rest) as [|l r0] eqn:Er.
  - assert (rest = []) as -> by (rewrite <- (rev_involutive rest), Er; reflexivity).
    simpl. rewrite Hc. eauto.
  - assert (Erest : rest = rev r0 ++ [l])
      by (rewrite <- (rev_involutive rest), Er; reflexivity).
    assert (Erev : rev (c :: rest) = l :: r0 ++ [c]).
    { simpl. rewrite Er. reflexivity. }
    rewrite Erev.
    destruct (is_letter l); [eauto|].
    destruct (eqc l "010").
    + destruct r0 as [|x r0']; simpl.
      * rewrite Hc. simpl. eauto.
      * destruct (is_letter x).
        -- rewrite rev_app_distr. simpl. eauto.
        -- rewrite rev_app_distr. simpl. eauto.
    + rewrite rev_app_distr. simpl. eauto.
Qed.

(** ** punctuate_capitalize_infer.py: one text in the loop of lines 248-261 *)

(** What line 261 stores starts with a letter, an upper-case one unless
    labels are saved, and ends with one of ['.?!']. *)
Lemma intact_sentence_some args (text t : str) :
  Infer.intact_sentence args text = Some t ->
  exists c rest body l,
    t = c :: rest
    /\ is_letter c = true
    /\ (Infer.save_labels_instead_of_text args = false -> is_ascii_upper c = true)
    /\ t = body ++ [l]
    /\ is_sentence_end l = true.
Proof.
  unfold Infer.intact_sentence.
  destruct (LEFT_PUNCTUATION_STRIP_sub (strip text)) as [|c0 rest0] eqn:E;
    [discriminate|].
  assert (Hc0 : is_letter c0 = true).
  { unfold LEFT_PUNCTUATION_STRIP_sub in E. apply drop_while_head in E.
    apply negb_false_iff in E. exact E. }
  cbv zeta.
  set (text1 := if is_ascii_lower c0
                then if Infer.save_labels_instead_of_text args
                     then if eqc c0 "O"
                          then (if Infer.no_all_upper_label args
                                then "U"%char else "u"%char) :: rest0
                          else c0 :: rest0
                     else upper_char c0 :: rest0
                else c0 :: rest0).
  assert (H1 : exists c1, text1 = c1 :: rest0 /\ is_letter c1 = true
                  /\ (Infer.save_labels_instead_of_text args = false
                      -> is_ascii_upper c1 = true)).
  { unfold text1. destruct (is_ascii_lower c0) eqn:El.
    - destruct (Infer.save_labels_instead_of_text args).
      + rewrite (lower_not_O c0 El). exists c0. repeat split; [exact Hc0 | discriminate].
      + exists (upper_char c0). split; [reflexivity|].
        pose proof (upper_char_upper c0 El) as Hu.
        split; [apply upper_is_letter; exact Hu | intros _; exact Hu].
    - exists c0. split; [reflexivity|]. split; [exact Hc0|].
      intros _. apply letter_cases; assumption. }
  destruct H1 as (c1 & E1 & Hc1 & Hup). rewrite E1.
  unfold last_char. destruct (rev (c1 :: rest0)) as [|l r] eqn:Er.
  { exfalso. apply (f_equal (@length ascii)) in Er.
    rewrite length_rev in Er. discriminate Er. }
  cbn [head].
  assert (Eb : c1 :: rest0 = rev r ++ [l]).
  { rewrite <- (rev_involutive (c1 :: rest0)), Er. reflexivity. }
  fold (is_sentence_end l).
  destruct (is_sentence_end l) eqn:Eend; intros H; apply Some_inj in H; subst t.
  - exists c1, rest0, (rev r), l. repeat split; assumption.
  - destruct (right_strip_keeps_first_letter c1 rest0 Hc1) as [rest' ->].
    exists c1, (rest' ++ py_str "."), (c1 :: rest'), "."%char.
    repeat split; assumption.
Qed.

(** A text of that form is stored as it is. *)
Lemma intact_sentence_fixed args (c : ascii) (rest body : str) (l : ascii) :
  is_letter c = true ->
  (Infer.save_labels_instead_of_text args = false -> is_ascii_upper c = true) ->
  c :: rest = body ++ [l] ->
  is_sentence_end l = true ->
  Infer.intact_sentence args (c :: rest) = Some (c :: rest).
Proof.
  intros Hc Hup Eb Hl. unfold Infer.intact_sentence.
  assert (Es : strip (c :: rest) = c :: rest).
  { unfold strip. rewrite lstrip_fixed by (apply letter_not_space; exact Hc).
    rewrite Eb. apply rstrip_fixed, sentence_end_not_space, Hl. }
  rewrite Es. unfold LEFT_PUNCTUATION_STRIP_sub. cbn [drop_while].
  rewrite Hc. cbn [negb]. cbv zeta.
  assert (E2 : (if is_ascii_lower c
                then if Infer.save_labels_instead_of_text args
                     then if eqc c "O"
                          then (if Infer.no_all_upper_label args
                                then "U"%char else "u"%char) :: rest
                          else c :: rest
                     else upper_char c :: rest
                else c :: rest) = c :: rest).
  { destruct (is_ascii_lower c) eqn:El; [|reflexivity].
    destruct (Infer.save_labels_instead_of_text args).
    - rewrite (lower_not_O c El). reflexivity.
    - rewrite (lower_not_upper c El) in Hup. discriminate (Hup eq_refl). }
  rewrite E2. unfold last_char. rewrite Eb, rev_app_distr. cbn [rev app head].
  fold (is_sentence_end l). rewrite Hl. reflexivity.
Qed.

(** X1.  Whatever line 261 stores ends with '.', '?' or '!' and starts
    with an ASCII letter; unless labels are saved instead of text, that
    letter is upper case. *)
Theorem intact_sentence_is_a_sentence args (text t : str) :
  Infer.intact_sentence args text = Some t ->
  (exists l, last_char t = Some l /\ is_sentence_end l = true)
  /\ (exists c, head t = Some c
                /\ is_letter c = true
                /\ (Infer.save_labels_instead_of_text args = false
                    -> is_ascii_upper c = true)).
Proof.
  intros H. apply intact_sentence_some in H.
  destruct H as (c & rest & body & l & Et & Hc & Hup & Eb & Hl). split.
  - exists l. split; [|exact Hl].
    unfold last_char. rewrite Eb, rev_app_distr. reflexivity.
  - exists c. rewrite Et. repeat split; assumption.
Qed.

Lemma intact_sentence_is_a_sentence_witness :
  Infer.intact_sentence sample_args (py_str "  ...hello world, ")
  = Some (py_str "Hello world.")
  /\ (exists l, last_char (py_str "Hello world.") = Some l
                /\ is_sentence_end l = true)
  /\ (exists c, head (py_str "Hello world.") = Some c
                /\ is_letter c = true
                /\ (Infer.save_labels_instead_of_text sample_args = false
                    -> is_ascii_upper c = true)).
Proof.
  split; [reflexivity|].
  apply (intact_sentence_is_a_sentence sample_args (py_str "  ...hello world, ")).
  reflexivity.
Defined.

(** X2.  The clean-up of lines 249-260 is idempotent: a text it has
    produced is left as it is when cleaned again. *)
Theorem intact_sentence_idempotent args (text t : str) :
  Infer.intact_sentence args text = Some t ->
  Infer.intact_sentence args t = Some t.
Proof.
  intros H. apply intact_sentence_some in H.
  destruct H as (c & rest & body & l & Et & Hc & Hup & Eb & Hl).
  rewrite Et in *. apply (intact_sentence_fixed args c rest body l); assumption.
Qed.

Lemma intact_sentence_idempotent_witness :
  Infer.intact_sentence sample_args (py_str "  ...hello world, ")
  = Some (py_str "Hello world.")
  /\ Infer.intact_sentence sample_args (py_str "Hello world.")
     = Some (py_str "Hello world.").
Proof.
  split; [reflexivity|].
  apply (intact_sentence_idempotent sample_args (py_str "  ...hello world, ")).
  reflexivity.
Defined.

Lemma intact_none_iff args (text : str) :
  Infer.intact_sentence args text = None
  <-> forallb (fun c => negb (is_letter c)) text = true.
Proof.
  assert (Hleft : LEFT_PUNCTUATION_STRIP_sub (strip text) = []
                  <-> forallb (fun c => negb (is_letter c)) text = true).
  { unfold LEFT_PUNCTUATION_STRIP_sub. rewrite drop_while_nil_iff.
    destruct (strip_decompose text) as (a & b & E & Ha & Hb).
    assert (Hsp : forall u, forallb is_space u = true ->
                            forallb (fun c => negb (is_letter c)) u = true).
    { intros u. apply forallb_imp. intros x Hx.
      rewrite (space_not_letter x Hx). reflexivity. }
    rewrite E at 2. rewrite !forallb_app, (Hsp a Ha), (Hsp b Hb).
    rewrite andb_true_r. reflexivity. }
  rewrite <- Hleft. unfold Infer.intact_sentence.
  destruct (LEFT_PUNCTUATION_STRIP_sub (strip text)) as [|c rest].
  - split; reflexivity.
  - cbv zeta. split; discriminate.
Qed.

(** X3.  The loop takes its [if not text] branch, the one that appends
    to the list, exactly for the texts without an ASCII letter (the
    empty text among them), whatever the options. *)
Theorem intact_sentence_none_iff_no_letter args (text : str) :
  Infer.intact_sentence args text = None
  <-> forallb (fun c => negb (is_letter c)) text = true.
Proof. apply intact_none_iff. Qed.

Lemma for_enumerate_ext {A} (body1 body2 : nat -> A -> list A -> result (list A)) :
  (forall i x l, body1 i x l = body2 i x l) ->
  forall fuel i l, for_enumerate body1 fuel i l = for_enumerate body2 fuel i l.
Proof.
  intros Hext. induction fuel as [|fuel IH]; intros i l; [reflexivity|].
  cbn [for_enumerate]. destruct (l !! i) as [x|]; [|reflexivity].
  rewrite Hext. destruct (body2 i x l); [apply IH | reflexivity].
Qed.

(** The test [text[0] == 'O'] of line 255 sits under
    [text[0].islower()], so the only line that reads
    [--no_all_upper_label] is never reached. *)
Lemma intact_sentence_ignores_no_all_upper_label b args (text : str) :
  Infer.intact_sentence (with_no_all_upper_label b args) text
  = Infer.intact_sentence args text.
Proof.
  unfold Infer.intact_sentence.
  destruct (LEFT_PUNCTUATION_STRIP_sub (strip text)) as [|c rest]; [reflexivity|].
  cbv zeta. destruct (is_ascii_lower c) eqn:El; [|reflexivity].
  cbn [with_no_all_upper_label Infer.save_labels_instead_of_text].
  destruct (Infer.save_labels_instead_of_text args); [|reflexivity].
  rewrite (lower_not_O c El). reflexivity.
Qed.

(** X4.  [--no_all_upper_label] has no effect at all: with or without
    it [main] does the same and writes the same. *)
Theorem main_ignores_no_all_upper_label
    (model : list jvalue -> Infer.apc_kwargs -> result (list str))
    (json_loads : str -> result jdoc) (json_dumps : dict -> str)
    (files : gmap str (list str)) (args : Infer.Namespace)
    (b : bool) (fuel : nat) :
  Infer.main model json_loads json_dumps files
    (with_no_all_upper_label b args) fuel
  = Infer.main model json_loads json_dumps files args fuel.
Proof.
  assert (Hpost : forall texts,
             Infer.postprocess (with_no_all_upper_label b args) fuel texts
             = Infer.postprocess args fuel texts).
  { intros texts. unfold Infer.postprocess.
    cbn [with_no_all_upper_label Infer.make_queries_contain_intact_sentences
         Infer.fix_decimals Infer.save_labels_instead_of_text].
    rewrite (for_enumerate_ext (Infer.intact_body (with_no_all_upper_label b args))
               (Infer.intact_body args)); [reflexivity|].
    intros i x l. unfold Infer.intact_body.
    rewrite intact_sentence_ignores_no_all_upper_label. reflexivity. }
  unfold Infer.main.
  change (Infer.read_texts json_loads files (with_no_all_upper_label b args))
    with (Infer.read_texts json_loads files args).
  change (Infer.kwargs_of (with_no_all_upper_label b args))
    with (Infer.kwargs_of args).
  destruct (Infer.read_texts json_loads files args) as [[texts manifest]|e];
    [|reflexivity].
  destruct (model texts (Infer.kwargs_of args)) as [processed|e]; [|reflexivity].
  rewrite Hpost.
  destruct (Infer.postprocess args fuel processed) as [[processed'|e]|];
    reflexivity.
Qed.

(** ** punctuate_capitalize_infer.py: what a run depends on *)

(** The clean-up of lines 249-260 reads one option only. *)
Lemma intact_sentence_same_labels args1 args2 (text : str) :
  Infer.save_labels_instead_of_text args1 = Infer.save_labels_instead_of_text args2 ->
  Infer.intact_sentence args1 text = Infer.intact_sentence args2 text.
Proof.
  intros Hlabels. unfold Infer.intact_sentence.
  destruct (LEFT_PUNCTUATION_STRIP_sub (strip text)) as [|c rest]; [reflexivity|].
  cbv zeta. destruct (is_ascii_lower c) eqn:El; [|reflexivity].
  rewrite Hlabels.
  destruct (Infer.save_labels_instead_of_text args2); [|reflexivity].
  rewrite (lower_not_O c El). reflexivity.
Qed.

Lemma postprocess_same_configuration args1 args2 fuel (texts : list str) :
  same_configuration args1 args2 ->
  Infer.postprocess args1 fuel texts = Infer.postprocess args2 fuel texts.
Proof.
  intros (Hkw & Hintact & Hfix & _ & _).
  apply (f_equal Infer.kw_return_labels) in Hkw.
  cbn [Infer.kwargs_of Infer.kw_return_labels] in Hkw.
  unfold Infer.postprocess. rewrite Hintact, Hfix, Hkw.
  rewrite (for_enumerate_ext (Infer.intact_body args1) (Infer.intact_body args2));
    [reflexivity|].
  intros i x l. unfold Infer.intact_body.
  rewrite (intact_sentence_same_labels args1 args2 x Hkw). reflexivity.
Qed.

Lemma write_output_same_configuration json_dumps args1 args2 manifest
    (processed_texts : list str) :
  same_configuration args1 args2 ->
  Infer.write_output json_dumps args1 manifest processed_texts
  = Infer.write_output json_dumps args2 manifest processed_texts.
Proof.
  intros (_ & _ & _ & Hom & Hot). unfold Infer.write_output.
  rewrite Hom, Hot. reflexivity.
Qed.

(** Two runs that read the same texts, have the same configuration and
    get the same answer from the model are in the same state after any
    number of loop rounds. *)
Lemma main_same_inputs
    (model1 model2 : list jvalue -> Infer.apc_kwargs -> result (list str))
    (json_loads1 json_loads2 : str -> result jdoc) (json_dumps : dict -> str)
    (files1 files2 : gmap str (list str)) (args1 args2 : Infer.Namespace)
    (fuel : nat) :
  Infer.read_texts json_loads1 files1 args1
  = Infer.read_texts json_loads2 files2 args2 ->
  same_configuration args1 args2 ->
  (forall texts manifest,
     Infer.read_texts json_loads1 files1 args1 = Ok (texts, manifest) ->
     model1 texts (Infer.kwargs_of args1) = model2 texts (Infer.kwargs_of args1)) ->
  Infer.main model1 json_loads1 json_dumps files1 args1 fuel
  = Infer.main model2 json_loads2 json_dumps files2 args2 fuel.
Proof.
  intros Hread Hconf Hmodel. unfold Infer.main.
  rewrite <- Hread, <- (proj1 Hconf).
  destruct (Infer.read_texts json_loads1 files1 args1) as [[texts manifest]|e];
    [|reflexivity].
  rewrite <- (Hmodel texts manifest eq_refl).
  destruct (model1 texts (Infer.kwargs_of args1)) as [processed|e]; [|reflexivity].
  rewrite <- (postprocess_same_configuration args1 args2 fuel processed Hconf).
  destruct (Infer.postprocess args1 fuel processed) as [[processed'|e]|];
    try reflexivity.
  rewrite (write_output_same_configuration json_dumps args1 args2 manifest
             processed' Hconf).
  reflexivity.
Qed.

(** C3.  The output of [main] is a function of the input texts, the
    configuration and the answer of the model, and of nothing else: two
    runs that agree on these three, though they may differ in the name
    and place of the input, in the other files, in
    [--no_all_upper_label], in what the model would answer to other
    texts and in the number of loop rounds they are given, are in the
    same state after the same number of rounds, give the same events
    (every byte written) and the same result when they have ended, and
    either both end or both run forever. *)
Theorem main_deterministic
    (model1 model2 : list jvalue -> Infer.apc_kwargs -> result (list str))
    (json_loads1 json_loads2 : str -> result jdoc) (json_dumps : dict -> str)
    (files1 files2 : gmap str (list str)) (args1 args2 : Infer.Namespace) :
  Infer.read_texts json_loads1 files1 args1
  = Infer.read_texts json_loads2 files2 args2 ->
  same_configuration args1 args2 ->
  (forall texts manifest,
     Infer.read_texts json_loads1 files1 args1 = Ok (texts, manifest) ->
     model1 texts (Infer.kwargs_of args1) = model2 texts (Infer.kwargs_of args1)) ->
  (forall fuel,
     Infer.main model1 json_loads1 json_dumps files1 args1 fuel
     = Infer.main model2 json_loads2 json_dumps files2 args2 fuel)
  /\ (forall fuel1 fuel2 out1 out2,
        Infer.main model1 json_loads1 json_dumps files1 args1 fuel1 = Some out1 ->
        Infer.main model2 json_loads2 json_dumps files2 args2 fuel2 = Some out2 ->
        out1 = out2)
  /\ ((exists fuel out,
         Infer.main model1 json_loads1 json_dumps files1 args1 fuel = Some out)
      <-> (exists fuel out,
             Infer.main model2 json_loads2 json_dumps files2 args2 fuel = Some out)).
Proof.
  intros Hread Hconf Hmodel.
  pose proof (fun fuel =>
                main_same_inputs model1 model2 json_loads1 json_loads2 json_dumps
                  files1 files2 args1 args2 fuel Hread Hconf Hmodel) as Hsame.
  split; [exact Hsame|]. split.
  - intros fuel1 fuel2 out1 out2 H1 H2. rewrite Hsame in H1.
    destruct (Nat.le_ge_cases fuel1 fuel2) as [Hle|Hle].
    + pose proof (main_mono _ _ _ _ _ _ _ _ H1 Hle) as H. congruence.
    + pose proof (main_mono _ _ _ _ _ _ _ _ H2 Hle) as H. congruence.
  - split; intros (fuel & out & H); exists fuel, out.
    + rewrite <- Hsame. exact H.
    + rewrite Hsame. exact H.
Qed.

Lemma main_deterministic_witness :
  Infer.read_texts no_json_loads pi_files sample_args
  = Infer.read_texts sample_json_loads moved_pi_files moved_args
  /\ same_configuration sample_args moved_args
  /\ (forall texts manifest,
        Infer.read_texts no_json_loads pi_files sample_args = Ok (texts, manifest) ->
        dot_model texts (Infer.kwargs_of sample_args)
        = one_text_model texts (Infer.kwargs_of sample_args))
  /\ (forall fuel,
        Infer.main dot_model no_json_loads no_json_dumps pi_files sample_args fuel
        = Infer.main one_text_model sample_json_loads no_json_dumps moved_pi_files
            moved_args fuel)
  /\ (forall fuel1 fuel2 out1 out2,
        Infer.main dot_model no_json_loads no_json_dumps pi_files sample_args fuel1
        = Some out1 ->
        Infer.main one_text_model sample_json_loads no_json_dumps moved_pi_files
          moved_args fuel2 = Some out2 ->
        out1 = out2)
  /\ ((exists fuel out,
         Infer.main dot_model no_json_loads no_json_dumps pi_files sample_args fuel
         = Some out)
      <-> (exists fuel out,
             Infer.main one_text_model sample_json_loads no_json_dumps
               moved_pi_files moved_args fuel = Some out)).
Proof.
  assert (H1 : Infer.read_texts no_json_loads pi_files sample_args
               = Infer.read_texts sample_json_loads moved_pi_files moved_args).
  { vm_compute. reflexivity. }
  assert (H2 : same_configuration sample_args moved_args).
  { repeat split. }
  assert (H3 : forall texts manifest,
             Infer.read_texts no_json_loads pi_files sample_args
             = Ok (texts, manifest) ->
             dot_model texts (Infer.kwargs_of sample_args)
             = one_text_model texts (Infer.kwargs_of sample_args)).
  { intros texts manifest H. vm_compute in H. apply Ok_inj in H.
    injection H as <- _. reflexivity. }
  split; [exact H1|]. split; [exact H2|]. split; [exact H3|].
  apply (main_deterministic dot_model one_text_model no_json_loads
           sample_json_loads no_json_dumps pi_files moved_pi_files sample_args
           moved_args H1 H2 H3).
Defined.

(** The two runs of the example end, with the one line 'Pi is 3.14.'. *)
Example pi_runs_end :
  Infer.main dot_model no_json_loads no_json_dumps pi_files sample_args 2
  = Some pi_run
  /\ Infer.main one_text_model sample_json_loads no_json_dumps moved_pi_files
       moved_args 7 = Some pi_run.
Proof. split; vm_compute; reflexivity. Qed.

(** ** punctuate_capitalize_infer.py: the two loops as maps *)

(** A loop whose body stores [g x] at the index it stands on visits every
    element once and leaves [g] of each element in its place. *)
Lemma for_enumerate_map {A} (body : nat -> A -> list A -> result (list A))
    (g : A -> option A) :
  (forall i x l t, g x = Some t -> body i x l = Ok (<[i := t]> l)) ->
  forall k i (cur : list A),
    length cur - i <= k ->
    (forall j x, i <= j -> cur !! j = Some x -> g x <> None) ->
    exists l',
      for_enumerate body (S k) i cur = Some (Ok l')
      /\ length l' = length cur
      /\ (forall j, j < i -> l' !! j = cur !! j)
      /\ (forall j x, i <= j -> cur !! j = Some x ->
                      exists t, g x = Some t /\ l' !! j = Some t).
Proof.
  intros Hbody. induction k as [|k IH]; intros i cur Hk Hall.
  - cbn [for_enumerate]. rewrite (lookup_ge_None_2 cur i) by lia.
    exists cur. split; [reflexivity|]. split; [reflexivity|].
    split; [reflexivity|].
    intros j x Hj Hx. apply lookup_lt_Some in Hx. lia.
  - cbn [for_enumerate]. destruct (cur !! i) as [x|] eqn:Ex.
    2:{ exists cur. split; [reflexivity|]. split; [reflexivity|].
        split; [reflexivity|].
        intros j y Hj Hy. apply lookup_lt_Some in Hy.
        apply lookup_ge_None_1 in Ex. lia. }
    destruct (g x) as [t|] eqn:Eg.
    2:{ exfalso. exact (Hall i x (le_n _) Ex Eg). }
    rewrite (Hbody i x cur t Eg).
    destruct (IH (S i) (<[i := t]> cur)) as (l' & Hrun & Hlen & Hlow & Hhigh).
    + rewrite length_insert. lia.
    + intros j y Hj Hy. rewrite list_lookup_insert_ne in Hy by lia.
      apply (Hall j y); [lia | exact Hy].
    + exists l'. split; [exact Hrun|].
      split; [rewrite Hlen; apply length_insert|].
      split.
      * intros j Hj. rewrite Hlow by lia. apply list_lookup_insert_ne. lia.
      * intros j y Hj Hy. destruct (decide (j = i)) as [->|Hne].
        -- assert (y = x) as -> by congruence. exists t. split; [exact Eg|].
           rewrite Hlow by lia. apply list_lookup_insert_eq.
           apply lookup_lt_Some in Ex. exact Ex.
        -- apply (Hhigh j y); [lia|].
           rewrite list_lookup_insert_ne by lia. exact Hy.
Qed.

Lemma for_enumerate_map_all {A} (body : nat -> A -> list A -> result (list A))
    (g : A -> option A) (l : list A) :
  (forall i x l t, g x = Some t -> body i x l = Ok (<[i := t]> l)) ->
  (forall x, In x l -> g x <> None) ->
  exists l',
    for_enumerate body (S (length l)) 0 l = Some (Ok l')
    /\ Forall2 (fun x t => g x = Some t) l l'.
Proof.
  intros Hbody Hall.
  destruct (for_enumerate_map body g Hbody (length l) 0 l) as
    (l' & Hrun & Hlen & _ & Hhigh); [lia| |].
  - intros j x _ Hx. apply Hall, list_elem_of_In.
    eapply list_elem_of_lookup_2. exact Hx.
  - exists l'. split; [exact Hrun|].
    apply Forall2_same_length_lookup_2; [congruence|].
    intros i x y Hx Hy.
    destruct (Hhigh i x (Nat.le_0_l _) Hx) as (t & Ht & Hl'). congruence.
Qed.

(** Unless the first loop meets a text without a letter, the two loops
    end and leave, at every index, the text that was there, cleaned up
    and with its decimals fixed as the options say. *)
Lemma postprocess_pointwise args (texts : list str) :
  (Infer.make_queries_contain_intact_sentences args = true ->
   forall x, In x texts -> existsb is_letter x = true) ->
  exists outs,
    Infer.postprocess args (S (length texts)) texts = Some (Ok outs)
    /\ Forall2 (postprocessed args) texts outs.
Proof.
  intros Hall. unfold Infer.postprocess, postprocessed.
  assert (H1 : exists l1,
             (if Infer.make_queries_contain_intact_sentences args
              then for_enumerate (Infer.intact_body args) (S (length texts)) 0 texts
              else Some (Ok texts)) = Some (Ok l1)
             /\ Forall2 (fun x t =>
                           if Infer.make_queries_contain_intact_sentences args
                           then Infer.intact_sentence args x = Some t
                           else t = x) texts l1).
  { destruct (Infer.make_queries_contain_intact_sentences args).
    - apply (for_enumerate_map_all (Infer.intact_body args)
               (Infer.intact_sentence args)).
      + intros i x l t Ht. unfold Infer.intact_body. rewrite Ht. reflexivity.
      + intros x Hx Hnone. apply intact_none_iff in Hnone.
        specialize (Hall eq_refl x Hx).
        apply existsb_exists in Hall as (c & Hc & Hlet).
        rewrite forallb_forall in Hnone. specialize (Hnone c Hc).
        rewrite Hlet in Hnone. discriminate.
    - exists texts. split; [reflexivity|].
      apply Forall2_same_length_lookup_2; [reflexivity|]. congruence. }
  destruct H1 as (l1 & -> & Hl1).
  assert (Hlen : length l1 = length texts)
    by (symmetry; eapply Forall2_length; exact Hl1).
  destruct (Infer.fix_decimals args && negb (Infer.save_labels_instead_of_text args)).
  - rewrite <- Hlen.
    destruct (for_enumerate_map_all Infer.decimals_body
                (fun x => match fix_decimals_text x with
                          | Ok t => Some t
                          | Raise _ => None
                          end) l1) as (outs & Hrun & Houts).
    + intros i x l t Ht. unfold Infer.decimals_body.
      destruct (fix_decimals_text x); [|discriminate].
      apply Some_inj in Ht. subst. reflexivity.
    + intros x _. destruct (fix_decimals_text_total x) as [t ->]. discriminate.
    + exists outs. split; [exact Hrun|].
      apply Forall2_same_length_lookup_2.
      * rewrite <- (Forall2_length _ _ _ Houts). congruence.
      * intros i x y Hx Hy.
        destruct (Forall2_lookup_l _ _ _ _ _ Hl1 Hx) as (t & Ht & Hxt).
        destruct (Forall2_lookup_l _ _ _ _ _ Houts Ht) as (y' & Hy' & Hty).
        assert (y' = y) as -> by congruence.
        exists t. split; [exact Hxt|].
        destruct (fix_decimals_text t); congruence.
  - exists l1. split; [reflexivity|].
    apply Forall2_same_length_lookup_2; [congruence|].
    intros i x y Hx Hy.
    destruct (Forall2_lookup_l _ _ _ _ _ Hl1 Hx) as (t & Ht & Hxt).
    assert (t = y) as -> by congruence.
    exists y. split; [exact Hxt | reflexivity].
Qed.

(** X5.  When every text the model returns has an ASCII letter (or
    [--make_queries_contain_intact_sentences] is off), [main] ends and
    hands the output step one text for every text of the model, in the
    same order, each the post-processed form of the text at its index. *)
Theorem main_postprocesses_each_text
    (model : list jvalue -> Infer.apc_kwargs -> result (list str))
    (json_loads : str -> result jdoc) (json_dumps : dict -> str)
    (files : gmap str (list str)) (args : Infer.Namespace)
    (texts : list jvalue) (manifest : option (list dict * str))
    (processed : list str) :
  Infer.read_texts json_loads files args = Ok (texts, manifest) ->
  model texts (Infer.kwargs_of args) = Ok processed ->
  (Infer.make_queries_contain_intact_sentences args = true ->
   forall x, In x processed -> existsb is_letter x = true) ->
  exists outs,
    Forall2 (postprocessed args) processed outs
    /\ Infer.main model json_loads json_dumps files args (S (length processed))
       = Some (Infer.EvModelCall texts (Infer.kwargs_of args)
                 :: fst (Infer.write_output json_dumps args manifest outs),
               snd (Infer.write_output json_dumps args manifest outs)).
Proof.
  intros Hread Hmodel Hall.
  destruct (postprocess_pointwise args processed Hall) as (outs & Hrun & Houts).
  exists outs. split; [exact Houts|].
  unfold Infer.main. rewrite Hread, Hmodel, Hrun.
  destruct (Infer.write_output json_dumps args manifest outs). reflexivity.
Qed.

Lemma main_postprocesses_each_text_witness :
  Infer.read_texts no_json_loads pi_files sample_args
  = Ok ([JStr (py_str "pi is 3 point 1 4")], None)
  /\ dot_model [JStr (py_str "pi is 3 point 1 4")] (Infer.kwargs_of sample_args)
     = Ok [py_str "pi is 3 point 1 4."]
  /\ (Infer.make_queries_contain_intact_sentences sample_args = true ->
      forall x, In x [py_str "pi is 3 point 1 4."] -> existsb is_letter x = true)
  /\ exists outs,
       Forall2 (postprocessed sample_args) [py_str "pi is 3 point 1 4."] outs
       /\ Infer.main dot_model no_json_loads no_json_dumps pi_files sample_args 2
          = Some (Infer.EvModelCall [JStr (py_str "pi is 3 point 1 4")]
                    (Infer.kwargs_of sample_args)
                    :: fst (Infer.write_output no_json_dumps sample_args None outs),
                  snd (Infer.write_output no_json_dumps sample_args None outs)).
Proof.
  assert (H3 : Infer.make_queries_contain_intact_sentences sample_args = true ->
               forall x, In x [py_str "pi is 3 point 1 4."] ->
                         existsb is_letter x = true).
  { intros _ x [<-|[]]. reflexivity. }
  split; [vm_compute; reflexivity|].
  split; [reflexivity|].
  split; [exact H3|].
  apply (main_postprocesses_each_text dot_model no_json_loads no_json_dumps
           pi_files sample_args [JStr (py_str "pi is 3 point 1 4")] None
           [py_str "pi is 3 point 1 4."]);
    [vm_compute; reflexivity | reflexivity | exact H3].
Defined.

(** ** punctuate_capitalize_infer.py: reading and writing manifests *)

(** X6.  The output manifest gets one line for each pair of the [zip] of
    line 273: as many as the shorter of the manifest and the texts, the
    line at index [i] being the item at [i] with the text at [i] stored
    under the text key.  Items or texts beyond that are dropped
    silently. *)
Theorem output_manifest_is_zipped (json_dumps : dict -> str)
    (args : Infer.Namespace) (path text_key : str)
    (manifest : list dict) (processed_texts : list str) :
  Infer.output_manifest args = Some path ->
  exists lines,
    Infer.write_output json_dumps args (Some (manifest, text_key)) processed_texts
    = (Infer.EvMkdirParent path :: Infer.EvOpenWrite path :: lines, Ok tt)
    /\ length lines = Nat.min (length manifest) (length processed_texts)
    /\ forall i item t,
         manifest !! i = Some item -> processed_texts !! i = Some t ->
         lines !! i
         = Some (Infer.EvWrite path
                   (json_dumps (dict_set text_key (JStr t) item) ++ py_str "
")).
Proof.
  intros Hout. unfold Infer.write_output. rewrite Hout.
  eexists. split; [reflexivity|]. split.
  - revert processed_texts.
    induction manifest as [|item manifest IH]; intros [|t ts]; simpl; auto.
  - revert processed_texts.
    induction manifest as [|item manifest IH]; intros [|t ts] i item' t' Hi Ht;
      try discriminate.
    destruct i as [|i]; simpl in *.
    + apply Some_inj in Hi, Ht. subst. reflexivity.
    + apply (IH ts i item' t' Hi Ht).
Qed.

Lemma output_manifest_is_zipped_witness :
  Infer.output_manifest manifest_args = Some (py_str "out.json")
  /\ exists lines,
       Infer.write_output sample_json_dumps manifest_args
         (Some ([manifest_item_1; manifest_item_2], py_str "text"))
         [py_str "Hello there."]
       = (Infer.EvMkdirParent (py_str "out.json")
            :: Infer.EvOpenWrite (py_str "out.json") :: lines, Ok tt)
       /\ length lines
          = Nat.min (length [manifest_item_1; manifest_item_2])
              (length [py_str "Hello there."])
       /\ forall i item t,
            [manifest_item_1; manifest_item_2] !! i = Some item ->
            [py_str "Hello there."] !! i = Some t ->
            lines !! i
            = Some (Infer.EvWrite (py_str "out.json")
                      (sample_json_dumps (dict_set (py_str "text") (JStr t) item)
                         ++ py_str "
")).
Proof.
  split; [reflexivity|].
  apply (output_manifest_is_zipped sample_json_dumps manifest_args
           (py_str "out.json") (py_str "text")). reflexivity.
Defined.

(** The loop of lines 234-235 ends normally only on objects that all
    hold the key. *)
Lemma rmap_read_item k (docs : list jdoc) read :
  rmap_list (Infer.read_item k) docs = Ok read ->
  docs = map JObject (map fst read)
  /\ Forall2 (fun item v => dict_get k item = Some v) (map fst read) (map snd read).
Proof.
  revert read. induction docs as [|doc docs IH]; intros read H.
  - apply Ok_inj in H. subst read. split; [reflexivity | constructor].
  - cbn [rmap_list] in H.
    apply rbind_ok in H as ([item v] & Hitem & H).
    apply rbind_ok in H as (read' & Hread & H).
    apply Ok_inj in H. subst read.
    unfold Infer.read_item in Hitem.
    apply rbind_ok in Hitem as (item' & Hobj & Hitem).
    apply rbind_ok in Hitem as (v' & Hv & Hitem).
    apply Ok_inj in Hitem. injection Hitem as -> ->.
    destruct doc as [d|raw]; [|discriminate Hobj].
    apply Ok_inj in Hobj. subst d.
    destruct (IH read' Hread) as [-> Hall].
    split; [reflexivity|]. cbn [map fst snd].
    constructor; [apply getitem_ok; exact Hv | exact Hall].
Qed.

(** What [read_texts] returns in manifest mode. *)
Lemma read_texts_manifest json_loads files args texts items text_key :
  Infer.read_texts json_loads files args = Ok (texts, Some (items, text_key)) ->
  exists path lines first rest,
    Infer.input_manifest args = Some path
    /\ files !! path = Some lines
    /\ rmap_list json_loads lines = Ok (map JObject items)
    /\ items = first :: rest
    /\ text_key = (if dict_mem (py_str "pred_text") first
                   then py_str "pred_text" else py_str "text")
    /\ Forall2 (fun item v => dict_get text_key item = Some v) items texts.
Proof.
  unfold Infer.read_texts. destruct (Infer.input_manifest args) as [path|].
  2:{ destruct (Infer.input_text args); [|discriminate].
      intros H. apply rbind_ok in H as (lines & _ & H). discriminate H. }
  intros H. apply rbind_ok in H as (docs & Hload & H).
  unfold Infer.load_manifest in Hload.
  apply rbind_ok in Hload as (lines & Hopen & Hdocs).
  unfold Infer.open_read in Hopen.
  destruct (files !! path) as [lines'|] eqn:Ef; [|discriminate].
  apply Ok_inj in Hopen. subst lines'.
  destruct docs as [|doc docs]; [discriminate|].
  apply rbind_ok in H as (first & Hfirst & H).
  apply rbind_ok in H as (read & Hread & H).
  apply Ok_inj in H. injection H as <- <- <-.
  destruct (rmap_read_item _ _ _ Hread) as [Hdocs' Hall].
  destruct doc as [d|raw]; [|discriminate Hfirst].
  apply Ok_inj in Hfirst. subst d.
  destruct read as [|[item v] read]; [discriminate Hdocs'|].
  cbn [map fst] in Hdocs'. injection Hdocs' as -> ->.
  exists path, lines, item, (map fst read).
  split; [reflexivity|]. split; [exact Ef|]. split; [exact Hdocs|].
  split; [reflexivity|]. split; [reflexivity | exact Hall].
Qed.

(** X7.  In manifest mode the texts given to the model are the values
    the items hold under the text key ('pred_text' or 'text'), item by
    item; and storing a text under that key, as line 274 does, keeps the
    item's keys and their order and every other value. *)
Theorem manifest_items_keep_their_fields (json_loads : str -> result jdoc)
    (files : gmap str (list str)) (args : Infer.Namespace)
    (texts : list jvalue) (items : list dict) (text_key : str) :
  Infer.read_texts json_loads files args = Ok (texts, Some (items, text_key)) ->
  (text_key = py_str "pred_text" \/ text_key = py_str "text")
  /\ Forall2 (fun item v => dict_get text_key item = Some v) items texts
  /\ forall item t,
       In item items ->
       dict_keys (dict_set text_key (JStr t) item) = dict_keys item
       /\ dict_get text_key (dict_set text_key (JStr t) item) = Some (JStr t)
       /\ forall k, k <> text_key ->
                    dict_get k (dict_set text_key (JStr t) item) = dict_get k item.
Proof.
  intros H. apply read_texts_manifest in H.
  destruct H as (path & lines & first & rest & _ & _ & _ & _ & Hkey & Hget).
  split; [|split; [exact Hget|]].
  - rewrite Hkey. destruct (dict_mem (py_str "pred_text") first); auto.
  - intros item t Hin.
    apply list_elem_of_In, list_elem_of_lookup_1 in Hin as [i Hi].
    destruct (Forall2_lookup_l _ _ _ _ _ Hget Hi) as (v & _ & Hv).
    split; [apply (dict_keys_set _ _ v); exact Hv|].
    split; [apply dict_get_set_eq|].
    intros k Hk. apply dict_get_set_ne. congruence.
Qed.

Lemma manifest_items_keep_their_fields_witness :
  Infer.read_texts text_manifest_json_loads manifest_files manifest_args
  = Ok ([JStr (py_str "good bye"); JStr (py_str "good bye")],
        Some ([manifest_item_2; manifest_item_2], py_str "text"))
  /\ (py_str "text" = py_str "pred_text" \/ py_str "text" = py_str "text")
  /\ Forall2 (fun item v => dict_get (py_str "text") item = Some v)
       [manifest_item_2; manifest_item_2]
       [JStr (py_str "good bye"); JStr (py_str "good bye")]
  /\ forall item t,
       In item [manifest_item_2; manifest_item_2] ->
       dict_keys (dict_set (py_str "text") (JStr t) item) = dict_keys item
       /\ dict_get (py_str "text") (dict_set (py_str "text") (JStr t) item)
          = Some (JStr t)
       /\ forall k, k <> py_str "text" ->
                    dict_get k (dict_set (py_str "text") (JStr t) item)
                    = dict_get k item.
Proof.
  split; [vm_compute; reflexivity|].
  apply (manifest_items_keep_their_fields text_manifest_json_loads manifest_files
           manifest_args). vm_compute. reflexivity.
Defined.

(** X8.  A manifest file without any line makes [main] fail with
    [IndexError] on [manifest[0]]: the model is not called and nothing
    is created or written. *)
Theorem main_on_empty_manifest
    (model : list jvalue -> Infer.apc_kwargs -> result (list str))
    (json_loads : str -> result jdoc) (json_dumps : dict -> str)
    (files : gmap str (list str)) (args : Infer.Namespace)
    (path : str) (fuel : nat) :
  Infer.input_manifest args = Some path ->
  files !! path = Some [] ->
  Infer.main model json_loads json_dumps files args fuel
  = Some ([], Raise IndexError).
Proof.
  intros Hin Hfile. unfold Infer.main, Infer.read_texts, Infer.load_manifest,
    Infer.open_read.
  rewrite Hin, Hfile. reflexivity.
Qed.

Lemma main_on_empty_manifest_witness :
  Infer.input_manifest manifest_args = Some (py_str "in.json")
  /\ empty_manifest_files !! py_str "in.json" = Some []
  /\ Infer.main dot_model no_json_loads no_json_dumps empty_manifest_files
       manifest_args 3
     = Some ([], Raise IndexError).
Proof.
  split; [reflexivity|]. split; [vm_compute; reflexivity|].
  apply (main_on_empty_manifest dot_model no_json_loads no_json_dumps
           empty_manifest_files manifest_args (py_str "in.json") 3);
    [reflexivity | vm_compute; reflexivity].
Defined.

(** The loop of lines 234-235 stops at the first object without the key,
    whatever comes after it. *)
Lemma rmap_read_item_missing k (before : list dict) (item : dict)
    (after : list jdoc) :
  Forall (fun d => dict_mem k d = true) before ->
  dict_get k item = None ->
  rmap_list (Infer.read_item k) (map JObject before ++ JObject item :: after)
  = Raise (KeyError k).
Proof.
  intros Hbefore Hitem. induction Hbefore as [|d before Hd _ IH].
  - cbn [map app rmap_list]. unfold Infer.read_item at 1.
    cbn [as_object rbind]. unfold getitem. rewrite Hitem. reflexivity.
  - cbn [map app rmap_list]. unfold Infer.read_item at 1.
    cbn [as_object rbind]. unfold getitem, dict_mem in *.
    destruct (dict_get k d) as [v|]; [|discriminate Hd].
    cbn [rbind]. rewrite IH. reflexivity.
Qed.

(** X9.  The text key is chosen from the first item alone: when the
    first item has 'pred_text', the first item without 'pred_text' makes
    [main] fail with [KeyError('pred_text')] before the model is called,
    even if that item has 'text', and whatever the items after it are. *)
Theorem main_text_key_from_first_item
    (model : list jvalue -> Infer.apc_kwargs -> result (list str))
    (json_loads : str -> result jdoc) (json_dumps : dict -> str)
    (files : gmap str (list str)) (args : Infer.Namespace)
    (path : str) (lines : list str) (first : dict) (before : list dict)
    (item : dict) (after : list jdoc) (fuel : nat) :
  Infer.input_manifest args = Some path ->
  files !! path = Some lines ->
  rmap_list json_loads lines
  = Ok (map JObject (first :: before) ++ JObject item :: after) ->
  Forall (fun d => dict_mem (py_str "pred_text") d = true) (first :: before) ->
  dict_get (py_str "pred_text") item = None ->
  Infer.main model json_loads json_dumps files args fuel
  = Some ([], Raise (KeyError (py_str "pred_text"))).
Proof.
  intros Hin Hfile Hdocs Hbefore Hnone.
  unfold Infer.main, Infer.read_texts, Infer.load_manifest, Infer.open_read.
  rewrite Hin, Hfile. cbn [rbind]. rewrite Hdocs.
  cbn [rbind map app as_object].
  rewrite (Forall_inv Hbefore).
  change (JObject first :: map JObject before ++ JObject item :: after)
    with (map JObject (first :: before) ++ JObject item :: after).
  rewrite (rmap_read_item_missing _ _ _ _ Hbefore Hnone). reflexivity.
Qed.

Lemma main_text_key_from_first_item_witness :
  Infer.input_manifest manifest_args = Some (py_str "in.json")
  /\ mixed_manifest_files !! py_str "in.json"
     = Some [py_str "1"; py_str "2"; py_str "3"]
  /\ rmap_list mixed_json_loads [py_str "1"; py_str "2"; py_str "3"]
     = Ok (map JObject [manifest_item_1] ++ JObject manifest_item_2
             :: [JNonObject (py_str "7")])
  /\ Forall (fun d => dict_mem (py_str "pred_text") d = true) [manifest_item_1]
  /\ dict_get (py_str "pred_text") manifest_item_2 = None
  /\ Infer.main dot_model mixed_json_loads sample_json_dumps mixed_manifest_files
       manifest_args 3
     = Some ([], Raise (KeyError (py_str "pred_text"))).
Proof.
  assert (H4 : Forall (fun d => dict_mem (py_str "pred_text") d = true)
                 [manifest_item_1]).
  { constructor; [reflexivity | constructor]. }
  split; [reflexivity|]. split; [vm_compute; reflexivity|].
  split; [reflexivity|]. split; [exact H4|]. split; [reflexivity|].
  apply (main_text_key_from_first_item dot_model mixed_json_loads
           sample_json_dumps mixed_manifest_files manifest_args (py_str "in.json")
           [py_str "1"; py_str "2"; py_str "3"] manifest_item_1 [] manifest_item_2
           [JNonObject (py_str "7")] 3);
    [reflexivity | vm_compute; reflexivity | reflexivity | exact H4 | reflexivity].
Defined.

(** ** punctuate_capitalize_infer.py: [get_args] and what [main] may rely on *)

Lemma get_args_some (available : list str) (expanduser : str -> str)
    (c a : InferArgs.CommandLine) :
  InferArgs.get_args available expanduser c = Some a ->
  InferArgs.exactly_one (Infer.input_manifest (InferArgs.options a))
    (Infer.input_text (InferArgs.options a)) = true
  /\ InferArgs.exactly_one (Infer.output_manifest (InferArgs.options a))
       (Infer.output_text (InferArgs.options a)) = true
  /\ (Infer.input_manifest (InferArgs.options a) = None ->
      Infer.output_manifest (InferArgs.options a) = None)
  /\ InferArgs.exactly_one (InferArgs.pretrained_name a) (InferArgs.model_path a)
     = true.
Proof.
  unfold InferArgs.get_args, InferArgs.parse_args_accepts.
  destruct c as [o pn mp dev]. cbn [InferArgs.options InferArgs.pretrained_name
                                    InferArgs.model_path InferArgs.device].
  destruct (InferArgs.exactly_one (Infer.input_manifest o) (Infer.input_text o))
    eqn:E1; [|discriminate].
  destruct (InferArgs.exactly_one (Infer.output_manifest o) (Infer.output_text o))
    eqn:E2; [|discriminate].
  destruct (InferArgs.not_both pn mp) eqn:E3; [|discriminate].
  cbn [andb].
  destruct (InferArgs.chosen_from available pn && _); cbn [negb]; [|discriminate].
  destruct (Infer.input_manifest o) as [im|] eqn:Eim;
    destruct (Infer.output_manifest o) as [om|] eqn:Eom; try discriminate;
    intros H; apply Some_inj in H; subst a;
    cbn [InferArgs.options InferArgs.pretrained_name InferArgs.model_path
         Infer.input_manifest Infer.input_text Infer.output_manifest
         Infer.output_text InferArgs.expand];
    (split; [destruct (Infer.input_text o); simpl in *; congruence|]);
    (split; [destruct (Infer.output_text o); simpl in *; congruence|]);
    (split; [congruence|]);
    destruct pn, mp; simpl in *; congruence.
Qed.

(** X10.  A namespace that [get_args] returns has exactly one of
    [input_manifest] and [input_text], exactly one of [output_manifest]
    and [output_text], no output manifest without an input manifest,
    and exactly one of [pretrained_name] and [model_path]. *)
Theorem get_args_guarantees (available : list str) (expanduser : str -> str)
    (c a : InferArgs.CommandLine) :
  InferArgs.get_args available expanduser c = Some a ->
  InferArgs.exactly_one (Infer.input_manifest (InferArgs.options a))
    (Infer.input_text (InferArgs.options a)) = true
  /\ InferArgs.exactly_one (Infer.output_manifest (InferArgs.options a))
       (Infer.output_text (InferArgs.options a)) = true
  /\ (Infer.input_manifest (InferArgs.options a) = None ->
      Infer.output_manifest (InferArgs.options a) = None)
  /\ InferArgs.exactly_one (InferArgs.pretrained_name a) (InferArgs.model_path a)
     = true.
Proof. apply get_args_some. Qed.

Lemma get_args_guarantees_witness :
  InferArgs.get_args [] (fun p => p) manifest_command_line
  = Some manifest_parsed_args
  /\ InferArgs.exactly_one
       (Infer.input_manifest (InferArgs.options manifest_parsed_args))
       (Infer.input_text (InferArgs.options manifest_parsed_args)) = true
  /\ InferArgs.exactly_one
       (Infer.output_manifest (InferArgs.options manifest_parsed_args))
       (Infer.output_text (InferArgs.options manifest_parsed_args)) = true
  /\ (Infer.input_manifest (InferArgs.options manifest_parsed_args) = None ->
      Infer.output_manifest (InferArgs.options manifest_parsed_args) = None)
  /\ InferArgs.exactly_one (InferArgs.pretrained_name manifest_parsed_args)
       (InferArgs.model_path manifest_parsed_args) = true.
Proof.
  split; [reflexivity|].
  apply (get_args_guarantees [] (fun p => p) manifest_command_line
           manifest_parsed_args).
  reflexivity.
Defined.

Lemma read_texts_manifest_mode json_loads files args texts manifest :
  Infer.read_texts json_loads files args = Ok (texts, manifest) ->
  (Infer.input_manifest args = None <-> manifest = None).
Proof.
  unfold Infer.read_texts. destruct (Infer.input_manifest args) as [path|].
  - intros H. apply rbind_ok in H as (docs & _ & H).
    destruct docs as [|d docs]; [discriminate|].
    apply rbind_ok in H as (items & _ & H).
    apply rbind_ok in H as (ts & _ & H).
    apply Ok_inj in H. injection H as _ <-. split; discriminate.
  - destruct (Infer.input_text args); [|discriminate].
    intros H. apply rbind_ok in H as (lines & _ & H).
    apply Ok_inj in H. injection H as _ <-. split; reflexivity.
Qed.

(** X11.  With a namespace from [get_args], [main] never falls into the
    places where something it needs is missing: the model is loaded
    from a name or from a path that is there (never
    [restore_from(None)]), and once the texts have been read the output
    step cannot fail for a missing output path or an undefined
    [manifest]. *)
Theorem main_can_rely_on_get_args (available : list str)
    (expanduser : str -> str) (c a : InferArgs.CommandLine) :
  InferArgs.get_args available expanduser c = Some a ->
  ((exists name, InferArgs.load_model a = InferArgs.FromPretrained name)
   \/ (exists path, InferArgs.load_model a = InferArgs.RestoreFrom (Some path)))
  /\ forall json_loads files texts manifest json_dumps processed_texts,
       Infer.read_texts json_loads files (InferArgs.options a)
       = Ok (texts, manifest) ->
       snd (Infer.write_output json_dumps (InferArgs.options a) manifest
              processed_texts) = Ok tt.
Proof.
  intros H. apply get_args_some in H as (Hin & Hout & Himp & Hmodel). split.
  - unfold InferArgs.load_model.
    destruct (InferArgs.pretrained_name a) as [name|] eqn:En; [left; eauto|].
    destruct (InferArgs.model_path a) as [path|] eqn:Ep; [right; eauto|].
    rewrite ?En, ?Ep in Hmodel. discriminate Hmodel.
  - intros json_loads files texts manifest json_dumps processed Hread.
    apply read_texts_manifest_mode in Hread.
    unfold Infer.write_output.
    destruct (Infer.output_manifest (InferArgs.options a)) as [om|] eqn:Eom.
    + destruct manifest as [[items key]|]; [reflexivity|].
      pose proof (Himp (proj2 Hread eq_refl)) as Hnone. congruence.
    + destruct (Infer.output_text (InferArgs.options a)) eqn:Eot; [reflexivity|].
      rewrite ?Eom, ?Eot in Hout. discriminate Hout.
Qed.

Lemma main_can_rely_on_get_args_witness :
  InferArgs.get_args [] (fun p => p) manifest_command_line
  = Some manifest_parsed_args
  /\ ((exists name,
         InferArgs.load_model manifest_parsed_args = InferArgs.FromPretrained name)
      \/ (exists path,
            InferArgs.load_model manifest_parsed_args
            = InferArgs.RestoreFrom (Some path)))
  /\ forall json_loads files texts manifest json_dumps processed_texts,
       Infer.read_texts json_loads files (InferArgs.options manifest_parsed_args)
       = Ok (texts, manifest) ->
       snd (Infer.write_output json_dumps (InferArgs.options manifest_parsed_args)
              manifest processed_texts) = Ok tt.
Proof.
  split; [reflexivity|].
  apply (main_can_rely_on_get_args [] (fun p => p) manifest_command_line
           manifest_parsed_args).
  reflexivity.
Defined.

(** ** Regular expressions: the longest match *)

Lemma nullable_complete r s : re_match r s -> s = [] -> nullable r = true.
Proof.
  induction 1; intros E; simpl; try reflexivity; try discriminate.
  - apply app_eq_nil in E as [-> ->]. rewrite IHre_match1, IHre_match2; reflexivity.
  - rewrite IHre_match by exact E. reflexivity.
  - rewrite IHre_match by exact E. apply orb_true_r.
Qed.

Lemma deriv_complete r s :
  re_match r s -> forall c s', s = c :: s' -> re_match (deriv c r) s'.
Proof.
  induction 1 as [|p c0 Hp|r1 r2 s1 s2 H1 IH1 H2 IH2|r1 r2 s H IH|r1 r2 s H IH
                 |r|r s1 s2 H1 IH1 H2 IH2]; intros c s' E; simpl.
  - discriminate.
  - injection E as -> <-. rewrite Hp. constructor.
  - destruct s1 as [|c1 s1'].
    + simpl in E. subst s2.
      rewrite (nullable_complete r1 [] H1 eq_refl).
      apply MAltR. apply IH2. reflexivity.
    + simpl in E. injection E as -> <-.
      specialize (IH1 c s1' eq_refl).
      destruct (nullable r1); [apply MAltL|]; constructor; assumption.
  - apply MAltL. apply IH. exact E.
  - apply MAltR. apply IH. exact E.
  - discriminate.
  - destruct s1 as [|c1 s1'].
    + simpl in E. apply (IH2 c s' E).
    + simpl in E. injection E as -> <-.
      constructor; [apply IH1; reflexivity | exact H2].
Qed.

Lemma longest_match_bound s : forall r n,
  longest_match r s = Some n -> n <= length s.
Proof.
  induction s as [|c s IH]; intros r n; cbn [longest_match].
  - destruct (nullable r); [|discriminate]. intros H. apply Some_inj in H. subst. lia.
  - destruct (longest_match (deriv c r) s) as [k|] eqn:Ek.
    + intros H. apply Some_inj in H. subst. apply IH in Ek. simpl. lia.
    + destruct (nullable r); [|discriminate].
      intros H. apply Some_inj in H. subst. lia.
Qed.

(** No matching prefix is longer than the one [longest_match] finds. *)
Lemma longest_match_max s : forall r k,
  k <= length s -> re_match r (take k s) ->
  exists n, longest_match r s = Some n /\ k <= n.
Proof.
  induction s as [|c s IH]; intros r k Hk Hm.
  - assert (k = 0) as -> by (simpl in Hk; lia).
    cbn [longest_match]. rewrite (nullable_complete r [] Hm eq_refl). eauto.
  - cbn [longest_match]. destruct k as [|k].
    + rewrite (nullable_complete r [] Hm eq_refl).
      destruct (longest_match (deriv c r) s); eexists; (split; [reflexivity | lia]).
    + cbn [take firstn] in Hm.
      destruct (IH (deriv c r) k) as (n & -> & Hn).
      * simpl in Hk. lia.
      * apply (deriv_complete r _ Hm c _ eq_refl).
      * exists (S n). split; [reflexivity | lia].
Qed.

Lemma re_sub_go_skip r repl (s : str) : forall k,
  re_sub_go r repl k s = re_sub_go r repl 0 (drop k s).
Proof.
  induction s as [|c s IH]; intros k.
  - destruct k; reflexivity.
  - destruct k as [|k]; [reflexivity|]. cbn [re_sub_go drop skipn]. apply IH.
Qed.

(** One step of [pattern.sub]. *)
Lemma re_sub_cons r repl c (s : str) :
  re_sub r repl (c :: s)
  = match longest_match r (c :: s) with
    | Some (S n) =>
        do out <- repl (take (S n) (c :: s));
        do rest <- re_sub r repl (drop n s);
        Ok (out ++ rest)
    | _ => do rest <- re_sub r repl s; Ok (c :: rest)
    end.
Proof.
  unfold re_sub. cbn [re_sub_go].
  destruct (longest_match r (c :: s)) as [[|n]|]; try reflexivity.
  rewrite (re_sub_go_skip r repl s n). reflexivity.
Qed.

Lemma no_double_blank_tail c (s : str) :
  no_double_blank (c :: s) = true -> no_double_blank s = true.
Proof.
  destruct s as [|d s]; [reflexivity|]. cbn [no_double_blank].
  intros H. apply andb_true_iff in H as [_ H]. exact H.
Qed.

Lemma no_double_blank_drop n : forall s : str,
  no_double_blank s = true -> no_double_blank (drop n s) = true.
Proof.
  induction n as [|n IH]; intros s H; [exact H|].
  destruct s as [|c s]; [reflexivity|].
  cbn [drop skipn]. apply IH. apply (no_double_blank_tail c). exact H.
Qed.

Lemma no_double_blank_cons c (s : str) :
  no_double_blank s = true ->
  (forall d, head s = Some d -> is_blank c && is_blank d = false) ->
  no_double_blank (c :: s) = true.
Proof.
  intros Hs Hcd. destruct s as [|d s]; [reflexivity|].
  cbn [no_double_blank]. rewrite (Hcd d eq_refl). exact Hs.
Qed.

Lemma no_double_blank_app (a b : str) :
  no_double_blank a = true -> no_double_blank b = true ->
  (forall x y, last_char a = Some x -> head b = Some y ->
               is_blank x && is_blank y = false) ->
  no_double_blank (a ++ b) = true.
Proof.
  intros Ha Hb Hab. induction a as [|c a IH]; [exact Hb|].
  cbn [app]. apply no_double_blank_cons.
  - apply IH; [apply (no_double_blank_tail c); exact Ha|].
    intros x y Hx Hy. apply (Hab x y); [|exact Hy].
    unfold last_char in *. cbn [rev].
    destruct (rev a) as [|z r]; [discriminate Hx | exact Hx].
  - intros d Hd. destruct a as [|d' a'].
    + cbn [app] in Hd. apply (Hab c d); [reflexivity | exact Hd].
    + cbn [app head] in Hd. apply Some_inj in Hd. subst d'.
      cbn [no_double_blank] in Ha. apply andb_true_iff in Ha as [Ha _].
      apply negb_true_iff in Ha. exact Ha.
Qed.

(** When the replacement of a match never puts a blank next to a blank,
    and a blank that is not matched is not followed by one, the result
    of [pattern.sub] has no two blanks next to each other, and starts
    with a blank only if the text did. *)
Lemma re_sub_no_double_blank r (repl : str -> result str) (P : str -> Prop) :
  (forall c s, P (c :: s) -> P s) ->
  (forall s n, P s -> longest_match r s = Some (S n) ->
     exists out,
       repl (take (S n) s) = Ok out
       /\ out <> []
       /\ no_double_blank out = true
       /\ (forall x, head out = Some x -> is_blank x = true ->
                     exists y, head s = Some y /\ is_blank y = true)
       /\ (forall x y, last_char out = Some x -> is_blank x = true ->
                       head (drop (S n) s) = Some y -> is_blank y = false)) ->
  (forall c d s, P (c :: d :: s) ->
     (forall n, longest_match r (c :: d :: s) <> Some (S n)) ->
     is_blank c && is_blank d = false) ->
  forall m (s : str), length s <= m -> P s ->
    exists t,
      re_sub r repl s = Ok t
      /\ no_double_blank t = true
      /\ (forall x, head t = Some x -> is_blank x = true ->
                    exists y, head s = Some y /\ is_blank y = true).
Proof.
  intros Ptail Hmatch Hnomatch.
  assert (Pdrop : forall n s, P s -> P (drop n s)).
  { induction n as [|n IHn]; intros s Hs; [exact Hs|].
    destruct s as [|c s]; [exact Hs|]. cbn [drop skipn]. apply IHn.
    apply (Ptail c). exact Hs. }
  induction m as [|m IH]; intros s Hlen HP.
  - destruct s; [|simpl in Hlen; lia].
    exists []. repeat split. intros x Hx. discriminate Hx.
  - destruct s as [|c s].
    { exists []. repeat split. intros x Hx. discriminate Hx. }
    rewrite re_sub_cons.
    assert (Hplain : (forall n, longest_match r (c :: s) <> Some (S n)) ->
              exists t,
                (do rest <- re_sub r repl s; Ok (c :: rest)) = Ok t
                /\ no_double_blank t = true
                /\ (forall x, head t = Some x -> is_blank x = true ->
                      exists y, head (c :: s) = Some y /\ is_blank y = true)).
    { intros Hno.
      destruct (IH s) as (t' & -> & Hndb & Hhead);
        [simpl in Hlen; lia | apply (Ptail c); exact HP|].
      exists (c :: t'). split; [reflexivity|]. split.
      - apply no_double_blank_cons; [exact Hndb|].
        intros d Hd. destruct (is_blank d) eqn:Ed; [|apply andb_false_r].
        destruct (Hhead d Hd Ed) as (y & Hy & Hby).
        destruct s as [|y' s']; [discriminate Hy|].
        cbn [head] in Hy. apply Some_inj in Hy. subst y'.
        rewrite <- Hby. apply (Hnomatch c y s' HP Hno).
      - intros x Hx Hbx. exists c. cbn [head] in *. split; [reflexivity|].
        congruence. }
    destruct (longest_match r (c :: s)) as [[|n]|] eqn:El.
    + apply Hplain. intros n. discriminate.
    + destruct (Hmatch (c :: s) n HP El) as (out & -> & Hne & Hout & Hfirst & Hlast).
      destruct (IH (drop n s)) as (t' & -> & Hndb & Hhead).
      * rewrite length_drop. simpl in Hlen. lia.
      * apply Pdrop. apply (Ptail c). exact HP.
      * exists (out ++ t'). split; [reflexivity|]. split.
        -- apply no_double_blank_app; [exact Hout | exact Hndb|].
           intros x y Hx Hy.
           destruct (is_blank x) eqn:Ex; [|reflexivity].
           destruct (is_blank y) eqn:Ey; [|reflexivity].
           destruct (Hhead y Hy Ey) as (z & Hz & Hbz).
           cbn [drop skipn] in Hlast.
           rewrite (Hlast x z Hx Ex Hz) in Hbz. discriminate.
        -- intros x Hx Hbx. destruct out as [|o out']; [congruence|].
           apply (Hfirst x); assumption.
    + apply Hplain. intros n. discriminate.
Qed.

(** ** punctuate_capitalize_infer.py: line 264 on one text *)

Lemma take_take_while {A} (p : A -> bool) (s : list A) :
  take (length (take_while p s)) s = take_while p s.
Proof.
  induction s as [|x s IH]; [reflexivity|]. cbn [take_while].
  destruct (p x); [|reflexivity]. cbn [length take firstn]. f_equal. exact IH.
Qed.

Lemma drop_take_while {A} (p : A -> bool) (s : list A) :
  drop (length (take_while p s)) s = drop_while p s.
Proof.
  induction s as [|x s IH]; [reflexivity|]. cbn [take_while drop_while].
  destruct (p x); [|reflexivity]. cbn [length drop skipn]. exact IH.
Qed.

Lemma forallb_take_le {A} (p : A -> bool) (s : list A) : forall n,
  forallb p (take n s) = true -> n <= length s ->
  n <= length (take_while p s).
Proof.
  induction s as [|x s IH]; intros n H Hn; [simpl in Hn; lia|].
  destruct n as [|n]; [lia|]. cbn [take firstn forallb] in H.
  apply andb_true_iff in H as [Hx H]. cbn [take_while]. rewrite Hx.
  cbn [length]. simpl in Hn. specialize (IH n H). lia.
Qed.

Lemma blank_is_blank c : is_blank c = true -> c = " "%char.
Proof. unfold is_blank, eqc. apply Ascii.eqb_eq. Qed.

Lemma digit_not_blank c : is_digit c = true -> is_blank c = false.
Proof. ascii_cases c; vm_compute; congruence. Qed.

Lemma no_blank_no_double_blank (s : str) :
  forallb (fun c => negb (is_blank c)) s = true -> no_double_blank s = true.
Proof.
  induction s as [|c s IH]; [reflexivity|]. cbn [forallb].
  intros H. apply andb_true_iff in H as [Hc Hs].
  apply no_double_blank_cons; [apply IH; exact Hs|].
  intros d _. apply negb_true_iff in Hc. rewrite Hc. reflexivity.
Qed.

(** The words of [SPACE_DEDUP] are the non-empty runs of blanks. *)
Lemma space_dedup_match m :
  re_match SPACE_DEDUP m -> m <> [] /\ forallb is_blank m = true.
Proof.
  unfold SPACE_DEDUP. intros H.
  apply re_match_plus_inv in H as (s0 & ss & -> & Hss). split.
  - apply Forall_inv in Hss.
    apply re_match_class_inv in Hss as (c & -> & _). discriminate.
  - apply (class_words _ _ Hss).
Qed.

Lemma blanks_match_space_dedup m :
  m <> [] -> forallb is_blank m = true -> re_match SPACE_DEDUP m.
Proof.
  destruct m as [|c m]; [congruence|]. intros _ H.
  cbn [forallb] in H. apply andb_true_iff in H as [Hc Hm].
  unfold SPACE_DEDUP, Plus.
  apply (MCat _ _ [c] m); [constructor; exact Hc|].
  induction m as [|d m IH]; [constructor|].
  cbn [forallb] in Hm. apply andb_true_iff in Hm as [Hd Hm].
  apply (MStarApp _ [d] m); [constructor; exact Hd | apply IH; exact Hm].
Qed.

(** At a blank, [SPACE_DEDUP] matches the whole run of blanks. *)
Lemma space_dedup_at_blank c (s : str) :
  is_blank c = true ->
  longest_match SPACE_DEDUP (c :: s)
  = Some (S (length (take_while is_blank s))).
Proof.
  intros Hc. set (k := S (length (take_while is_blank s))).
  destruct (longest_match_max (c :: s) SPACE_DEDUP k) as (n & Hn & Hkn).
  - unfold k. cbn [length].
    pose proof (f_equal (@length ascii) (take_while_drop_while is_blank s)) as E.
    rewrite length_app in E. lia.
  - unfold k. cbn [take firstn]. rewrite take_take_while.
    apply blanks_match_space_dedup; [discriminate|].
    cbn [forallb]. rewrite Hc. apply take_while_all.
  - rewrite Hn. f_equal.
    pose proof (longest_match_bound _ _ _ Hn) as Hb.
    apply longest_match_sound, space_dedup_match in Hn as [_ Hall].
    apply forallb_take_le in Hall; [|exact Hb].
    cbn [take_while] in Hall. rewrite Hc in Hall. cbn [length] in Hall.
    unfold k in *. lia.
Qed.

Lemma space_dedup_at_other c (s : str) :
  is_blank c = false -> longest_match SPACE_DEDUP (c :: s) = None.
Proof.
  intros Hc. destruct (longest_match SPACE_DEDUP (c :: s)) as [n|] eqn:E;
    [|reflexivity].
  apply longest_match_sound, space_dedup_match in E as [Hne Hall].
  destruct n as [|n]; [exfalso; apply Hne; reflexivity|].
  cbn [take firstn forallb] in Hall. rewrite Hc in Hall. discriminate.
Qed.

(** After line 264's [SPACE_DEDUP.sub(' ', text)] no two blanks are next
    to each other. *)
Lemma space_dedup_sub_no_double_blank (s : str) :
  exists t, re_sub SPACE_DEDUP (fun _ => Ok (py_str " ")) s = Ok t
            /\ no_double_blank t = true.
Proof.
  destruct (re_sub_no_double_blank SPACE_DEDUP (fun _ => Ok (py_str " "))
              (fun _ => True)) with (m := length s) (s := s)
    as (t & Ht & Hndb & _); auto.
  - intros u n _ El. destruct u as [|c u]; [discriminate El|].
    destruct (is_blank c) eqn:Ec.
    2:{ rewrite (space_dedup_at_other c u Ec) in El. discriminate El. }
    rewrite (space_dedup_at_blank c u Ec) in El.
    apply Some_inj in El. injection El as <-.
    exists (py_str " "). split; [reflexivity|]. split; [discriminate|].
    split; [reflexivity|]. split.
    + intros x _ _. exists c. split; [reflexivity | exact Ec].
    + intros x y _ _ Hy. cbn [drop skipn] in Hy. rewrite drop_take_while in Hy.
      destruct (drop_while is_blank u) as [|z r] eqn:Ed; [discriminate Hy|].
      cbn [head] in Hy. apply Some_inj in Hy. subst z.
      apply (drop_while_head is_blank u y r Ed).
  - intros c d u _ Hno. destruct (is_blank c) eqn:Ec; [|reflexivity].
    exfalso. apply (Hno _ (space_dedup_at_blank c (d :: u) Ec)).
  - eauto.
Qed.

Lemma decimal_match_starts_with_digit m :
  re_match DECIMAL m -> exists d rest, m = d :: rest /\ is_digit d = true.
Proof.
  intros H. apply decimal_match_shape in H.
  destruct H as (ds & p & w & gs & -> & Hne & Hds & _).
  destruct ds as [|d ds']; [congruence|].
  cbn [forallb] in Hds. apply andb_true_iff in Hds as [Hd _].
  exists d. eexists. split; [reflexivity | exact Hd].
Qed.

(** [DECIMAL] matches nothing at a character that is not a digit. *)
Lemma decimal_at_non_digit c (s : str) :
  is_digit c = false -> forall n, longest_match DECIMAL (c :: s) <> Some n.
Proof.
  intros Hc n E.
  apply longest_match_sound, decimal_match_starts_with_digit in E.
  destruct E as (d & rest & E & Hd).
  destruct n as [|n]; [discriminate E|].
  cbn [take firstn] in E. injection E as -> _. congruence.
Qed.

(** What [decimal_repl] returns for a match has no blank in it. *)
Lemma decimal_repl_no_blank m :
  re_match DECIMAL m ->
  exists out, decimal_repl m = Ok out
              /\ out <> []
              /\ forallb (fun c => negb (is_blank c)) out = true.
Proof.
  intros H. apply decimal_match_shape in H.
  destruct H as (ds & p & w & gs & -> & Hne & Hds & Hp & Hword & Hw & _ & Hgs).
  assert (Hw_ne : w <> []) by (intros ->; discriminate Hword).
  exists (ds ++ py_str "." ++ map snd gs).
  split; [apply decimal_repl_shape; assumption|]. split.
  - destruct ds; [congruence | discriminate].
  - assert (Hd : forall u, forallb is_digit u = true ->
                           forallb (fun c => negb (is_blank c)) u = true).
    { intros u. apply forallb_imp. intros x Hx.
      rewrite (digit_not_blank x Hx). reflexivity. }
    rewrite !forallb_app, (Hd ds Hds), (Hd _ (groups_digits gs Hgs)). reflexivity.
Qed.

Lemma decimal_sub_no_double_blank (s : str) :
  no_double_blank s = true ->
  exists t, re_sub DECIMAL decimal_repl s = Ok t /\ no_double_blank t = true.
Proof.
  intros Hs.
  destruct (re_sub_no_double_blank DECIMAL decimal_repl
              (fun u => no_double_blank u = true)) with (m := length s) (s := s)
    as (t & Ht & Hndb & _); auto.
  - intros c u. apply no_double_blank_tail.
  - intros u n _ El.
    destruct (decimal_repl_no_blank _ (longest_match_sound _ _ _ El))
      as (out & Hout & Hne & Hnb).
    exists out. split; [exact Hout|]. split; [exact Hne|].
    split; [apply no_blank_no_double_blank; exact Hnb|]. split.
    + intros x Hx Hbx. destruct out as [|o out']; [discriminate Hx|].
      cbn [head] in Hx. apply Some_inj in Hx. subst o.
      cbn [forallb] in Hnb. rewrite Hbx in Hnb. discriminate Hnb.
    + intros x y Hx Hbx _. exfalso.
      unfold last_char in Hx. rewrite <- forallb_rev in Hnb.
      destruct (rev out) as [|o r]; [discriminate Hx|].
      cbn [head] in Hx. apply Some_inj in Hx. subst o.
      cbn [forallb] in Hnb. rewrite Hbx in Hnb. discriminate Hnb.
  - intros c d u Hu _. cbn [no_double_blank] in Hu.
    apply andb_true_iff in Hu as [Hu _]. apply negb_true_iff in Hu. exact Hu.
  - eauto.
Qed.

(** X12.  Line 264 never fails, and the text it stores has no two
    blanks next to each other. *)
Theorem fix_decimals_text_has_single_blanks (text : str) :
  exists t, fix_decimals_text text = Ok t /\ no_double_blank t = true.
Proof.
  unfold fix_decimals_text.
  destruct (space_dedup_sub_no_double_blank text) as (t1 & -> & H1).
  cbn [rbind]. apply decimal_sub_no_double_blank. exact H1.
Qed.

(** X13.  A text without a digit and without two blanks in a row is
    stored by line 264 as it is. *)
Theorem fix_decimals_text_leaves_plain_text (text : str) :
  forallb (fun c => negb (is_digit c)) text = true ->
  no_double_blank text = true ->
  fix_decimals_text text = Ok text.
Proof.
  intros Hdig Hndb. unfold fix_decimals_text.
  assert (H1 : re_sub SPACE_DEDUP (fun _ => Ok (py_str " ")) text = Ok text).
  { clear Hdig. induction text as [|c s IH]; [reflexivity|].
    rewrite re_sub_cons.
    pose proof (IH (no_double_blank_tail c s Hndb)) as IHs.
    destruct (is_blank c) eqn:Ec.
    - rewrite (space_dedup_at_blank c s Ec).
      assert (Etw : take_while is_blank s = []).
      { destruct s as [|d s']; [reflexivity|].
        cbn [no_double_blank] in Hndb. apply andb_true_iff in Hndb as [Hcd _].
        rewrite Ec in Hcd. cbn [andb] in Hcd. apply negb_true_iff in Hcd.
        cbn [take_while]. rewrite Hcd. reflexivity. }
      rewrite Etw. cbn [length rbind drop skipn]. rewrite drop_0, IHs.
      cbn [rbind]. rewrite (blank_is_blank c Ec). reflexivity.
    - rewrite (space_dedup_at_other c s Ec), IHs. reflexivity. }
  rewrite H1. cbn [rbind]. clear H1 Hndb.
  induction text as [|c s IH]; [reflexivity|].
  cbn [forallb] in Hdig. apply andb_true_iff in Hdig as [Hc Hs].
  apply negb_true_iff in Hc.
  rewrite re_sub_cons.
  destruct (longest_match DECIMAL (c :: s)) as [n|] eqn:El.
  { exfalso. exact (decimal_at_non_digit c s Hc n El). }
  rewrite (IH Hs). reflexivity.
Qed.

Lemma fix_decimals_text_leaves_plain_text_witness :
  forallb (fun c => negb (is_digit c)) (py_str "What a point, really!") = true
  /\ no_double_blank (py_str "What a point, really!") = true
  /\ fix_decimals_text (py_str "What a point, really!")
     = Ok (py_str "What a point, really!").
Proof.
  split; [reflexivity|]. split; [reflexivity|].
  apply (fix_decimals_text_leaves_plain_text (py_str "What a point, really!"));
    reflexivity.
Defined.

(** [pattern.sub] keeps the characters of a class, in order, when the
    replacement of every match does. *)
Lemma re_sub_keeps_class r (repl : str -> result str) (p : ascii -> bool) :
  (forall m, re_match r m ->
     exists out, repl m = Ok out /\ List.filter p out = List.filter p m) ->
  forall k (s : str), length s <= k ->
    exists t, re_sub r repl s = Ok t /\ List.filter p t = List.filter p s.
Proof.
  intros Hrepl. induction k as [|k IH]; intros s Hlen.
  - destruct s; [|simpl in Hlen; lia]. exists []. split; reflexivity.
  - destruct s as [|c s]; [exists []; split; reflexivity|].
    rewrite re_sub_cons.
    assert (Hplain : exists t,
               (do rest <- re_sub r repl s; Ok (c :: rest)) = Ok t
               /\ List.filter p t = List.filter p (c :: s)).
    { destruct (IH s) as (t' & -> & Ht'); [simpl in Hlen; lia|].
      exists (c :: t'). split; [reflexivity|].
      cbn [List.filter]. rewrite Ht'. reflexivity. }
    destruct (longest_match r (c :: s)) as [[|n]|] eqn:El; try exact Hplain.
    destruct (Hrepl _ (longest_match_sound _ _ _ El)) as (out & -> & Hout).
    destruct (IH (drop n s)) as (t' & -> & Ht').
    { rewrite length_drop. simpl in Hlen. lia. }
    exists (out ++ t'). split; [reflexivity|].
    rewrite List.filter_app, Hout, Ht', <- List.filter_app.
    change (drop n s) with (drop (S n) (c :: s)).
    rewrite take_drop. reflexivity.
Qed.

Lemma decimal_repl_keeps_digits m :
  re_match DECIMAL m ->
  exists out, decimal_repl m = Ok out
              /\ List.filter is_digit out = List.filter is_digit m.
Proof.
  intros H. apply decimal_match_shape in H.
  destruct H as (ds & p & w & gs & -> & Hne & Hds & Hp & Hword & Hw & _ & Hgs).
  assert (Hw_ne : w <> []) by (intros ->; discriminate Hword).
  exists (ds ++ py_str "." ++ map snd gs).
  split; [apply decimal_repl_shape; assumption|].
  destruct (shape_leading_digits ds p w gs Hds Hp Hw Hgs) as [Et Ef].
  rewrite (take_while_drop_while is_digit (decimal_shape ds p w gs)) at 1.
  rewrite !List.filter_app, Et, Ef.
  rewrite (filter_all is_digit ds Hds).
  rewrite (filter_all is_digit (map snd gs) (groups_digits gs Hgs)).
  reflexivity.
Qed.

(** X14.  Line 264 loses no digit and adds none: the digits of the
    stored text are the digits of the text, in the same order. *)
Theorem fix_decimals_text_keeps_digits (text : str) :
  exists t, fix_decimals_text text = Ok t
            /\ List.filter is_digit t = List.filter is_digit text.
Proof.
  unfold fix_decimals_text.
  destruct (re_sub_keeps_class SPACE_DEDUP (fun _ => Ok (py_str " ")) is_digit)
    with (k := length text) (s := text) as (t1 & -> & H1); [|reflexivity|].
  { intros m Hm. exists (py_str " "). split; [reflexivity|].
    apply space_dedup_match in Hm as [_ Hall]. symmetry.
    apply (filter_none is_blank is_digit m); [|exact Hall].
    intros x Hx. rewrite (blank_is_blank x Hx). reflexivity. }
  cbn [rbind].
  destruct (re_sub_keeps_class DECIMAL decimal_repl is_digit
              decimal_repl_keeps_digits (length t1) t1 (le_n _)) as (t & -> & H2).
  exists t. split; [reflexivity | congruence].
Qed.

(** ** eval_pypinyin.py: the counters and the report *)

Lemma dict_get_none_keys k (d : dict) :
  dict_get k d = None <-> ~ In k (dict_keys d).
Proof.
  induction d as [|[k' v] d IH]; simpl; [tauto|].
  unfold str_eqb. destruct (bool_decide_reflect (k' = k)) as [E|E].
  - split; [discriminate | intros H; exfalso; apply H; left; exact E].
  - rewrite IH. tauto.
Qed.

Lemma dict_keys_set_new k v (d : dict) :
  dict_get k d = None -> dict_keys (dict_set k v d) = dict_keys d ++ [k].
Proof.
  induction d as [|[k' v'] d IH]; simpl; [reflexivity|].
  destruct (str_eqb k' k); [discriminate|].
  intros H. simpl. rewrite (IH H). reflexivity.
Qed.

Lemma dict_set_length k v (d : dict) :
  length (dict_set k v d) <= S (length d).
Proof.
  induction d as [|[k' v'] d IH]; simpl; [lia|].
  destruct (str_eqb k' k); simpl; lia.
Qed.

Lemma size_add_word (c : str) (X : gset str) :
  size X <= size ({[ c ]} ∪ X) <= S (size X).
Proof.
  destruct (decide (c ∈ X)) as [Hin|Hout].
  - rewrite (subseteq_union_1_L {[ c ]} X) by (apply singleton_subseteq_l; exact Hin).
    lia.
  - rewrite size_union by set_solver. rewrite size_singleton. lia.
Qed.

Section EvalStatsProperties.

Variable pinyin : str -> list (list str).

Lemma count_word_ok st c l :
  stats_ok st -> stats_ok (EvalStats.count_word pinyin st c l).
Proof.
  intros (Htot & Herr & Hsize & Hnd & Hsub).
  pose proof (size_add_word c (EvalStats.all_words st)) as Hs.
  unfold EvalStats.count_word, stats_ok.
  destruct (str_eqb (EvalStats.pred_of pinyin c) l);
    cbn [EvalStats.total_word EvalStats.correct EvalStats.error
         EvalStats.error_words EvalStats.all_words].
  - repeat split; try lia; try assumption.
    intros w Hw. apply elem_of_union. right. apply Hsub. exact Hw.
  - pose proof (dict_set_length c
                  (JStr (EvalStats.error_message (EvalStats.pred_of pinyin c) l))
                  (EvalStats.error_words st)) as Hl.
    destruct (dict_get c (EvalStats.error_words st)) as [v|] eqn:Eg.
    + rewrite (dict_keys_set _ _ v _ Eg).
      repeat split; try lia; try assumption.
      intros w Hw. apply elem_of_union. right. apply Hsub. exact Hw.
    + rewrite (dict_keys_set_new _ _ _ Eg).
      repeat split; try lia.
      * apply NoDup_app. split; [exact Hnd|]. split.
        -- intros x Hx Hx'. apply list_elem_of_In in Hx.
           apply list_elem_of_singleton in Hx'. subst x.
           apply dict_get_none_keys in Eg. contradiction.
        -- apply NoDup_singleton.
      * intros w Hw. apply in_app_or in Hw as [Hw|[<-|[]]].
        -- apply elem_of_union. right. apply Hsub. exact Hw.
        -- apply elem_of_union. left. apply elem_of_singleton. reflexivity.
Qed.

Lemma count_words_ok character : forall st label,
  stats_ok st -> stats_ok (EvalStats.count_words pinyin st character label).
Proof.
  induction character as [|c cs IH]; intros st [|l ls] H; try exact H.
  cbn [EvalStats.count_words]. apply IH, count_word_ok, H.
Qed.

Lemma count_lines_ok lines : forall st st',
  stats_ok st -> EvalStats.count_lines pinyin st lines = Ok st' -> stats_ok st'.
Proof.
  induction lines as [|line lines IH]; intros st st' Hok H.
  - apply Ok_inj in H. subst. exact Hok.
  - cbn [EvalStats.count_lines] in H.
    apply rbind_ok in H as (st1 & H1 & H).
    apply (IH st1 st'); [|exact H].
    unfold EvalStats.count_line in H1.
    destruct (EvalPypinyin.parse_line line) as [|f label character|e];
      [| |discriminate]; apply Ok_inj in H1; subst st1;
      [exact Hok | apply count_words_ok; exact Hok].
Qed.

Lemma initial_ok : stats_ok EvalStats.initial.
Proof.
  unfold stats_ok, EvalStats.initial.
  cbn [EvalStats.total_word EvalStats.correct EvalStats.error
       EvalStats.error_words EvalStats.all_words dict_keys map length].
  split; [reflexivity|]. split; [lia|].
  split; [rewrite size_empty; lia|].
  split; [apply NoDup_nil_2 | intros w []].
Qed.

(** X15.  After any number of lines the counters add up,
    [total_word = correct + error]; the distinct words are no more than
    the words counted; and the distinct mis-converted words are no more
    than the errors and no more than the distinct words, so that the
    last quotient printed is at most 1. *)
Theorem eval_counters_add_up (lines : list str) (st : EvalStats.stats) :
  EvalStats.count_lines pinyin EvalStats.initial lines = Ok st ->
  EvalStats.total_word st = EvalStats.correct st + EvalStats.error st
  /\ size (EvalStats.all_words st) <= EvalStats.total_word st
  /\ length (EvalStats.error_words st) <= EvalStats.error st
  /\ length (EvalStats.error_words st) <= size (EvalStats.all_words st).
Proof.
  intros H. apply (count_lines_ok lines _ st initial_ok) in H.
  destruct H as (Htot & Herr & Hsize & Hnd & Hsub).
  repeat split; try assumption.
  replace (length (EvalStats.error_words st))
    with (length (dict_keys (EvalStats.error_words st)))
    by apply length_map.
  rewrite <- (size_list_to_set (C := gset str)) by exact Hnd.
  apply subseteq_size. intros w Hw. apply elem_of_list_to_set in Hw.
  apply Hsub, list_elem_of_In. exact Hw.
Qed.

(** X16.  The loop of line 39 counts as many words as the shorter of
    [character] and [label] has: what the longer one holds beyond that
    is compared with nothing and counted nowhere. *)
Theorem eval_counts_the_shorter_list (st : EvalStats.stats)
    (character label : list str) :
  EvalStats.total_word (EvalStats.count_words pinyin st character label)
  = EvalStats.total_word st + Nat.min (length character) (length label).
Proof.
  revert st label. induction character as [|c cs IH]; intros st [|l ls];
    cbn [EvalStats.count_words length Nat.min]; try lia.
  rewrite IH. unfold EvalStats.count_word.
  destruct (str_eqb (EvalStats.pred_of pinyin c) l);
    cbn [EvalStats.total_word]; lia.
Qed.

Lemma count_words_keeps_words character : forall st label w,
  w ∈ EvalStats.all_words st ->
  w ∈ EvalStats.all_words (EvalStats.count_words pinyin st character label).
Proof.
  induction character as [|c cs IH]; intros st [|l ls] w Hw; try exact Hw.
  cbn [EvalStats.count_words]. apply IH. unfold EvalStats.count_word.
  destruct (str_eqb (EvalStats.pred_of pinyin c) l);
    cbn [EvalStats.all_words]; apply elem_of_union; right; exact Hw.
Qed.

Lemma split_label_nonempty s : EvalPypinyin.split_label s <> [].
Proof.
  unfold EvalPypinyin.split_label.
  destruct (split_on "%" (replace_char "$" "%" s)) eqn:E; [|discriminate].
  exfalso. exact (split_on_nonempty _ _ E).
Qed.

Lemma parse_line_skipped line :
  EvalPypinyin.skipped line = true -> EvalPypinyin.parse_line line = EvalPypinyin.Skipped.
Proof. unfold EvalPypinyin.parse_line. intros ->. reflexivity. Qed.

(** A line that is counted leaves a word in [all_words]. *)
Lemma count_line_adds_word st line st' :
  EvalPypinyin.skipped line = false ->
  EvalStats.count_line pinyin st line = Ok st' ->
  exists w, w ∈ EvalStats.all_words st'.
Proof.
  unfold EvalStats.count_line, EvalPypinyin.parse_line. intros ->.
  destruct (EvalPypinyin.split_fields line) as [|f [|l [|ch [|]]]];
    try discriminate.
  intros H. apply Ok_inj in H. subst st'.
  pose proof (split_label_nonempty l) as Hl.
  pose proof (split_label_nonempty ch) as Hc.
  destruct (EvalPypinyin.split_label ch) as [|c cs]; [congruence|].
  destruct (EvalPypinyin.split_label l) as [|x xs]; [congruence|].
  exists c. cbn [EvalStats.count_words]. apply count_words_keeps_words.
  unfold EvalStats.count_word.
  destruct (str_eqb (EvalStats.pred_of pinyin c) x);
    cbn [EvalStats.all_words]; apply elem_of_union; left;
    apply elem_of_singleton; reflexivity.
Qed.

Lemma count_line_keeps_words st line st' w :
  EvalStats.count_line pinyin st line = Ok st' ->
  w ∈ EvalStats.all_words st -> w ∈ EvalStats.all_words st'.
Proof.
  unfold EvalStats.count_line.
  destruct (EvalPypinyin.parse_line line) as [|f label character|e];
    [| |discriminate]; intros H Hw; apply Ok_inj in H; subst st';
    [exact Hw | apply count_words_keeps_words; exact Hw].
Qed.

Lemma count_lines_words lines : forall st st',
  EvalStats.count_lines pinyin st lines = Ok st' ->
  (forall w, w ∈ EvalStats.all_words st -> w ∈ EvalStats.all_words st')
  /\ (Exists (fun line => EvalPypinyin.skipped line = false) lines ->
      exists w, w ∈ EvalStats.all_words st').
Proof.
  induction lines as [|line lines IH]; intros st st' H.
  - apply Ok_inj in H. subst. split; [auto | intros Hex; inversion Hex].
  - cbn [EvalStats.count_lines] in H.
    apply rbind_ok in H as (st1 & H1 & H).
    destruct (IH st1 st' H) as [Hkeep Hnew]. split.
    + intros w Hw. apply Hkeep. apply (count_line_keeps_words st line st1 w H1 Hw).
    + intros Hex. inversion Hex as [? ? Hhead|? ? Htail]; subst.
      * destruct (count_line_adds_word st line st1 Hhead H1) as [w Hw].
        exists w. apply Hkeep. exact Hw.
      * apply Hnew. exact Htail.
Qed.

Lemma count_lines_all_skipped lines st :
  Forall (fun line => EvalPypinyin.skipped line = true) lines ->
  EvalStats.count_lines pinyin st lines = Ok st.
Proof.
  induction 1 as [|line lines Hs _ IH]; [reflexivity|].
  cbn [EvalStats.count_lines]. unfold EvalStats.count_line.
  rewrite (parse_line_skipped line Hs). cbn [rbind]. exact IH.
Qed.

(** X17.  The script ends with [ZeroDivisionError] on line 56 exactly
    when every line of the label file is skipped (blank or a comment),
    an empty file included; it has then printed the three zero counts
    and no rates: line 53 guards its division, line 56 does not. *)
Theorem eval_divides_by_zero_iff_nothing_counted (lines : list str) :
  (snd (EvalStats.script pinyin lines) = EvalStats.RaisedZeroDivisionError
   <-> Forall (fun line => EvalPypinyin.skipped line = true) lines)
  /\ (Forall (fun line => EvalPypinyin.skipped line = true) lines ->
      EvalStats.script pinyin lines
      = ([EvalStats.PrintCounts 0 0 0], EvalStats.RaisedZeroDivisionError)).
Proof.
  assert (Hall : Forall (fun line => EvalPypinyin.skipped line = true) lines ->
                 EvalStats.script pinyin lines
                 = ([EvalStats.PrintCounts 0 0 0], EvalStats.RaisedZeroDivisionError)).
  { intros H. unfold EvalStats.script.
    rewrite (count_lines_all_skipped lines _ H). reflexivity. }
  split; [|exact Hall]. split; [|intros H; rewrite (Hall H); reflexivity].
  unfold EvalStats.script.
  destruct (EvalStats.count_lines pinyin EvalStats.initial lines) as [st|e] eqn:E;
    [|discriminate].
  unfold EvalStats.report.
  destruct (Nat.eqb (size (EvalStats.all_words st)) 0) eqn:Es; [|discriminate].
  intros _. apply Nat.eqb_eq, size_empty_iff in Es.
  apply Forall_forall. intros line Hline.
  destruct (EvalPypinyin.skipped line) eqn:Esk; [reflexivity|]. exfalso.
  destruct (count_lines_words lines _ st E) as [_ Hnew].
  destruct Hnew as [w Hw].
  - apply List.Exists_exists. exists line. split; [|exact Esk].
    apply list_elem_of_In. exact Hline.
  - apply Es in Hw. exact (not_elem_of_empty (C := gset str) w Hw).
Qed.

End EvalStatsProperties.

Lemma eval_counters_add_up_witness :
  exists st,
    EvalStats.count_lines echo_pinyin EvalStats.initial sample_label_lines = Ok st
    /\ EvalStats.total_word st = EvalStats.correct st + EvalStats.error st
    /\ size (EvalStats.all_words st) <= EvalStats.total_word st
    /\ length (EvalStats.error_words st) <= EvalStats.error st
    /\ length (EvalStats.error_words st) <= size (EvalStats.all_words st).
Proof.
  eexists. split; [vm_compute; reflexivity|].
  apply (eval_counters_add_up echo_pinyin sample_label_lines).
  vm_compute. reflexivity.
Defined.

(** The sample lines: two words, 'a' converted as labelled, 'c' not. *)
Example sample_label_lines_counted :
  exists st,
    EvalStats.count_lines echo_pinyin EvalStats.initial sample_label_lines = Ok st
    /\ EvalStats.total_word st = 2 /\ EvalStats.correct st = 1
    /\ EvalStats.error st = 1
    /\ EvalStats.error_words st
       = [(py_str "c", JStr (py_str "conversion=c, label=b"))].
Proof. eexists. split; [vm_compute; reflexivity|]. repeat split. Qed.

Lemma split_on_length sep (s : str) :
  length (split_on sep s) = S (count_char sep s).
Proof.
  unfold count_char. induction s as [|c s IH]; [reflexivity|].
  cbn [split_on List.filter]. destruct (eqc c sep).
  - cbn [length]. rewrite IH. reflexivity.
  - destruct (split_on sep s) as [|h t] eqn:E.
    + exfalso. exact (split_on_nonempty _ _ E).
    + cbn [length] in *. exact IH.
Qed.

(** Unpacking [l] on line 29 fails exactly for the lines with another
    number of '|' than two, and only with [ValueError]. *)
Lemma parse_line_failed_iff line :
  (exists e, EvalPypinyin.parse_line line = EvalPypinyin.Failed e)
  <-> bad_label_line line.
Proof.
  unfold EvalPypinyin.parse_line, bad_label_line.
  destruct (EvalPypinyin.skipped line).
  { split; [intros [e H]; discriminate H | intros [H _]; discriminate H]. }
  pose proof (split_on_length "|" (but_last (strip line))) as Hlen.
  unfold EvalPypinyin.split_fields.
  destruct (split_on "|" (but_last (strip line))) as [|f [|l [|ch [|x r]]]];
    cbn [length] in Hlen.
  - discriminate Hlen.
  - split; [intros _; split; [reflexivity | lia] | intros _; eauto].
  - split; [intros _; split; [reflexivity | lia] | intros _; eauto].
  - split; [intros [e H]; discriminate H | intros [_ H]; lia].
  - split; [intros _; split; [reflexivity | lia] | intros _; eauto].
Qed.

Lemma count_lines_fails_iff pinyin lines : forall st,
  (exists e, EvalStats.count_lines pinyin st lines = Raise e)
  <-> Exists bad_label_line lines.
Proof.
  induction lines as [|line lines IH]; intros st.
  - split; [intros [e H]; discriminate H | intros H; inversion H].
  - cbn [EvalStats.count_lines]. unfold EvalStats.count_line.
    pose proof (parse_line_failed_iff line) as Hp.
    destruct (EvalPypinyin.parse_line line) as [|f label character|e0] eqn:E;
      cbn [rbind].
    + rewrite IH. split; [intros H; right; exact H|].
      intros H. inversion H as [? ? Hbad|? ? Ht]; subst; [|exact Ht].
      apply Hp in Hbad as [e Hbad]. discriminate Hbad.
    + rewrite IH. split; [intros H; right; exact H|].
      intros H. inversion H as [? ? Hbad|? ? Ht]; subst; [|exact Ht].
      apply Hp in Hbad as [e Hbad]. discriminate Hbad.
    + split; [|intros _; eauto].
      intros _. left. apply Hp. eauto.
Qed.

(** X18.  The script ends with [ValueError] exactly when some line that
    is not skipped does not hold two '|' (after [strip] and [line[:-1]]);
    then it stops inside the loop: no log file is written and nothing is
    printed. *)
Theorem eval_fails_on_wrong_bar_count (pinyin : str -> list (list str))
    (lines : list str) :
  (snd (EvalStats.script pinyin lines) = EvalStats.RaisedValueError
   <-> Exists bad_label_line lines)
  /\ (Exists bad_label_line lines ->
      EvalStats.script pinyin lines = ([], EvalStats.RaisedValueError)).
Proof.
  pose proof (count_lines_fails_iff pinyin lines EvalStats.initial) as Hiff.
  unfold EvalStats.script.
  destruct (EvalStats.count_lines pinyin EvalStats.initial lines) as [st|e].
  - assert (Hno : ~ Exists bad_label_line lines).
    { intros H. apply Hiff in H as [e H]. discriminate H. }
    split; [|intros H; contradiction].
    split; [|intros H; contradiction].
    unfold EvalStats.report.
    destruct (Nat.eqb (size (EvalStats.all_words st)) 0); discriminate.
  - assert (Hyes : Exists bad_label_line lines) by (apply Hiff; eauto).
    split; [split; auto | auto].
Qed.

(** ** char2pinyin.py: the whole loop *)

(** X19.  The script converts the lines in order and stops at the first
    line that fails: what it has written is what the lines before it
    gave, the failing line and the lines after it give nothing, and the
    exception is that line's. *)
Theorem char2pinyin_stops_at_first_failure
    (pinyin : jvalue -> result (list (list str)))
    (json_loads : str -> result jdoc) (json_dumps : dict -> str)
    (lines : list str) :
  exists pre,
    fst (Char2Pinyin.convert_lines pinyin json_loads json_dumps lines)
    = flat_map (written_for pinyin json_loads json_dumps) pre
    /\ Forall (fun line =>
                 exists w, Char2Pinyin.convert_line pinyin json_loads json_dumps line
                           = Ok w) pre
    /\ ((snd (Char2Pinyin.convert_lines pinyin json_loads json_dumps lines) = Ok tt
         /\ pre = lines)
        \/ exists e bad post,
             snd (Char2Pinyin.convert_lines pinyin json_loads json_dumps lines)
             = Raise e
             /\ lines = pre ++ bad :: post
             /\ Char2Pinyin.convert_line pinyin json_loads json_dumps bad = Raise e).
Proof.
  induction lines as [|line lines IH].
  - exists []. split; [reflexivity|]. split; [constructor|]. left. split; reflexivity.
  - cbn [Char2Pinyin.convert_lines].
    destruct (Char2Pinyin.convert_line pinyin json_loads json_dumps line)
      as [w|e] eqn:E.
    + destruct IH as (pre & Hout & Hpre & Hend).
      destruct (Char2Pinyin.convert_lines pinyin json_loads json_dumps lines)
        as [out r].
      cbn [fst snd] in *.
      exists (line :: pre). split.
      * cbn [flat_map]. unfold written_for at 1. rewrite E, <- Hout.
        destruct w; reflexivity.
      * split; [constructor; [eauto | exact Hpre]|].
        destruct Hend as [[-> ->]|(e & bad & post & -> & -> & Hbad)].
        -- left. split; reflexivity.
        -- right. exists e, bad, post. repeat split. exact Hbad.
    + exists []. split; [reflexivity|]. split; [constructor|].
      right. exists e, line, lines. repeat split. exact E.
Qed.
